(** * gonab: grouping parts into binaries and promoting binaries to releases

    A shallow embedding of [db/db.go] (package [db]): the subject parser and
    the binary grouper ([MakeBinaries]), the completeness query and the
    release promoter ([MakeReleases]), and the helpers [makeBinaryHash],
    [hasNameAndParts] and [cleanReleaseName].

    Go strings are byte strings: they are modelled by [string], whose
    characters are bytes.  A non-ASCII character is the sequence of the bytes
    of its UTF-8 encoding, as in the Go source file. *)

From Stdlib Require Import ZArith String Ascii List Lia Bool QArith Sorted.
From stdpp Require Import base option list gmap strings.

Open Scope string_scope.
Open Scope Z_scope.

(** ** The functions of Go's [strings] and [strconv] that [db.go] calls *)

Module GoStrings.

(** [strings.HasPrefix s p]. *)
Definition HasPrefix (s p : string) : bool := String.prefix p s.

(** The byte offset of the first occurrence of [sep] in [s], counted from
    [i]; [-1] when there is none. *)
Fixpoint indexFrom (sep : string) (i : Z) (s : string) : Z :=
  if HasPrefix s sep then i
  else match s with
       | EmptyString => -1
       | String _ s' => indexFrom sep (i + 1) s'
       end.

(** [strings.Index s sep]. *)
Definition Index (s sep : string) : Z := indexFrom sep 0 s.

(** [strings.Replace s old new (-1)] for a non-empty [old]: every
    non-overlapping occurrence of [old], found from the left, becomes [new].
    [skip] counts the bytes of an occurrence that are still to be dropped.
    Every call in [db.go] passes a non-empty constant for [old]. *)
Fixpoint replaceFrom (old new : string) (skip : nat) (s : string) : string :=
  match s with
  | EmptyString => EmptyString
  | String c s' =>
      match skip with
      | S k => replaceFrom old new k s'
      | O =>
          if HasPrefix s old
          then new +:+ replaceFrom old new (String.length old - 1) s'
          else String c (replaceFrom old new 0 s')
      end
  end.

Definition Replace (s old new : string) : string := replaceFrom old new 0 s.

Fixpoint dropBytes (n : nat) (s : string) : string :=
  match n, s with
  | S n', String _ s' => dropBytes n' s'
  | _, _ => s
  end.

(** [s] cut at the first occurrence of [sep]: what is before it and what is
    after it. *)
Fixpoint cut (sep : string) (s : string) : option (string * string) :=
  if HasPrefix s sep then Some (EmptyString, dropBytes (String.length sep) s)
  else match s with
       | EmptyString => None
       | String c s' =>
           match cut sep s' with
           | Some (before, after) => Some (String c before, after)
           | None => None
           end
       end.

(** [strings.SplitN s sep 2] for a non-empty [sep]: at most two pieces. *)
Definition SplitN2 (s sep : string) : list string :=
  match cut sep s with
  | Some (before, after) => [before; after]
  | None => [s]
  end.

(** [strings.Join elems sep]. *)
Definition Join (elems : list string) (sep : string) : string :=
  String.concat sep elems.

Definition bytes (l : list nat) : string :=
  string_of_list_ascii (List.map ascii_of_nat l).

(** The UTF-8 encodings of the code points for which [unicode.IsSpace]
    holds: tab, LF, VT, FF, CR, space, U+0085, U+00A0, U+1680,
    U+2000..U+200A, U+2028, U+2029, U+202F, U+205F and U+3000. *)
Definition spaces : list string :=
  List.map bytes
    [ [9]; [10]; [11]; [12]; [13]; [32]; [194; 133]; [194; 160]; [225; 154; 128];
      [226; 128; 128]; [226; 128; 129]; [226; 128; 130]; [226; 128; 131];
      [226; 128; 132]; [226; 128; 133]; [226; 128; 134]; [226; 128; 135];
      [226; 128; 136]; [226; 128; 137]; [226; 128; 138]; [226; 128; 168];
      [226; 128; 169]; [226; 128; 175]; [226; 129; 159]; [227; 128; 128] ]%nat.

Definition rev_string (s : string) : string :=
  string_of_list_ascii (List.rev (list_ascii_of_string s)).

(** The length of the white-space character [s] starts with, if any. *)
Definition leadingSpace (sps : list string) (s : string) : option nat :=
  match List.find (fun w => HasPrefix s w) sps with
  | Some w => Some (String.length w)
  | None => None
  end.

Fixpoint trimLeftFrom (sps : list string) (skip : nat) (s : string) : string :=
  match s with
  | EmptyString => EmptyString
  | String _ s' =>
      match skip with
      | S k => trimLeftFrom sps k s'
      | O =>
          match leadingSpace sps s with
          | Some n => trimLeftFrom sps (n - 1) s'
          | None => s
          end
      end
  end.

(** [strings.TrimSpace s]: leading and trailing white space removed. *)
Definition TrimSpace (s : string) : string :=
  let s1 := trimLeftFrom spaces 0 s in
  rev_string (trimLeftFrom (List.map rev_string spaces) 0 (rev_string s1)).

Definition isDigit (c : ascii) : bool :=
  let n := nat_of_ascii c in (48 <=? n)%nat && (n <=? 57)%nat.

Definition digitVal (c : ascii) : Z := Z.of_nat (nat_of_ascii c) - 48.

Fixpoint decimal (acc : Z) (s : string) : option Z :=
  match s with
  | EmptyString => Some acc
  | String c s' => if isDigit c then decimal (10 * acc + digitVal c) s' else None
  end.

(** [strconv.Atoi s]: an optional sign and one or more decimal digits;
    [None] is the error result.  The numbers [db.go] converts have at most
    three digits, so the range error of [Atoi] is not modelled. *)
Definition Atoi (s : string) : option Z :=
  match s with
  | EmptyString => None
  | String "+" (String c s') => decimal 0 (String c s')
  | String "-" (String c s') => Z.opp <$> decimal 0 (String c s')
  | _ => decimal 0 s
  end.

End GoStrings.

(** ** [github.com/OneOfOne/xxhash]: the 64-bit xxHash of a byte string *)

Module xxhash.

Definition prime1 : Z := 11400714785074694791.
Definition prime2 : Z := 14029467366897019727.
Definition prime3 : Z := 1609587929392839161.
Definition prime4 : Z := 9650029242287828579.
Definition prime5 : Z := 2870177450012600261.

(** Arithmetic on [uint64] wraps around. *)
Definition u64 (x : Z) : Z := x mod 2 ^ 64.

Definition rotl (x r : Z) : Z :=
  u64 (Z.lor (Z.shiftl x r) (Z.shiftr x (64 - r))).

Definition round (acc input : Z) : Z :=
  u64 (rotl (u64 (acc + input * prime2)) 31 * prime1).

Definition mergeRound (acc val : Z) : Z :=
  u64 (Z.lxor acc (round 0 val) * prime1 + prime4).

(** Little-endian reading of the first [n] bytes of [l]. *)
Fixpoint le (n : nat) (l : list Z) : Z :=
  match n, l with
  | S n', b :: l' => b + 256 * le n' l'
  | _, _ => 0
  end.

(** The four lanes over the 32-byte stripes; what is left is the tail. *)
Fixpoint stripes (fuel : nat) (v : Z * Z * Z * Z) (l : list Z)
  : Z * Z * Z * Z * list Z :=
  match fuel with
  | O => (v, l)
  | S fuel' =>
      if (32 <=? List.length l)%nat then
        let '(v1, v2, v3, v4) := v in
        stripes fuel'
          (round v1 (le 8 l), round v2 (le 8 (List.skipn 8 l)),
           round v3 (le 8 (List.skipn 16 l)), round v4 (le 8 (List.skipn 24 l)))
          (List.skipn 32 l)
      else (v, l)
  end.

Fixpoint tail8 (fuel : nat) (h : Z) (l : list Z) : Z * list Z :=
  match fuel with
  | O => (h, l)
  | S fuel' =>
      if (8 <=? List.length l)%nat then
        tail8 fuel'
          (u64 (rotl (Z.lxor h (round 0 (le 8 l))) 27 * prime1 + prime4))
          (List.skipn 8 l)
      else (h, l)
  end.

Definition tail4 (h : Z) (l : list Z) : Z * list Z :=
  if (4 <=? List.length l)%nat then
    (u64 (rotl (Z.lxor h (u64 (le 4 l * prime1))) 23 * prime2 + prime3),
     List.skipn 4 l)
  else (h, l).

Fixpoint tail1 (h : Z) (l : list Z) : Z :=
  match l with
  | [] => h
  | b :: l' => tail1 (u64 (rotl (Z.lxor h (u64 (b * prime5))) 11 * prime1)) l'
  end.

Definition avalanche (h : Z) : Z :=
  let h := u64 (Z.lxor h (Z.shiftr h 33) * prime2) in
  let h := u64 (Z.lxor h (Z.shiftr h 29) * prime3) in
  Z.lxor h (Z.shiftr h 32).

Definition bytesOf (s : string) : list Z :=
  List.map (fun c => Z.of_nat (nat_of_ascii c)) (list_ascii_of_string s).

(** What [New64()], one [Write] of the whole input and [Sum64()] return:
    the xxHash64 of the input with seed 0. *)
Definition Sum64 (s : string) : Z :=
  let input := bytesOf s in
  let n := List.length input in
  let '(h, rest) :=
    if (32 <=? n)%nat then
      let '(v1, v2, v3, v4, rest) :=
        stripes n (u64 (prime1 + prime2), prime2, 0, u64 (0 - prime1)) input in
      let h := u64 (rotl v1 1 + rotl v2 7 + rotl v3 12 + rotl v4 18) in
      (mergeRound (mergeRound (mergeRound (mergeRound h v1) v2) v3) v4, rest)
    else (prime5, input) in
  let h := u64 (h + Z.of_nat n) in
  let '(h, rest) := tail8 n h rest in
  let '(h, rest) := tail4 h rest in
  avalanche (tail1 h rest).

End xxhash.

(** ** [fmt.Sprintf "%x"] of a [uint64] *)

Module fmt.

Definition hexDigit (d : Z) : ascii :=
  ascii_of_nat (Z.to_nat (if d <? 10 then 48 + d else 87 + d)).

Fixpoint hexFrom (fuel : nat) (x : Z) (acc : string) : string :=
  match fuel with
  | O => acc
  | S fuel' =>
      let acc := String (hexDigit (x mod 16)) acc in
      if x / 16 =? 0 then acc else hexFrom fuel' (x / 16) acc
  end.

(** Lower-case hexadecimal without leading zeros; sixteen digits are enough
    for a [uint64]. *)
Definition Sprintf_x (x : Z) : string := hexFrom 16 x "".

End fmt.

(** ** The part of Go's [regexp] that the two patterns of [db.go] use

    Go's [regexp] returns the match a backtracking matcher finds first
    (leftmost, then by the priorities of the operators), which is what
    [run] computes.  The input is matched byte by byte: every piece that
    follows a [.*?] in the two patterns starts with an ASCII byte, which
    occurs in no multi-byte UTF-8 sequence, so matching [.] against a byte
    gives the same matches as matching it against a code point. *)

Module regexp.

Inductive re : Type :=
| Byte (p : ascii -> bool)                    (* one byte of a class *)
| Seq (a b : re)
| Alt (a b : re)                              (* a|b, a preferred *)
| LazyStar (p : ascii -> bool)                (* c*? *)
| Repeat (p : ascii -> bool) (lo hi : nat)    (* c{lo,hi}, greedy *)
| Group (i : nat) (r : re).                   (* capture group number i *)

(** The captures: group number and captured text, the latest first. *)
Definition captures : Type := list (nat * string).

Definition cont : Type := string -> captures -> option captures.

Fixpoint lazyStar (p : ascii -> bool) (s : string) (c : captures) (k : cont)
  : option captures :=
  match k s c with
  | Some r => Some r
  | None =>
      match s with
      | String a s' => if p a then lazyStar p s' c k else None
      | EmptyString => None
      end
  end.

Fixpoint repeat (p : ascii -> bool) (lo hi : nat) (s : string) (c : captures)
  (k : cont) : option captures :=
  let stop := if (lo =? 0)%nat then k s c else None in
  match hi with
  | O => stop
  | S hi' =>
      let more :=
        match s with
        | String a s' => if p a then repeat p (Nat.pred lo) hi' s' c k else None
        | EmptyString => None
        end in
      match more with
      | Some r => Some r
      | None => stop
      end
  end.

(** The text between two positions of the input, each given by what is
    left of the input there. *)
Definition between (from to : string) : string :=
  String.substring 0 (String.length from - String.length to) from.

Fixpoint matchAt (r : re) (s : string) (c : captures) (k : cont)
  : option captures :=
  match r with
  | Byte p =>
      match s with
      | String a s' => if p a then k s' c else None
      | EmptyString => None
      end
  | Seq a b => matchAt a s c (fun s' c' => matchAt b s' c' k)
  | Alt a b =>
      match matchAt a s c k with
      | Some r => Some r
      | None => matchAt b s c k
      end
  | LazyStar p => lazyStar p s c k
  | Repeat p lo hi => repeat p lo hi s c k
  | Group i r => matchAt r s c (fun s' c' => k s' ((i, between s s') :: c'))
  end.

(** The leftmost match: the first start offset at which [r] matches. *)
Fixpoint run (r : re) (s : string) : option captures :=
  match matchAt (Group 0 r) s [] (fun _ c => Some c) with
  | Some c => Some c
  | None =>
      match s with
      | String _ s' => run r s'
      | EmptyString => None
      end
  end.

Definition groupText (c : captures) (i : nat) : string :=
  match List.find (fun e => (fst e =? i)%nat) c with
  | Some e => snd e
  | None => EmptyString
  end.

(** A compiled pattern: its syntax tree and the names of its groups
    ([SubexpNames], the empty string for group 0 and for unnamed groups). *)
Record Regexp : Type := { tree : re; SubexpNames : list string }.

(** [FindStringSubmatch]: the text of the match and of every group; [None]
    is the nil slice of no match. *)
Definition FindStringSubmatch (r : Regexp) (s : string) : option (list string) :=
  match run (tree r) s with
  | Some c => Some (List.map (groupText c) (seq 0 (List.length (SubexpNames r))))
  | None => None
  end.

(** Building blocks of the two patterns. *)
Definition any : ascii -> bool := fun a => negb (Ascii.eqb a "010"%char).
Definition digit : ascii -> bool := GoStrings.isDigit.
Definition oneOf (l : string) : ascii -> bool :=
  fun a => existsb (Ascii.eqb a) (list_ascii_of_string l).
Definition exactly (a : ascii) : re := Byte (Ascii.eqb a).

Definition lower (a : ascii) : ascii :=
  let n := nat_of_ascii a in
  if (65 <=? n)%nat && (n <=? 90)%nat then ascii_of_nat (n + 32) else a.

Fixpoint seqOf (l : list re) (last : re) : re :=
  match l with
  | [] => last
  | r :: l' => Seq r (seqOf l' last)
  end.

Definition bytesRe (l : list nat) (last : nat) : re :=
  seqOf (List.map (fun n => exactly (ascii_of_nat n)) l) (exactly (ascii_of_nat last)).

(** One literal character under the flag [(?i)]: either case of an ASCII
    letter, and the two non-ASCII characters that fold to an ASCII letter,
    U+212A to [k] and U+017F to [s]. *)
Definition folded (a : ascii) : re :=
  let same := Byte (fun b => Ascii.eqb (lower b) (lower a)) in
  if Ascii.eqb (lower a) "k" then Alt same (bytesRe [226; 132]%nat 170%nat)
  else if Ascii.eqb (lower a) "s" then Alt same (bytesRe [197]%nat 191%nat)
  else same.

(** A literal word under [(?i)]; the word is not empty. *)
Fixpoint word (w : string) : re :=
  match w with
  | String a EmptyString => folded a
  | String a w' => Seq (folded a) (word w')
  | EmptyString => LazyStar (fun _ => false)
  end.

Fixpoint altOf (l : list re) (last : re) : re :=
  match l with
  | [] => last
  | r :: l' => Alt r (altOf l' last)
  end.

End regexp.

(** ** Package [types]: the rows of the store and the structs loaded from them *)

Module types.

(** Modelled from the spec: package [types] is not among the sources.  The
    records have the fields that [db.go] reads and writes and that the
    spec's data model lists; a time stamp is a number.  A row is what a
    table holds; the struct of a Part or Binary is its row together with
    the associated rows that [Preload] or the grouper put into it. *)

Record Group : Type := mkGroup {
  Group_ID : Z;
  Group_Name : string;
  Group_Active : bool }.

Record Segment : Type := mkSegment {
  Segment_ID : Z;
  Segment_PartID : Z;
  Segment_Size : Z }.

Record PartRow : Type := mkPartRow {
  Part_ID : Z;
  Part_Subject : string;
  Part_Group : string;
  Part_From : string;
  Part_Posted : Z;
  Part_TotalSegments : Z;
  Part_BinaryID : option Z }.

Record Part : Type := mkPart {
  Part_row : PartRow;
  Part_Segments : list Segment }.

Record BinaryRow : Type := mkBinaryRow {
  Binary_ID : Z;
  Binary_Hash : string;
  Binary_Name : string;
  Binary_Posted : Z;
  Binary_From : string;
  Binary_Group : string;
  Binary_TotalParts : Z }.

Record Binary : Type := mkBinary {
  Binary_row : BinaryRow;
  Binary_Parts : list Part }.

Record Release : Type := mkRelease {
  Release_ID : Z;
  Release_Name : string;
  Release_OriginalName : string;
  Release_SearchName : string;
  Release_Posted : Z;
  Release_From : string;
  Release_Group : Group;
  Release_Size : Z;
  Release_NZB : string }.

(** The zero values of the structs. *)
Definition zeroGroup : Group := mkGroup 0 "" false.
Definition zeroBinaryRow : BinaryRow := mkBinaryRow 0 "" "" 0 "" "" 0.
Definition zeroRelease : Release := mkRelease 0 "" "" "" 0 "" zeroGroup 0 "".

(** Modelled from the spec: [Binary.Size] is not among the sources; the
    total size is the sum of the retrieved bytes of all Segments. *)
Definition Size (b : Binary) : Z :=
  fold_left Z.add
    (List.map Segment_Size (List.concat (List.map Part_Segments (Binary_Parts b)))) 0.

(** Modelled from the spec: [RegexpUtil.FindStringSubmatchMap] is not among
    the sources; it gives the text of the named capture groups of the
    match, and the empty map when the subject does not match. *)
Definition FindStringSubmatchMap (r : regexp.Regexp) (s : string)
  : gmap string string :=
  match regexp.FindStringSubmatch r s with
  | Some texts =>
      fold_left
        (fun m e => if String.eqb (fst e) "" then m else <[fst e := snd e]> m)
        (List.combine (regexp.SubexpNames r) texts) ∅
  | None => ∅
  end.

#[export] Instance Group_eq_dec : EqDecision Group.
Proof. solve_decision. Defined.
#[export] Instance Segment_eq_dec : EqDecision Segment.
Proof. solve_decision. Defined.
#[export] Instance PartRow_eq_dec : EqDecision PartRow.
Proof. solve_decision. Defined.
#[export] Instance BinaryRow_eq_dec : EqDecision BinaryRow.
Proof. solve_decision. Defined.

End types.

(** ** The relational store *)

Module store.
Import types.

(** The five tables; a row's [ID] is its primary key. *)
Record Store : Type := mkStore {
  groups : list Group;
  parts : list PartRow;
  segments : list Segment;
  binaries : list BinaryRow;
  releases : list Release }.

Inductive error : Type :=
| RecordNotFound                (* gorm.RecordNotFound *)
| Other (msg : string).         (* any other error *)

Definition isRecordNotFound (e : error) : bool :=
  match e with RecordNotFound => true | Other _ => false end.

(** What the functions print or log. *)
Inductive LogEntry : Type :=
| NoNameAndParts (subject : string)
| NoValidParts (subject parts : string)
| DuplicateBinary (name : string)
| UnknownGroup (group : string) (id : Z) (name : string).

(** The store operations that can fail, each with the line of [db.go] whose
    call it is.  [None] means that the operation goes through. *)
Record Faults : Type := mkFaults {
  findUngroupedParts_err : option error;          (* line 192 *)
  saveBinary_err : Binary -> option error;        (* line 269 *)
  readyQuery_err : option error;                  (* line 307 *)
  findRelease_err : string -> Z -> option error;  (* line 314 *)
  loadBinary_err : Z -> option error;             (* line 325 *)
  findGroup_err : string -> option error;         (* line 155 *)
  txSave_err : Release -> option error;           (* line 356 *)
  txDeleteParts_err : Z -> option error;          (* line 365 *)
  txDeleteSegments_err : list Z -> option error;  (* line 371 *)
  txDeleteBinary_err : Z -> option error }.       (* line 377 *)

Definition noFaults : Faults :=
  mkFaults None (fun _ => None) None (fun _ _ => None) (fun _ => None)
    (fun _ => None) (fun _ => None) (fun _ => None) (fun _ => None)
    (fun _ => None).

(** The key that an insert gives a new row: one more than the largest key
    of the table, and 1 in an empty table. *)
Definition nextID (ids : list Z) : Z := 1 + fold_right Z.max 0 ids.

Definition setPartBinaryID (id : option Z) (p : PartRow) : PartRow :=
  mkPartRow (Part_ID p) (Part_Subject p) (Part_Group p) (Part_From p)
    (Part_Posted p) (Part_TotalSegments p) id.

Definition setBinaryID (id : Z) (b : BinaryRow) : BinaryRow :=
  mkBinaryRow id (Binary_Hash b) (Binary_Name b) (Binary_Posted b)
    (Binary_From b) (Binary_Group b) (Binary_TotalParts b).

Definition setReleaseID (id : Z) (r : Release) : Release :=
  mkRelease id (Release_Name r) (Release_OriginalName r) (Release_SearchName r)
    (Release_Posted r) (Release_From r) (Release_Group r) (Release_Size r)
    (Release_NZB r).

Definition withParts (ps : list PartRow) (st : Store) : Store :=
  mkStore (groups st) ps (segments st) (binaries st) (releases st).
Definition withSegments (ss : list Segment) (st : Store) : Store :=
  mkStore (groups st) (parts st) ss (binaries st) (releases st).
Definition withBinaries (bs : list BinaryRow) (st : Store) : Store :=
  mkStore (groups st) (parts st) (segments st) bs (releases st).
Definition withReleases (rs : list Release) (st : Store) : Store :=
  mkStore (groups st) (parts st) (segments st) (binaries st) rs.

(** [UPDATE part SET ... WHERE id = ?]: the row with the key of [p] becomes [p]. *)
Definition updatePart (p : PartRow) (st : Store) : Store :=
  withParts
    (List.map (fun r => if Part_ID r =? Part_ID p then p else r) (parts st)) st.

(** [Save] of a Binary struct.  With a zero key the row is inserted and the
    struct gets the new key; otherwise the row with that key is updated.
    Then every Part of the struct gets the Binary's key as its foreign key
    and is saved (the Parts were loaded from the table, so each is an
    update by primary key). *)
Definition saveBinary (b : Binary) (st : Store) : Binary * Store :=
  let row := Binary_row b in
  let id :=
    if Binary_ID row =? 0 then nextID (List.map Binary_ID (binaries st))
    else Binary_ID row in
  let row' := setBinaryID id row in
  let rows' :=
    if Binary_ID row =? 0 then (binaries st ++ [row'])%list
    else List.map (fun r => if Binary_ID r =? id then row' else r) (binaries st) in
  let ps' :=
    List.map (fun p => mkPart (setPartBinaryID (Some id) (Part_row p)) (Part_Segments p))
      (Binary_Parts b) in
  (mkBinary row' ps',
   fold_left (fun st p => updatePart (Part_row p) st) ps' (withBinaries rows' st)).

(** [Where("binary_id is NULL").Find(&parts)]. *)
Definition ungroupedParts (st : Store) : list Part :=
  List.map (fun r => mkPart r [])
    (List.filter (fun r => match Part_BinaryID r with None => true | Some _ => false end)
       (parts st)).

(** The row of smallest key among [rs] ([First] orders by primary key). *)
Definition firstByID {A : Type} (key : A -> Z) (rs : list A) : option A :=
  fold_left
    (fun best r =>
       match best with
       | Some b => if key r <? key b then Some r else Some b
       | None => Some r
       end) rs None.

(** [Where("name = ? and posted = ?", name, posted).First(&dbrel)]. *)
Definition firstRelease (name : string) (posted : Z) (st : Store) : option Release :=
  firstByID Release_ID
    (List.filter
       (fun r => String.eqb (Release_Name r) name && (Release_Posted r =? posted))
       (releases st)).

(** [Where("name = ?", name).First(&g)]. *)
Definition firstGroup (name : string) (st : Store) : option Group :=
  firstByID Group_ID
    (List.filter (fun g => String.eqb (Group_Name g) name) (groups st)).

Definition hasBinaryID (id : Z) (p : PartRow) : bool :=
  match Part_BinaryID p with Some i => i =? id | None => false end.

Definition segmentsOf (st : Store) (partID : Z) : list Segment :=
  List.filter (fun s => Segment_PartID s =? partID) (segments st).

(** [Preload("Parts").Preload("Parts.Segments").First(dbbin, id)]. *)
Definition loadBinary (id : Z) (st : Store) : option Binary :=
  match firstByID Binary_ID (List.filter (fun b => Binary_ID b =? id) (binaries st)) with
  | Some row =>
      Some (mkBinary row
              (List.map (fun p => mkPart p (segmentsOf st (Part_ID p)))
                 (List.filter (hasBinaryID (Binary_ID row)) (parts st))))
  | None => None
  end.

Definition insertRelease (r : Release) (st : Store) : Store :=
  withReleases
    (releases st ++ [setReleaseID (nextID (List.map Release_ID (releases st))) r])%list
    st.

(** [Where("binary_id = ?", id).Delete(types.Part{})]. *)
Definition deleteParts (id : Z) (st : Store) : Store :=
  withParts (List.filter (fun p => negb (hasBinaryID id p)) (parts st)) st.

(** [Where("part_id in (?)", partids).Delete(types.Segment{})]. *)
Definition deleteSegments (partids : list Z) (st : Store) : Store :=
  withSegments
    (List.filter (fun s => negb (existsb (Z.eqb (Segment_PartID s)) partids))
       (segments st)) st.

(** [Delete(dbbin)]: the row with the key of [dbbin]. *)
Definition deleteBinary (id : Z) (st : Store) : Store :=
  withBinaries (List.filter (fun b => negb (Binary_ID b =? id)) (binaries st)) st.

End store.

(** ** Package [db] *)

Module db.
Import GoStrings types store.

(** *** State, errors and panics

    A function of [db.go] runs against the store and the log; it returns,
    returns an error, or panics. *)

Record World : Type := mkWorld { store_of : Store; logs : list LogEntry }.

Inductive outcome (A : Type) : Type :=
| Ok (a : A)
| Failed (e : error)
| Panicked.
Arguments Ok {A} a.
Arguments Failed {A} e.
Arguments Panicked {A}.

Definition M (A : Type) : Type := World -> outcome A * World.

Definition ret {A : Type} (a : A) : M A := fun w => (Ok a, w).

Definition bind {A B : Type} (m : M A) (f : A -> M B) : M B :=
  fun w =>
    match m w with
    | (Ok a, w') => f a w'
    | (Failed e, w') => (Failed e, w')
    | (Panicked, w') => (Panicked, w')
    end.

Notation "'let*' x ':=' m 'in' k" := (bind m (fun x => k))
  (at level 10, x name, m at level 100, k at level 200, only parsing).

Definition fail {A : Type} (e : error) : M A := fun w => (Failed e, w).
Definition panic {A : Type} : M A := fun w => (Panicked, w).
Definition log (e : LogEntry) : M unit :=
  fun w => (Ok tt, mkWorld (store_of w) (logs w ++ [e])%list).
Definition getStore : M Store := fun w => (Ok (store_of w), w).
Definition putStore (st : Store) : M unit := fun w => (Ok tt, mkWorld st (logs w)).

(** A store call that fails when the fault table says so. *)
Definition check (err : option error) : M unit :=
  match err with
  | Some e => fail e
  | None => ret tt
  end.

(** [for _, x := range l { body }], when the body can return from the
    function: the loop stops at the first error or panic. *)
Fixpoint forEach {A : Type} (body : A -> M unit) (l : list A) : M unit :=
  match l with
  | [] => ret tt
  | x :: l' => let* _ := body x in forEach body l'
  end.

(** *** The two patterns *)

Definition quote : ascii := "034"%char.

(** The file extensions of the pattern [r] of [MakeBinaries], in its order. *)
Definition extensions : regexp.re :=
  let w := regexp.word in
  let numbered (a : ascii) (hi : nat) :=
    regexp.Seq (regexp.folded a) (regexp.Repeat regexp.digit 1 hi) in
  regexp.altOf
    [ w "sample"; w "mkv"; w "Avi"; w "mp4"; w "vol"; w "ogm"; w "par"; w "rar";
      w "sfv"; w "nfo"; w "nzb"; w "srt"; w "ass"; w "mpg"; w "txt"; w "zip";
      w "wmv"; w "ssa"; numbered "r"%char 3%nat; w "7z"; w "tar"; w "mov"; w "divx";
      w "m2ts"; w "rmvb"; w "iso"; w "dmg"; w "sub"; w "idx"; w "rm"; w "ac3";
      numbered "t"%char 2%nat ]
    (numbered "u"%char 3%nat).

(** [\d{1,3}] then [sep] then [\d{1,3}]. *)
Definition counts (sep : regexp.re) : regexp.re :=
  regexp.Seq (regexp.Repeat regexp.digit 1 3)
    (regexp.Seq sep (regexp.Repeat regexp.digit 1 3)).

(** The pattern [r] of [MakeBinaries], its escaped double quote written
    [DQ] here:
    [(?i).*?(?P<parts>\d{1,3}\/\d{1,3}).*?DQ(?P<name>.*?)\.(sample|...|u\d{1,3})]. *)
Definition rc : regexp.Regexp :=
  {| regexp.tree :=
       regexp.seqOf
         [ regexp.LazyStar regexp.any;
           regexp.Group 1 (counts (regexp.exactly "/"%char));
           regexp.LazyStar regexp.any;
           regexp.exactly quote;
           regexp.Group 2 (regexp.LazyStar regexp.any);
           regexp.exactly "."%char ]
         (regexp.Group 3 extensions);
     regexp.SubexpNames := [""; "parts"; "name"; ""] |}.

(** [PartRegex]:
    [(?i)[\[\( ]((\d{1,3}\/\d{1,3})|(\d{1,3} of \d{1,3})|(\d{1,3}-\d{1,3})|(\d{1,3}~\d{1,3}))[\)\] ]]. *)
Definition PartRegex : regexp.Regexp :=
  {| regexp.tree :=
       regexp.seqOf
         [ regexp.Byte (regexp.oneOf "[( ");
           regexp.Group 1
             (regexp.altOf
                [ regexp.Group 2 (counts (regexp.exactly "/"%char));
                  regexp.Group 3 (counts (regexp.word " of "));
                  regexp.Group 4 (counts (regexp.exactly "-"%char)) ]
                (regexp.Group 5 (counts (regexp.exactly "~"%char)))) ]
         (regexp.Byte (regexp.oneOf ")] "));
     regexp.SubexpNames := [""; ""; ""; ""; ""; ""] |}.

(** *** The grouper *)

(** [m[k]] of a Go map: the zero value when the key is missing. *)
Definition get (m : gmap string string) (k : string) : string :=
  default "" (m !! k).

Definition hasNameAndParts (m : gmap string string) : bool :=
  let nameok := bool_decide (is_Some (m !! "name")) in
  let partok := bool_decide (is_Some (m !! "parts")) in
  nameok && partok.

Definition makeBinaryHash (name group from totalParts : string) : string :=
  fmt.Sprintf_x (xxhash.Sum64 (name +:+ group +:+ from +:+ totalParts)).

(** Lines 237 to 245, on the value of [m["parts"]]. *)
Definition normalizeParts (parts : string) : string :=
  if Index parts "/" =? -1 then
    let parts := Replace parts "-" "/" in
    let parts := Replace parts "~" "/" in
    let parts := Replace parts " of " "/" in
    let parts := Replace parts "[" "" in
    let parts := Replace parts "]" "" in
    let parts := Replace parts "(" "" in
    let parts := Replace parts ")" "" in
    parts
  else parts.

(** Lines 201 to 229: the captures of the subject, with the name and the
    part count filled in where they are missing.  The values of a Go map are
    visited in an unspecified order; here it is the order of [map_to_list]. *)
Definition subjectFields (subject : string) : M (gmap string string) :=
  let m := FindStringSubmatchMap rc subject in
  let m := if (0 <? size m)%nat then TrimSpace <$> m else m in
  let m :=
    match m !! "reqid" with
    | Some reqid =>
        match m !! "name" with
        | None => <["name" := reqid]> m
        | Some _ => m
        end
    | None => m
    end in
  let m :=
    match m !! "name" with
    | None => <["name" := Join (List.map snd (map_to_list m)) " "]> m
    | Some _ => m
    end in
  match m !! "parts" with
  | None =>
      match regexp.FindStringSubmatch PartRegex subject with
      | Some partmatch =>
          match partmatch !! 1%nat with
          | Some text => ret (<["parts" := text]> m)
          | None => panic
          end
      | None => ret m
      end
  | Some _ => ret m
  end.

Section Run.

Variable flt : Faults.

(** [nzb.WriteNZB], the manifest builder. *)
Variable WriteNZB : Binary -> error + string.

(** [d.DB.Save(binaries[binhash])]: the struct behind the pointer gets its
    key and its Parts their foreign key. *)
Definition saveAt (binhash : string) (binaries : gmap string Binary)
  : M (gmap string Binary) :=
  match binaries !! binhash with
  | Some bin =>
      let* _ := check (saveBinary_err flt bin) in
      let* st := getStore in
      let (bin', st') := saveBinary bin st in
      let* _ := putStore st' in
      ret (<[binhash := bin']> binaries)
  | None => panic
  end.

(** The body of the loop of [MakeBinaries] for the Part [p]; [continue] is
    the return of the unchanged map. *)
Definition groupPart (binaries : gmap string Binary) (p : Part)
  : M (gmap string Binary) :=
  let row := Part_row p in
  let* m := subjectFields (Part_Subject row) in
  if negb (hasNameAndParts m) then
    let* _ := log (NoNameAndParts (Part_Subject row)) in
    ret binaries
  else
    let m :=
      if Index (get m "parts") "/" =? -1
      then <["parts" := normalizeParts (get m "parts")]> m
      else m in
    if Index (get m "parts") "/" =? -1 then
      let* _ := log (NoValidParts (Part_Subject row) (get m "parts")) in
      ret binaries
    else
      let partcounts := SplitN2 (get m "parts") "/" in
      match partcounts !! 1%nat with
      | None => panic
      | Some total =>
          let binhash :=
            makeBinaryHash (get m "name") (Part_Group row) (Part_From row) total in
          let binaries :=
            match binaries !! binhash with
            | Some bin =>
                <[binhash := mkBinary (Binary_row bin) (Binary_Parts bin ++ [p])%list]>
                  binaries
            | None =>
                let totalparts := default 0 (Atoi total) in
                <[binhash :=
                    mkBinary
                      (mkBinaryRow 0 binhash (get m "name") (Part_Posted row)
                         (Part_From row) (Part_Group row) totalparts)
                      [p]]> binaries
            end in
          saveAt binhash binaries
      end.

(** The loop of [MakeBinaries], with the map [binaries] it builds. *)
Fixpoint groupParts (binaries : gmap string Binary) (ps : list Part)
  : M (gmap string Binary) :=
  match ps with
  | [] => ret binaries
  | p :: ps' => let* binaries := groupPart binaries p in groupParts binaries ps'
  end.

Definition MakeBinaries : M unit :=
  let* _ := check (findUngroupedParts_err flt) in
  let* st := getStore in
  let* _ := groupParts ∅ (ungroupedParts st) in
  ret tt.

(** *** Name cleaning *)

(** [removeChars]: the last four are the two-byte UTF-8 encodings of
    U+00A7, U+00A8, U+00A9 and U+00D6. *)
Definition removeChars : list string :=
  ["#"; "@"; "$"; "%"; "^"; bytes [194; 167]%nat; bytes [194; 168]%nat;
   bytes [194; 169]%nat; bytes [195; 150]%nat].

Definition spaceChars : list string := ["_"; "."; "-"].

(** The two [for ... range] loops are folds over the two tables, with the
    variable [name] as the accumulator. *)
Definition cleanReleaseName (name : string) : string :=
  let name := fold_left (fun name c => Replace name c "") removeChars name in
  let name := fold_left (fun name c => Replace name c " ") spaceChars name in
  name.

(** *** The completeness query of [MakeReleases]

    A value of SQL is a number or NULL ([None]); SQLite divides integers
    with truncation and gives NULL for a division by zero, and a HAVING
    clause keeps a group only when its condition is true (not NULL). *)

Definition sqlDiv (a b : Z) : option Z :=
  if b =? 0 then None else Some (Z.quot a b).

(** A row of the sub-select: one Part that has Segments, with their number. *)
Record PartCount : Type := mkPartCount {
  pc_id : Z;
  pc_binary_id : option Z;
  pc_total_segments : Z;
  pc_available_segments : Z }.

(** [SELECT part.id, part.binary_id, part.total_segments, count( * ) FROM part
    INNER JOIN segment ON part.id = segment.part_id GROUP BY part.id]: the
    key [part.id] is unique, so a group is the Segments of one Part, and a
    Part without Segments has no group. *)
Definition partCounts (st : Store) : list PartCount :=
  List.concat
    (List.map
       (fun p =>
          match segmentsOf st (Part_ID p) with
          | [] => []
          | ss =>
              [mkPartCount (Part_ID p) (Part_BinaryID p) (Part_TotalSegments p)
                 (Z.of_nat (List.length ss))]
          end)
       (parts st)).

(** The rows that [ON binary.id = part.binary_id] joins to the Binary [b]. *)
Definition joinedParts (st : Store) (b : BinaryRow) : list PartCount :=
  List.filter
    (fun r => match pc_binary_id r with Some i => i =? Binary_ID b | None => false end)
    (partCounts st).

Definition sumZ (l : list Z) : Z := fold_right Z.add 0 l.

(** [HAVING count( * ) >= binary.total_parts AND
    (sum(part.available_segments) / sum(part.total_segments)) * 100 >= ?]
    with the bound value [threshold]. *)
Definition having (threshold : Z) (st : Store) (b : BinaryRow) : bool :=
  let rows := joinedParts st b in
  (Binary_TotalParts b <=? Z.of_nat (List.length rows))
  && match sqlDiv (sumZ (List.map pc_available_segments rows))
             (sumZ (List.map pc_total_segments rows)) with
     | Some q => threshold <=? q * 100
     | None => false
     end.

(** [Scan(&binaries)]: the selected columns are [id], [name], [posted],
    [total_parts] and [group]; the other fields keep their zero value. *)
Definition scanBinary (b : BinaryRow) : Binary :=
  mkBinary
    (mkBinaryRow (Binary_ID b) "" (Binary_Name b) (Binary_Posted b) ""
       (Binary_Group b) (Binary_TotalParts b))
    [].

(** [ORDER BY binary.posted DESC], as a stable insertion sort. *)
Fixpoint insertByPosted (b : Binary) (l : list Binary) : list Binary :=
  match l with
  | [] => [b]
  | c :: l' =>
      if Binary_Posted (Binary_row c) <=? Binary_Posted (Binary_row b)
      then b :: l
      else c :: insertByPosted b l'
  end.

Definition sortByPosted (l : list Binary) : list Binary :=
  fold_right insertByPosted [] l.

(** The query [q] with the bound value [threshold]: the groups of the outer
    join are the Binaries that have a joined row. *)
Definition readyBinaries (threshold : Z) (st : Store) : list Binary :=
  sortByPosted
    (List.map scanBinary
       (List.filter
          (fun b =>
             match joinedParts st b with
             | [] => false
             | _ => having threshold st b
             end)
          (binaries st))).

(** *** The release promoter *)

(** A transaction: the store as it was at [Begin] and as the statements of
    the transaction have changed it. *)
Record Tx : Type := mkTx { tx_begin : Store; tx_now : Store }.

Definition Begin : M Tx :=
  fun w => (Ok (mkTx (store_of w) (store_of w)), w).
Definition Rollback (tx : Tx) : M unit := putStore (tx_begin tx).
Definition Commit (tx : Tx) : M unit := putStore (tx_now tx).
Definition txExec (f : Store -> Store) (tx : Tx) : Tx :=
  mkTx (tx_begin tx) (f (tx_now tx)).

(** [err = ...; if err != nil { tx.Rollback(); return err }]. *)
Definition orRollback (tx : Tx) (err : option error) : M unit :=
  match err with
  | Some e => let* _ := Rollback tx in fail e
  | None => ret tt
  end.

(** [FindGroupByName]. *)
Definition FindGroupByName (name : string) : M (error + Group) :=
  fun w =>
    match findGroup_err flt name with
    | Some e => (Ok (inl e), w)
    | None =>
        match firstGroup name (store_of w) with
        | Some g => (Ok (inr g), w)
        | None => (Ok (inl RecordNotFound), w)
        end
    end.

(** Lines 355 to 382: the transaction of one candidate.  The Group inside
    the Release is the row that was just read, so saving it along with the
    Release changes nothing. *)
Definition releaseTx (newrel : Release) (dbbin : Binary) : M unit :=
  let* tx := Begin in
  let* _ := orRollback tx (txSave_err flt newrel) in
  let tx := txExec (insertRelease newrel) tx in
  let partids := List.map (fun p => Part_ID (Part_row p)) (Binary_Parts dbbin) in
  let id := Binary_ID (Binary_row dbbin) in
  let* _ := orRollback tx (txDeleteParts_err flt id) in
  let tx := txExec (deleteParts id) tx in
  let* _ := orRollback tx (txDeleteSegments_err flt partids) in
  let tx := txExec (deleteSegments partids) tx in
  let* _ := orRollback tx (txDeleteBinary_err flt id) in
  let tx := txExec (deleteBinary id) tx in
  Commit tx.

(** The Release of lines 340 to 349; [grp] is [&g]. *)
Definition newRelease (b : Binary) (g : Group) (dbbin : Binary) (nzbstr : string)
  : Release :=
  let row := Binary_row b in
  mkRelease 0 (Binary_Name row) (Binary_Name row) (cleanReleaseName (Binary_Name row))
    (Binary_Posted row) (Binary_From row) g (Size dbbin) nzbstr.

(** The body of the loop of [MakeReleases] for the candidate [b]: lines 312
    to 382.  [continue] is the return of [tt]. *)
Definition promote (b : Binary) : M unit :=
  let row := Binary_row b in
  let* st := getStore in
  let (dbrel, err) :=
    match findRelease_err flt (Binary_Name row) (Binary_Posted row) with
    | Some e => (zeroRelease, Some e)
    | None =>
        match firstRelease (Binary_Name row) (Binary_Posted row) st with
        | Some r => (r, None)
        | None => (zeroRelease, Some RecordNotFound)
        end
    end in
  match err with
  | Some (Other msg) => fail (Other msg)
  | _ =>
      if negb (Release_ID dbrel =? 0) then
        log (DuplicateBinary (Binary_Name row))
      else
        let* _ := check (loadBinary_err flt (Binary_ID row)) in
        match loadBinary (Binary_ID row) st with
        | None => fail RecordNotFound
        | Some dbbin =>
            let* found := FindGroupByName (Binary_Group row) in
            let* grp :=
              match found with
              | inl _ =>
                  let* _ :=
                    log (UnknownGroup (Binary_Group row) (Binary_ID row)
                           (Binary_Name row)) in
                  ret None
              | inr g => ret (Some g)
              end in
            match WriteNZB dbbin with
            | inl e => fail e
            | inr nzbstr =>
                match grp with
                | None => panic
                | Some g => releaseTx (newRelease b g dbbin nzbstr) dbbin
                end
            end
        end
  end.

Definition MakeReleases : M unit :=
  let* _ := check (readyQuery_err flt) in
  let* st := getStore in
  forEach promote (readyBinaries 100 st).

End Run.

End db.

(** * The spec's wording of what the functions compute *)

Import GoStrings types store db.

Module spec.

(** A character of a text is the byte sequence of its UTF-8 encoding: a
    first byte that is not a continuation byte and tells the length, then
    continuation bytes. *)
Definition isContinuation (a : ascii) : bool :=
  let n := nat_of_ascii a in (128 <=? n)%nat && (n <? 192)%nat.

Definition encodedLength (a : ascii) : nat :=
  let n := nat_of_ascii a in
  if (n <? 128)%nat then 1%nat
  else if (n <? 224)%nat then 2%nat
  else if (n <? 240)%nat then 3%nat
  else 4%nat.

Fixpoint continuations (s : string) : bool :=
  match s with
  | EmptyString => true
  | String a s' => isContinuation a && continuations s'
  end.

Definition isCharacter (c : string) : bool :=
  match c with
  | EmptyString => false
  | String a cs =>
      negb (isContinuation a)
      && (S (String.length cs) =? encodedLength a)%nat
      && continuations cs
  end.

(** The text that a sequence of characters spells. *)
Definition text (chars : list string) : string := fold_right String.append "" chars.

(** Name cleaning as the spec words it: the characters of the deny-list are
    removed, then every separator becomes a space. *)
Definition cleaned (chars : list string) : list string :=
  List.map (fun c => if bool_decide (c ∈ spaceChars) then " " else c)
    (List.filter (fun c => negb (bool_decide (c ∈ removeChars))) chars).

(** A sequence of characters. *)
Definition characters (chars : list string) : Prop :=
  Forall (fun c => isCharacter c = true) chars.

Fixpoint mapBytes (f : ascii -> ascii) (s : string) : string :=
  match s with
  | EmptyString => EmptyString
  | String a s' => String (f a) (mapBytes f s')
  end.

Fixpoint filterBytes (f : ascii -> bool) (s : string) : string :=
  match s with
  | EmptyString => EmptyString
  | String a s' => if f a then String a (filterBytes f s') else filterBytes f s'
  end.

(** Part-count normalization as the spec words it, for a string without a
    slash: hyphen, tilde and the literal [ of ] become a slash, then the
    brackets and parentheses are stripped. *)
Definition normalized (s : string) : string :=
  filterBytes (fun a => negb (regexp.oneOf "[]()" a))
    (Replace (mapBytes (fun a => if regexp.oneOf "-~" a then "/"%char else a) s)
       " of " "/").

(** The grouper skips the Part [p]: it prints a message, leaves the map and
    the store as they are and goes on with the next Part. *)
Definition skips (flt : Faults) (binaries : gmap string Binary) (p : Part) (w : World) : Prop :=
  exists e, groupPart flt binaries p w
            = (Ok binaries, mkWorld (store_of w) (logs w ++ [e])%list).

(** The Segments of a Part that are there. *)
Definition available (st : Store) (p : PartRow) : Z :=
  Z.of_nat (List.length (segmentsOf st (Part_ID p))).

(** The Parts of a Binary, and those that count: a Part is counted through
    its Segments, so one without any Segment does not count. *)
Definition partsOf (st : Store) (b : BinaryRow) : list PartRow :=
  List.filter (hasBinaryID (Binary_ID b)) (parts st).

Definition countedParts (st : Store) (b : BinaryRow) : list PartRow :=
  List.filter (fun p => 0 <? available st p) (partsOf st b).

(** Completeness as the spec words it: at least [total_parts] Parts,
    counted through their Segments, and, summed across the Parts of the
    Binary, [available_segments / total_segments * 100 >= threshold], the
    percentage being a rational number. *)
Definition complete (threshold : Z) (st : Store) (b : BinaryRow) : Prop :=
  let ps := partsOf st b in
  Binary_TotalParts b <= Z.of_nat (List.length (countedParts st b))
  /\ (inject_Z threshold
      <= inject_Z (sumZ (List.map (available st) ps))
         / inject_Z (sumZ (List.map Part_TotalSegments ps)) * 100)%Q.

(** Completeness as the query has it: the same, but summed across the
    Parts that have a Segment, the only ones that the inner join keeps. *)
Definition joinedComplete (threshold : Z) (st : Store) (b : BinaryRow) : Prop :=
  let ps := countedParts st b in
  Binary_TotalParts b <= Z.of_nat (List.length ps)
  /\ (inject_Z threshold
      <= inject_Z (sumZ (List.map (available st) ps))
         / inject_Z (sumZ (List.map Part_TotalSegments ps)) * 100)%Q.

Definition emptyWorld : World := mkWorld (mkStore [] [] [] [] []) [].

(** What the subject parser makes of a subject: the name and the total of
    the part count, or nothing when the Part is skipped. *)
Definition parsedSubject (subject : string) : option (string * string) :=
  match fst (subjectFields subject emptyWorld) with
  | Ok m =>
      if hasNameAndParts m then
        match SplitN2 (normalizeParts (get m "parts")) "/" with
        | [_; total] => Some (get m "name", total)
        | _ => None
        end
      else None
  | _ => None
  end.

(** The hash that keys the Binary of an accepted Part. *)
Definition hashOf (p : PartRow) : option string :=
  match parsedSubject (Part_Subject p) with
  | Some (name, total) => Some (makeBinaryHash name (Part_Group p) (Part_From p) total)
  | None => None
  end.

(** The Binary that the first Part of a hash creates. *)
Definition created (h : string) (first : PartRow) : BinaryRow :=
  match parsedSubject (Part_Subject first) with
  | Some (name, total) =>
      mkBinaryRow 0 h name (Part_Posted first) (Part_From first) (Part_Group first)
        (default 0 (Atoi total))
  | None => zeroBinaryRow
  end.

(** One turn of the loop of the grouper without store faults, as a function
    of the map and the store. *)
Definition groupStep (acc : gmap string Binary * Store) (p : Part)
  : gmap string Binary * Store :=
  let (binaries, st) := acc in
  match hashOf (Part_row p) with
  | Some h =>
      let bin :=
        match binaries !! h with
        | Some bin => mkBinary (Binary_row bin) (Binary_Parts bin ++ [p])%list
        | None => mkBinary (created h (Part_row p)) [p]
        end in
      let (bin', st') := saveBinary bin st in
      (<[h := bin']> binaries, st')
  | None => acc
  end.

End spec.

(** * The turn of a candidate of the promoter, case by case *)

Module promotion.

Section Turn.

Variable flt : Faults.
Variable WriteNZB : Binary -> error + string.

(** The store that the committed transaction of a candidate leaves. *)
Definition committed (newrel : Release) (dbbin : Binary) (st : Store) : Store :=
  let partids := List.map (fun p => Part_ID (Part_row p)) (Binary_Parts dbbin) in
  let id := Binary_ID (Binary_row dbbin) in
  deleteBinary id (deleteSegments partids (deleteParts id (insertRelease newrel st))).

Definition txFails (newrel : Release) (dbbin : Binary) : Prop :=
  let partids := List.map (fun p => Part_ID (Part_row p)) (Binary_Parts dbbin) in
  let id := Binary_ID (Binary_row dbbin) in
  txSave_err flt newrel <> None
  \/ txDeleteParts_err flt id <> None
  \/ txDeleteSegments_err flt partids <> None
  \/ txDeleteBinary_err flt id <> None.

(** What [First(&dbrel)] leaves in [dbrel] at line 314. *)
Definition dbrelOf (b : Binary) (st : Store) : Release :=
  match findRelease_err flt (Binary_Name (Binary_row b)) (Binary_Posted (Binary_row b)) with
  | Some _ => zeroRelease
  | None =>
      default zeroRelease
        (firstRelease (Binary_Name (Binary_row b)) (Binary_Posted (Binary_row b)) st)
  end.

(** The group that line 332 finds, if it finds one. *)
Definition groupOf (b : Binary) (st : Store) : option Group :=
  match findGroup_err flt (Binary_Group (Binary_row b)) with
  | Some _ => None
  | None => firstGroup (Binary_Group (Binary_row b)) st
  end.

Definition addLog (e : LogEntry) (w : World) : World :=
  mkWorld (store_of w) (logs w ++ [e])%list.

Definition unknownGroup (b : Binary) : LogEntry :=
  UnknownGroup (Binary_Group (Binary_row b)) (Binary_ID (Binary_row b))
    (Binary_Name (Binary_row b)).

(** The ways in which the turn of a candidate ends. *)
Inductive turn (b : Binary) (w : World) : outcome unit * World -> Prop :=
| turn_lookup_error (msg : string) :
    findRelease_err flt (Binary_Name (Binary_row b)) (Binary_Posted (Binary_row b))
    = Some (Other msg) ->
    turn b w (Failed (Other msg), w)
| turn_duplicate :
    Release_ID (dbrelOf b (store_of w)) <> 0 ->
    turn b w (Ok tt, addLog (DuplicateBinary (Binary_Name (Binary_row b))) w)
| turn_load_error (e : error) :
    Release_ID (dbrelOf b (store_of w)) = 0 ->
    loadBinary_err flt (Binary_ID (Binary_row b)) = Some e
    \/ (loadBinary (Binary_ID (Binary_row b)) (store_of w) = None /\ e = RecordNotFound) ->
    turn b w (Failed e, w)
| turn_manifest_error (dbbin : Binary) (e : error) (w' : World) :
    Release_ID (dbrelOf b (store_of w)) = 0 ->
    loadBinary (Binary_ID (Binary_row b)) (store_of w) = Some dbbin ->
    WriteNZB dbbin = inl e ->
    store_of w' = store_of w ->
    turn b w (Failed e, w')
| turn_no_group (dbbin : Binary) (nzbstr : string) :
    Release_ID (dbrelOf b (store_of w)) = 0 ->
    loadBinary_err flt (Binary_ID (Binary_row b)) = None ->
    loadBinary (Binary_ID (Binary_row b)) (store_of w) = Some dbbin ->
    groupOf b (store_of w) = None ->
    WriteNZB dbbin = inr nzbstr ->
    turn b w (Panicked, addLog (unknownGroup b) w)
| turn_transaction (dbbin : Binary) (g : Group) (nzbstr : string) :
    Release_ID (dbrelOf b (store_of w)) = 0 ->
    loadBinary_err flt (Binary_ID (Binary_row b)) = None ->
    loadBinary (Binary_ID (Binary_row b)) (store_of w) = Some dbbin ->
    groupOf b (store_of w) = Some g ->
    WriteNZB dbbin = inr nzbstr ->
    turn b w (releaseTx flt (newRelease b g dbbin nzbstr) dbbin w).

(** The turn of a candidate when neither the load nor the transaction
    fails, on the store alone. *)
Definition promoteStore (b : Binary) (st : Store) : outcome unit * Store :=
  if negb (Release_ID (dbrelOf b st) =? 0) then (Ok tt, st)
  else
    match loadBinary (Binary_ID (Binary_row b)) st with
    | None => (Failed RecordNotFound, st)
    | Some dbbin =>
        match WriteNZB dbbin with
        | inl e => (Failed e, st)
        | inr nzbstr =>
            match groupOf b st with
            | None => (Panicked, st)
            | Some g => (Ok tt, committed (newRelease b g dbbin nzbstr) dbbin st)
            end
        end
    end.

(** The loop of [MakeReleases] over such turns, on the store alone. *)
Fixpoint promoteAll (cs : list Binary) (st : Store) : outcome unit * Store :=
  match cs with
  | [] => (Ok tt, st)
  | c :: cs' =>
      match promoteStore c st with
      | (Ok _, st') => promoteAll cs' st'
      | stopped => stopped
      end
  end.

End Turn.

(** The keys of a store are primary keys: distinct in the Part and Binary
    tables, and not zero in the Release table. *)
Definition wellKeyed (st : Store) : Prop :=
  List.NoDup (List.map Part_ID (parts st))
  /\ List.NoDup (List.map Binary_ID (binaries st))
  /\ (forall r, In r (releases st) -> Release_ID r <> 0).

(** The Binary of the candidate [c] is in the store. *)
Definition stillThere (st : Store) (c : Binary) : bool :=
  existsb (fun b => Binary_ID b =? Binary_ID (Binary_row c)) (binaries st).

(** The key of a candidate. *)
Definition keyOf (c : Binary) : Z := Binary_ID (Binary_row c).

(** The condition of the query on a Binary. *)
Definition ready (st : Store) (b : BinaryRow) : bool :=
  match joinedParts st b with
  | [] => false
  | _ => having 100 st b
  end.

(** The order of the query: later posted first. *)
Definition byPosted (a b : Binary) : Prop :=
  Binary_Posted (Binary_row b) <= Binary_Posted (Binary_row a).

(** The Releases of a name and date. *)
Definition releasesOf (name : string) (posted : Z) (st : Store) : list Release :=
  List.filter
    (fun r => String.eqb (Release_Name r) name && (Release_Posted r =? posted))
    (releases st).

End promotion.

(** * The loop of the grouper, turn by turn *)

Module grouping.
Import spec.

(** The rows of the Part table after the rows [qs] were written by key. *)
Definition writePart (q : PartRow) (rows : list PartRow) : list PartRow :=
  List.map (fun r => if Part_ID r =? Part_ID q then q else r) rows.

Definition lastWrite (qs : list PartRow) (r : PartRow) : PartRow :=
  fold_left (fun acc q => if Part_ID acc =? Part_ID q then q else acc) qs r.

(** The Parts of a hash. *)
Definition hashIs (h : string) (r : PartRow) : bool :=
  bool_decide (hashOf r = Some h).

Definition inParts (D : list PartRow) (r : PartRow) : bool :=
  existsb (fun d => Part_ID d =? Part_ID r) D.

(** The row of a Part once the Parts [D] have had their turn. *)
Definition assigned (bins : gmap string Binary) (D : list PartRow) (r : PartRow)
  : PartRow :=
  if inParts D r then
    match hashOf r with
    | Some h =>
        match bins !! h with
        | Some bin => setPartBinaryID (Some (Binary_ID (Binary_row bin))) r
        | None => r
        end
    | None => r
    end
  else r.

(** The Binary in the map for the hash [h], with key [id], once the Parts
    [rows] of that hash have had their turn. *)
Definition entry (h : string) (id : Z) (rows : list PartRow) : Binary :=
  mkBinary (setBinaryID id (created h (List.hd (mkPartRow 0 "" "" "" 0 0 None) rows)))
    (List.map (fun r => mkPart (setPartBinaryID (Some id) r) []) rows).

Record Inv (st : Store) (D : list PartRow) (bins : gmap string Binary)
  (cur : Store) (news : list BinaryRow) : Prop := {
  inv_parts : parts cur = List.map (assigned bins D) (parts st);
  inv_binaries : binaries cur = (binaries st ++ news)%list;
  inv_nodup : List.NoDup (List.map Binary_Hash news);
  inv_news : forall b, In b news ->
                       exists bin, bins !! Binary_Hash b = Some bin /\ Binary_row bin = b;
  inv_some : forall h bin,
      bins !! h = Some bin ->
      List.filter (hashIs h) D <> []
      /\ bin = entry h (Binary_ID (Binary_row bin)) (List.filter (hashIs h) D)
      /\ Binary_ID (Binary_row bin) <> 0
      /\ In (Binary_row bin) news
      /\ (forall r, In r (binaries cur) ->
                    Binary_ID r = Binary_ID (Binary_row bin) -> r = Binary_row bin);
  inv_none : forall h, bins !! h = None -> List.filter (hashIs h) D = [] }.

End grouping.

(** * The runs of the promoter *)

Module batch.
Import promotion.

Section Batch.

Variable flt : Faults.

(** The Release row that the committed transaction of the candidate [c]
    adds to the store [st]. *)
Definition released (c : Binary) (g : Group) (dbbin : Binary) (nzbstr : string) (st : Store)
  : Release :=
  setReleaseID (nextID (List.map Release_ID (releases st))) (newRelease c g dbbin nzbstr).

(** The stores that the loop of [MakeReleases] can go through on the
    candidates [cs]: it stops, it goes on without a change, or it commits
    the transaction of a candidate that has no Release yet, whose Binary is
    loaded and whose Group is found.  The last index lists the Releases
    that the run adds. *)
Inductive promoted : list Binary -> Store -> Store -> list Release -> Prop :=
| promoted_stop (cs : list Binary) (st : Store) : promoted cs st st []
| promoted_skip (c : Binary) (cs : list Binary) (st st1 : Store) (news : list Release) :
    promoted cs st st1 news -> promoted (c :: cs) st st1 news
| promoted_commit (c : Binary) (cs : list Binary) (st st1 : Store) (news : list Release)
    (dbbin : Binary) (g : Group) (nzbstr : string) :
    Release_ID (dbrelOf flt c st) = 0 ->
    loadBinary (Binary_ID (Binary_row c)) st = Some dbbin ->
    groupOf flt c st = Some g ->
    promoted cs (committed (newRelease c g dbbin nzbstr) dbbin st) st1 news ->
    promoted (c :: cs) st st1 (released c g dbbin nzbstr st :: news).

End Batch.

End batch.

(** ** [encoding/base64]: [URLEncoding.EncodeToString] *)

Module base64.

(** The alphabet [encodeURL] and the padding character [StdPadding]. *)
Definition encodeURL : string :=
  "ABCDEFGHIJKLMNOPQRSTUVWXYZabcdefghijklmnopqrstuvwxyz0123456789-_".

Definition StdPadding : ascii := "="%char.

(** [enc.encode[i]]. *)
Definition encode (i : Z) : ascii :=
  List.nth (Z.to_nat i) (list_ascii_of_string encodeURL) StdPadding.

(** [uint(b)] of a byte. *)
Definition uint (b : ascii) : Z := Z.of_nat (nat_of_ascii b).

(** [Encode]: three bytes give four characters; a last block of one or
    two bytes is padded to four characters. *)
Fixpoint EncodeToString (src : list ascii) : string :=
  match src with
  | [] => ""
  | [b0] =>
      let val := Z.shiftl (uint b0) 16 in
      String (encode (Z.land (Z.shiftr val 18) 63))
        (String (encode (Z.land (Z.shiftr val 12) 63))
           (String StdPadding (String StdPadding "")))
  | [b0; b1] =>
      let val := Z.lor (Z.shiftl (uint b0) 16) (Z.shiftl (uint b1) 8) in
      String (encode (Z.land (Z.shiftr val 18) 63))
        (String (encode (Z.land (Z.shiftr val 12) 63))
           (String (encode (Z.land (Z.shiftr val 6) 63))
              (String StdPadding "")))
  | b0 :: b1 :: b2 :: rest =>
      let val := Z.lor (Z.lor (Z.shiftl (uint b0) 16) (Z.shiftl (uint b1) 8)) (uint b2) in
      String (encode (Z.land (Z.shiftr val 18) 63))
        (String (encode (Z.land (Z.shiftr val 12) 63))
           (String (encode (Z.land (Z.shiftr val 6) 63))
              (String (encode (Z.land val 63)) (EncodeToString rest))))
  end.

End base64.

(** ** Opening the database: lines 23 to 130 of [db.go] *)

Module opening.

(** What the functions ask of the outside, in the order of the calls: of
    gorm and the driver, of the logger and of standard output. *)
Inductive call : Type :=
| Infof (message : string)                 (* logrus.Infof *)
| Println (line : string)                  (* fmt.Println *)
| GormOpen (dbType dbArgs : string)        (* gorm.Open *)
| SingularTable (enable : bool)
| SetLogger
| LogMode (enable : bool)
| Ping                                     (* d.DB().Ping() *)
| TxBegin
| AutoMigrate (tables : list string)
| TxRollback
| TxCommit
| Exec (sql : string).

(** The outside: the bytes that the random source gives, and the calls
    that fail, each with its error. *)
Record Env : Type := mkEnv {
  entropy : list ascii;
  open_err : string -> string -> option error;
  ping_err : option error;
  migrate_err : option error;
  exec_err : string -> option error }.

(** [err.Error()]. *)
Definition Error (e : error) : string :=
  match e with
  | RecordNotFound => "record not found"
  | Other msg => msg
  end.

(** [gorm.DB] as [openDB] sets it up, and [Handle] (its mutex left out). *)
Record DB : Type := mkDB {
  db_type : string;
  db_args : string;
  db_singular : bool;
  db_logMode : bool }.

Record Handle : Type := mkHandle { Handle_DB : DB; writeUpdates : bool }.

(** A function of these lines runs against the trace of the calls made so
    far; it returns, returns an error, or panics. *)
Definition T (A : Type) : Type := list call -> outcome A * list call.

Definition unit_ {A : Type} (a : A) : T A := fun t => (Ok a, t).

Definition then_ {A B : Type} (m : T A) (f : A -> T B) : T B :=
  fun t =>
    match m t with
    | (Ok a, t') => f a t'
    | (Failed e, t') => (Failed e, t')
    | (Panicked, t') => (Panicked, t')
    end.

Notation "'let+' x ':=' m 'in' k" := (then_ m (fun x => k))
  (at level 10, x name, m at level 100, k at level 200, only parsing).

Definition does (c : call) : T unit := fun t => (Ok tt, (t ++ [c])%list).
Definition returns {A : Type} (e : error) : T A := fun t => (Failed e, t).
Definition panics {A : Type} : T A := fun t => (Panicked, t).

Section Outside.

Variable env : Env.

Definition openDB (dbType dbArgs : string) (verbose : bool) : T DB :=
  let+ _ := does (Infof ("Opening database " +:+ dbType +:+ ":" +:+ dbArgs)) in
  let+ _ := does (GormOpen dbType dbArgs) in
  match open_err env dbType dbArgs with
  | Some _ => panics
  | None =>
      let+ _ := does (SingularTable true) in
      let+ _ := does SetLogger in
      let+ _ := does (LogMode verbose) in
      let+ _ := does Ping in
      match ping_err env with
      | Some _ => panics
      | None => unit_ (mkDB dbType dbArgs true verbose)
      end
  end.

(** The three PRAGMA statements of [setupDB]. *)
Definition journalMode : string := "PRAGMA journal_mode=WAL;".
Definition synchronous : string := "PRAGMA synchronous = NORMAL;".
Definition encoding : string :=
  "PRAGMA encoding = " +:+ String quote "UTF-8" +:+ String quote ";".

(** [err = db.Exec(sql).Error; if err != nil { return err }]. *)
Definition exec (sql : string) : T unit :=
  let+ _ := does (Exec sql) in
  match exec_err env sql with
  | Some e => returns e
  | None => unit_ tt
  end.

Definition setupDB (db : DB) : T unit :=
  let+ _ := does TxBegin in
  let+ _ := does (AutoMigrate ["Group"; "Release"; "Binary"; "Part"; "Segment"; "Regex"]) in
  match migrate_err env with
  | Some e => let+ _ := does TxRollback in returns e
  | None =>
      let+ _ := does TxCommit in
      let+ _ := exec journalMode in
      let+ _ := exec synchronous in
      let+ _ := exec encoding in
      unit_ tt
  end.

Definition constructDBPath (dbpath : string) (memory : bool) : string :=
  let mode := if memory then "memory" else "rwc" in
  "file:" +:+ dbpath +:+ "?cache=shared&mode=" +:+ mode.

Definition CreateAndMigrateDB (dbpath : string) (verbose : bool) : T Handle :=
  let constructedPath := constructDBPath dbpath false in
  let+ db := openDB "sqlite3" constructedPath verbose in
  let+ _ := setupDB db in
  unit_ (mkHandle db false).

Definition NewDBHandle (dbpath : string) (verbose : bool) : T Handle :=
  let constructedPath := constructDBPath dbpath false in
  let+ db := openDB "sqlite3" constructedPath verbose in
  unit_ (mkHandle db false).

(** [rand.Read(rb)]: the buffer is filled from the random source; when the
    source gives too few bytes, the rest of the buffer stays as it is and
    the call has an error. *)
Definition Read (source rb : list ascii) : list ascii * option error :=
  ((List.firstn (List.length rb) source ++ List.skipn (List.length source) rb)%list,
   if (List.length source <? List.length rb)%nat then Some (Other "unexpected EOF") else None).

Definition randString : T string :=
  let rb := List.repeat zero 32 in
  let (rb, err) := Read (entropy env) rb in
  let+ _ := match err with
            | Some e => does (Println (Error e))
            | None => unit_ tt
            end in
  unit_ (base64.EncodeToString rb).

Definition NewMemoryDBHandle (verbose : bool) : T Handle :=
  let+ dbpath := randString in
  let constructedPath := constructDBPath dbpath true in
  let+ db := openDB "sqlite3" constructedPath verbose in
  fun t =>
    match setupDB db t with
    | (Failed _, t') => (Panicked, t')
    | (Ok _, t') => (Ok (mkHandle db false), t')
    | (Panicked, t') => (Panicked, t')
    end.

End Outside.

End opening.

(** * Sample data *)

Definition sampleName : list string :=
  ["R"; GoStrings.bytes [195; 150]%nat; "s"; "_"; "1"; "."; "0"; "#";
   GoStrings.bytes [226; 130; 172]%nat; "-"; "x"].

Definition junkPart : Part := mkPart (mkPartRow 7 "no counts here" "alt.b" "me" 5 1 None) [].

(** Three Binaries that each expect three Parts: the first has them all
    with all Segments, the second lacks a Part, the third lacks a Segment of
    its first Part. *)
Definition threeBinaries : Store :=
  let part (id bin total : Z) := mkPartRow id "subject" "alt.b" "me" 50 total (Some bin) in
  let seg (id p : Z) := mkSegment id p 10 in
  mkStore [mkGroup 1 "alt.b" true]
    [part 1 1 2; part 2 1 1; part 3 1 1; part 4 2 1; part 5 2 1;
     part 6 3 2; part 7 3 1; part 8 3 1]
    [seg 1 1; seg 2 1; seg 3 2; seg 4 3; seg 5 4; seg 6 5; seg 7 6; seg 8 7; seg 9 8]
    [mkBinaryRow 1 "h1" "One.File" 100 "me" "alt.b" 3;
     mkBinaryRow 2 "h2" "Two.File" 101 "me" "alt.b" 3;
     mkBinaryRow 3 "h3" "Three.File" 102 "me" "alt.b" 3]
    [].

Definition manifestOk : Binary -> error + string := fun _ => inr "<nzb/>".

Definition manifestFailsOn (id : Z) : Binary -> error + string :=
  fun b => if Binary_ID (Binary_row b) =? id then inl (Other "no manifest") else inr "<nzb/>".

Definition segmentDeleteFails : Faults :=
  mkFaults None (fun _ => None) None (fun _ _ => None) (fun _ => None)
    (fun _ => None) (fun _ => None) (fun _ => None)
    (fun _ => Some (Other "disk full")) (fun _ => None).

Definition one : BinaryRow := mkBinaryRow 1 "h1" "One.File" 100 "me" "alt.b" 1.
Definition two : BinaryRow := mkBinaryRow 2 "h2" "Two.File" 200 "me" "alt.b" 1.

(** Two complete Binaries of one Part and one Segment each. *)
Definition twoReady : Store :=
  mkStore [mkGroup 1 "alt.b" true]
    [mkPartRow 1 "s1" "alt.b" "me" 100 1 (Some 1);
     mkPartRow 2 "s2" "alt.b" "me" 200 1 (Some 2)]
    [mkSegment 1 1 10; mkSegment 2 2 20]
    [one; two]
    [].

(** The same without the Group of the Binaries. *)
Definition noGroup : Store :=
  mkStore [] (parts twoReady) (segments twoReady) (binaries twoReady) [].

(** The same with a Release of the name and date of the second Binary. *)
Definition alreadyReleased : Store :=
  mkStore (groups twoReady) (parts twoReady) (segments twoReady) (binaries twoReady)
    [mkRelease 1 "Two.File" "Two.File" "Two File" 200 "" (mkGroup 1 "alt.b" true) 20 "<nzb/>"].

(** Two ungrouped Parts of one file, posted to one group by one poster; the
    subjects write the total as 034 and as 34. *)
Definition subjectOf (counts : string) : string :=
  "[" +:+ counts +:+ "] - " +:+ String quote "My.Show.S01E01.mkv" +:+ String quote " yEnc".

Definition padded : PartRow :=
  mkPartRow 1 (subjectOf "001/034") "alt.b" "me" 100 1 None.

Definition unpadded : PartRow :=
  mkPartRow 2 (subjectOf "02/34") "alt.b" "me" 101 1 None.

Definition twoSpellings : Store := mkStore [] [padded; unpadded] [] [] [].

(** Three ungrouped Parts: two of one file and one without a part count. *)
Definition threeUngrouped : Store :=
  mkStore []
    [mkPartRow 1 (subjectOf "01/34") "alt.b" "me" 100 1 None;
     mkPartRow 2 "no counts here" "alt.b" "me" 101 1 None;
     mkPartRow 3 (subjectOf "02/34") "alt.b" "me" 102 1 None]
    [] [] [].

(** Two ungrouped Parts of the same subject whose group and poster differ
    but join to the same string. *)
Definition joinedA : PartRow := mkPartRow 1 (subjectOf "01/34") "alt.b" "cd" 100 1 None.
Definition joinedB : PartRow := mkPartRow 2 (subjectOf "02/34") "alt.bc" "d" 101 1 None.
Definition joinedTuples : Store := mkStore [] [joinedA; joinedB] [] [] [].

(** A store fault and a random source for the examples below. *)

Definition secondSaveFails : Faults :=
  mkFaults None
    (fun b => if (2 <=? List.length (Binary_Parts b))%nat then Some (Other "disk full") else None)
    None (fun _ _ => None) (fun _ => None) (fun _ => None) (fun _ => None)
    (fun _ => None) (fun _ => None) (fun _ => None).

Definition countingSource (first : nat) : opening.Env :=
  opening.mkEnv (List.map ascii_of_nat (seq first 32)) (fun _ _ => None) None None (fun _ => None).

(** A Binary that expects three Parts and has three: the first has one of
    its two Segments, the second two Segments where it should have one. *)
Definition overFullBinary : BinaryRow := mkBinaryRow 1 "h1" "One.File" 100 "me" "alt.b" 3.

Definition overFull : Store :=
  let part (id total : Z) := mkPartRow id "subject" "alt.b" "me" 50 total (Some 1) in
  let seg (id p : Z) := mkSegment id p 10 in
  mkStore [mkGroup 1 "alt.b" true]
    [part 1 2; part 2 1; part 3 1]
    [seg 1 1; seg 2 2; seg 3 2; seg 4 3]
    [overFullBinary] [].

(** A Binary that expects two Parts and has three: the first has none of
    its five Segments. *)
Definition emptyPartBinary : BinaryRow := mkBinaryRow 1 "h1" "One.File" 100 "me" "alt.b" 2.

Definition emptyPart : Store :=
  let part (id total : Z) := mkPartRow id "subject" "alt.b" "me" 50 total (Some 1) in
  let seg (id p : Z) := mkSegment id p 10 in
  mkStore [mkGroup 1 "alt.b" true]
    [part 1 5; part 2 1; part 3 1]
    [seg 1 2; seg 2 3]
    [emptyPartBinary] [].

(** * The library functions on known values *)

(** Reference values of xxHash64 with seed 0. *)
Example Sum64_empty : fmt.Sprintf_x (xxhash.Sum64 "") = "ef46db3751d8e999".
Proof. vm_compute. reflexivity. Qed.

Example Sum64_a : fmt.Sprintf_x (xxhash.Sum64 "a") = "d24ec4f1a98c6e5b".
Proof. vm_compute. reflexivity. Qed.

Example Sum64_abc : fmt.Sprintf_x (xxhash.Sum64 "abc") = "44bc2cf5ad770999".
Proof. vm_compute. reflexivity. Qed.

Example Sum64_xxhash : fmt.Sprintf_x (xxhash.Sum64 "xxhash") = "32dd38952c4bc720".
Proof. vm_compute. reflexivity. Qed.

Example Sum64_stripes :
  fmt.Sprintf_x (xxhash.Sum64 "Nobody inspects the spammish repetition")
  = "fbcea83c8a378bf1".
Proof. vm_compute. reflexivity. Qed.

Example Sprintf_x_zero : fmt.Sprintf_x 0 = "0".
Proof. reflexivity. Qed.

Example TrimSpace_both : TrimSpace (bytes [32; 194; 160; 97; 32; 98; 9; 10]%nat) = "a b".
Proof. vm_compute. reflexivity. Qed.

Example Replace_of : Replace "1 of 2 of 3" " of " "/" = "1/2/3".
Proof. vm_compute. reflexivity. Qed.

Example Replace_overlap : Replace "aaa" "aa" "b" = "ba".
Proof. vm_compute. reflexivity. Qed.

Example SplitN2_first : SplitN2 "001/034/7" "/" = ["001"; "034/7"].
Proof. vm_compute. reflexivity. Qed.

Example Atoi_padded : Atoi "034" = Some 34 /\ Atoi "3x" = None /\ Atoi "" = None.
Proof. vm_compute. repeat split; reflexivity. Qed.

(** The two patterns on subjects. *)
Example rc_subject :
  regexp.FindStringSubmatch rc (subjectOf "001/034")
  = Some [ "[001/034] - " +:+ String quote "My.Show.S01E01.mkv";
           "001/034"; "My.Show.S01E01"; "mkv" ].
Proof. vm_compute. reflexivity. Qed.

Example rc_first_extension :
  regexp.FindStringSubmatch rc ("1/2 " +:+ String quote "My.T1.Show.MKV")
  = Some ["1/2 " +:+ String quote "My.T1"; "1/2"; "My"; "T1"].
Proof. vm_compute. reflexivity. Qed.

Example rc_no_quote : regexp.FindStringSubmatch rc "file 1/2 name.mkv" = None.
Proof. vm_compute. reflexivity. Qed.

Example PartRegex_of :
  regexp.FindStringSubmatch PartRegex "file (12 of 20) yEnc"
  = Some ["(12 of 20)"; "12 of 20"; ""; "12 of 20"; ""; ""].
Proof. vm_compute. reflexivity. Qed.

Example PartRegex_tilde :
  regexp.FindStringSubmatch PartRegex "file [12~20]"
  = Some ["[12~20]"; "12~20"; ""; ""; ""; "12~20"].
Proof. vm_compute. reflexivity. Qed.

(** The end-to-end example of the spec: the subject parses to the name
    My.Show.S01E01 and part 1 of 34, and the search name of the Release is
    My Show S01E01. *)
Example end_to_end_subject :
  spec.parsedSubject (subjectOf "001/034") = Some ("My.Show.S01E01", "034")
  /\ Atoi "034" = Some 34
  /\ cleanReleaseName "My.Show.S01E01" = "My Show S01E01".
Proof. vm_compute. repeat split; reflexivity. Qed.

(** * Facts about the string functions *)

Lemma prefix_empty (r : string) : String.prefix "" r = true.
Proof. destruct r; reflexivity. Qed.

Lemma prefix_cons (a b : ascii) (p s : string) :
  String.prefix (String a p) (String b s) = if Ascii.eqb a b then String.prefix p s else false.
Proof.
  simpl. destruct (ascii_dec a b) as [->|Hne].
  - rewrite Ascii.eqb_refl. reflexivity.
  - destruct (Ascii.eqb_spec a b); [contradiction|reflexivity].
Qed.

Lemma append_cons (a : ascii) (p r : string) :
  String a p +:+ r = String a (p +:+ r).
Proof. reflexivity. Qed.

Lemma append_nil (r : string) : "" +:+ r = r.
Proof. reflexivity. Qed.

Lemma prefix_append (p r : string) : String.prefix p (p +:+ r) = true.
Proof.
  induction p as [|a p IH].
  - apply prefix_empty.
  - rewrite append_cons, prefix_cons, Ascii.eqb_refl. exact IH.
Qed.

Lemma prefix_same_length (p c r : string) :
  String.length p = String.length c -> String.prefix p (c +:+ r) = true -> p = c.
Proof.
  revert c; induction p as [|a p IH]; intros [|b c] Hlen Hp; cbn in Hlen; try discriminate.
  - reflexivity.
  - rewrite append_cons, prefix_cons in Hp.
    destruct (Ascii.eqb_spec a b) as [->|]; [|discriminate].
    f_equal. apply IH; [lia|exact Hp].
Qed.

Lemma replaceFrom_skip (old new a r : string) :
  replaceFrom old new (String.length a) (a +:+ r) = replaceFrom old new 0 r.
Proof. induction a as [|c a IH]; [reflexivity|exact IH]. Qed.

Lemma append_assoc (a b c : string) : (a +:+ b) +:+ c = a +:+ (b +:+ c).
Proof. induction a; rewrite ?append_nil, ?append_cons; congruence. Qed.

Lemma append_empty_r (a : string) : a +:+ "" = a.
Proof. induction a; rewrite ?append_nil, ?append_cons; congruence. Qed.

(** No occurrence of a character starts at a continuation byte. *)
Lemma replaceFrom_continuations (a : ascii) (ps new cs rest : string) :
  spec.isContinuation a = false -> spec.continuations cs = true ->
  replaceFrom (String a ps) new 0 (cs +:+ rest)
  = cs +:+ replaceFrom (String a ps) new 0 rest.
Proof.
  intros Ha. induction cs as [|k cs IH]; intros Hcs; [reflexivity|].
  cbn in Hcs. apply andb_true_iff in Hcs as [Hk Hcs].
  rewrite !append_cons. cbn [replaceFrom]. unfold HasPrefix. rewrite prefix_cons.
  destruct (Ascii.eqb_spec a k) as [->|_]; [congruence|].
  f_equal. apply IH, Hcs.
Qed.

Lemma isCharacter_inv (a : ascii) (cs : string) :
  spec.isCharacter (String a cs) = true ->
  spec.isContinuation a = false
  /\ S (String.length cs) = spec.encodedLength a
  /\ spec.continuations cs = true.
Proof.
  unfold spec.isCharacter. intros H.
  apply andb_true_iff in H as [H H3]. apply andb_true_iff in H as [H1 H2].
  apply negb_true_iff in H1. apply Nat.eqb_eq in H2. auto.
Qed.

Lemma text_cons (c : string) (chars : list string) :
  spec.text (c :: chars) = c +:+ spec.text chars.
Proof. reflexivity. Qed.

(** Replacing a character in a text replaces it among the characters. *)
Lemma Replace_text (pat new : string) (chars : list string) :
  spec.isCharacter pat = true ->
  Forall (fun c => spec.isCharacter c = true) chars ->
  Replace (spec.text chars) pat new
  = spec.text (List.map (fun c => if String.eqb c pat then new else c) chars).
Proof.
  intros Hpat Hchars. unfold Replace.
  induction Hchars as [|c chars Hc _ IH]; [reflexivity|].
  cbn [List.map]. rewrite !text_cons.
  destruct (String.eqb_spec c pat) as [->|Hne].
  - destruct pat as [|a ps]; [discriminate|].
    rewrite append_cons. cbn [replaceFrom]. unfold HasPrefix.
    rewrite <- append_cons, prefix_append. cbn [String.length].
    replace (S (String.length ps) - 1)%nat with (String.length ps) by lia.
    rewrite replaceFrom_skip, IH. reflexivity.
  - destruct pat as [|a ps]; [discriminate|]. destruct c as [|b cs]; [discriminate|].
    rewrite !append_cons. cbn [replaceFrom]. unfold HasPrefix.
    destruct (String.prefix (String a ps) (String b (cs +:+ spec.text chars))) eqn:Hp.
    + exfalso. apply Hne. symmetry.
      rewrite prefix_cons in Hp. destruct (Ascii.eqb_spec a b) as [->|]; [|discriminate].
      f_equal. apply prefix_same_length with (r := spec.text chars); [|exact Hp].
      apply isCharacter_inv in Hpat as (_ & Hl1 & _).
      apply isCharacter_inv in Hc as (_ & Hl2 & _). lia.
    + f_equal. apply isCharacter_inv in Hpat as (Ha & _ & _).
      apply isCharacter_inv in Hc as (_ & _ & Hcs).
      rewrite replaceFrom_continuations by assumption. rewrite IH. reflexivity.
Qed.

(** * Name cleaning *)

Lemma text_remove (pat : string) (chars : list string) :
  spec.text (List.map (fun c => if String.eqb c pat then "" else c) chars)
  = spec.text (List.filter (fun c => negb (String.eqb c pat)) chars).
Proof.
  induction chars as [|c chars IH]; [reflexivity|].
  cbn [List.map List.filter].
  destruct (String.eqb c pat); cbn [negb]; rewrite !text_cons, IH; reflexivity.
Qed.

(** The first loop of [cleanReleaseName], over any table of characters. *)
Lemma remove_loop (pats chars : list string) :
  spec.characters pats -> spec.characters chars ->
  fold_left (fun name c => Replace name c "") pats (spec.text chars)
  = spec.text (List.filter (fun c => negb (bool_decide (c ∈ pats))) chars).
Proof.
  intros Hpats. revert chars.
  induction Hpats as [|p pats Hp _ IH]; intros chars Hchars.
  - cbn [fold_left]. f_equal. induction chars as [|c chars IHc]; [reflexivity|].
    inversion Hchars; subst. cbn [List.filter].
    rewrite bool_decide_eq_false_2 by (apply not_elem_of_nil). cbn. f_equal. auto.
  - cbn [fold_left]. rewrite Replace_text, text_remove by assumption.
    rewrite IH.
    2:{ clear -Hchars. induction Hchars; cbn [List.filter]; [constructor|].
        destruct (negb _); [constructor|]; assumption. }
    f_equal. clear. induction chars as [|c chars IHc]; [reflexivity|].
    cbn [List.filter].
    destruct (String.eqb_spec c p) as [->|Hne]; cbn [negb].
    + rewrite bool_decide_eq_true_2 by (left). cbn [negb]. exact IHc.
    + cbn [List.filter]. rewrite IHc.
      destruct (decide (c ∈ pats)) as [Hin|Hin].
      * rewrite !bool_decide_eq_true_2; [reflexivity|by right|assumption].
      * rewrite !bool_decide_eq_false_2; [reflexivity| |assumption].
        intros [?|?]%elem_of_cons; contradiction.
Qed.

(** The second loop, over any table of characters. *)
Lemma space_loop (pats chars : list string) :
  spec.characters pats -> spec.characters chars ->
  fold_left (fun name c => Replace name c " ") pats (spec.text chars)
  = spec.text (List.map (fun c => if bool_decide (c ∈ pats) then " " else c) chars).
Proof.
  intros Hpats. revert chars.
  induction Hpats as [|p pats Hp _ IH]; intros chars Hchars.
  - cbn [fold_left]. f_equal. induction chars as [|c chars IHc]; [reflexivity|].
    inversion Hchars; subst. cbn [List.map].
    rewrite bool_decide_eq_false_2 by (apply not_elem_of_nil). f_equal. auto.
  - cbn [fold_left]. rewrite Replace_text by assumption.
    rewrite IH.
    2:{ clear -Hchars. induction Hchars; cbn [List.map]; constructor; [|assumption].
        destruct (String.eqb _ _); [reflexivity|assumption]. }
    f_equal. rewrite List.map_map. apply List.map_ext. intros c.
    destruct (String.eqb_spec c p) as [->|Hne].
    + rewrite (bool_decide_eq_true_2 (p ∈ p :: pats)) by left.
      destruct (bool_decide _); reflexivity.
    + destruct (decide (c ∈ pats)) as [Hin|Hin].
      * rewrite !bool_decide_eq_true_2; [reflexivity|by right|assumption].
      * rewrite !bool_decide_eq_false_2; [reflexivity| |assumption].
        intros [?|?]%elem_of_cons; contradiction.
Qed.

Lemma characters_filter (f : string -> bool) (chars : list string) :
  spec.characters chars -> spec.characters (List.filter f chars).
Proof.
  induction 1 as [|c chars Hc _ IH]; cbn [List.filter]; [constructor|].
  destruct (f c); [constructor|]; assumption.
Qed.

Lemma characters_tables :
  spec.characters removeChars /\ spec.characters spaceChars.
Proof. split; repeat constructor. Qed.

(** C9, as the code has it: for every name that is a sequence of
    characters, each a first byte with the continuation bytes that its
    length asks for (every name in well-formed UTF-8 is one),
    [cleanReleaseName] removes the characters of the deny-list
    [removeChars] and then turns every underscore, period and hyphen into a
    space; in particular it maps My.Movie_Name-2020#@ to My Movie Name
    2020. *)
Theorem cleanReleaseName_cleaned :
  (forall chars : list string,
      spec.characters chars ->
      cleanReleaseName (spec.text chars) = spec.text (spec.cleaned chars))
  /\ cleanReleaseName "My.Movie_Name-2020#@" = "My Movie Name 2020".
Proof.
  split; [|vm_compute; reflexivity].
  intros chars Hchars. unfold cleanReleaseName, spec.cleaned.
  destruct characters_tables as [Hremove Hspace].
  rewrite remove_loop by assumption.
  rewrite space_loop by (try apply characters_filter; assumption).
  reflexivity.
Qed.

Lemma cleanReleaseName_cleaned_witness :
  spec.characters sampleName
  /\ cleanReleaseName (spec.text sampleName)
     = "Rs 1 0" +:+ GoStrings.bytes [226; 130; 172]%nat +:+ " x".
Proof.
  assert (H : spec.characters sampleName) by (repeat constructor).
  split; [exact H|].
  rewrite (proj1 cleanReleaseName_cleaned sampleName H).
  vm_compute. reflexivity.
Defined.

(** C9 fails at these inputs, names with bytes that are not well-formed
    UTF-8.  The replacements work on bytes and one after the other.  In the
    first name a [#] stands between the two bytes of the section sign:
    once it is removed the two bytes join, and the section sign is removed
    too, so bytes go that are no character of the deny-list.  In the second
    name a section sign stands between its own two bytes: it is removed,
    and the bytes around it join to a section sign that stays in the
    result. *)
Lemma cleanReleaseName_bytes_counterexample :
  (spec.text [GoStrings.bytes [194]%nat; "#"; GoStrings.bytes [167]%nat]
   = GoStrings.bytes [194; 35; 167]%nat
   /\ spec.text (spec.cleaned [GoStrings.bytes [194]%nat; "#"; GoStrings.bytes [167]%nat])
      = GoStrings.bytes [194; 167]%nat
   /\ cleanReleaseName (GoStrings.bytes [194; 35; 167]%nat) = ""
   /\ cleanReleaseName (spec.text [GoStrings.bytes [194]%nat; "#"; GoStrings.bytes [167]%nat])
      <> spec.text (spec.cleaned [GoStrings.bytes [194]%nat; "#"; GoStrings.bytes [167]%nat]))
  /\ (cleanReleaseName (GoStrings.bytes [194; 194; 167; 167]%nat)
      = GoStrings.bytes [194; 167]%nat
      /\ In (GoStrings.bytes [194; 167]%nat) removeChars
      /\ cleanReleaseName (cleanReleaseName (GoStrings.bytes [194; 194; 167; 167]%nat)) = "").
Proof.
  split; [split; [|split; [|split]]|split; [|split]]; try (vm_compute; reflexivity).
  - vm_compute. discriminate.
  - right. right. right. right. right. left. reflexivity.
Qed.

(** * The subject parser *)

Lemma HasPrefix_byte (a b : ascii) (s : string) :
  HasPrefix (String b s) (String a "") = Ascii.eqb a b.
Proof.
  unfold HasPrefix. rewrite prefix_cons, prefix_empty.
  destruct (Ascii.eqb a b); reflexivity.
Qed.

Lemma Replace_byte_byte (a b : ascii) (s : string) :
  Replace s (String a "") (String b "")
  = spec.mapBytes (fun c => if Ascii.eqb c a then b else c) s.
Proof.
  unfold Replace. induction s as [|c s IH]; [reflexivity|].
  cbn [replaceFrom spec.mapBytes String.length Nat.sub]. rewrite HasPrefix_byte.
  rewrite (Ascii.eqb_sym a c). destruct (Ascii.eqb c a); rewrite IH; reflexivity.
Qed.

Lemma Replace_byte_empty (a : ascii) (s : string) :
  Replace s (String a "") "" = spec.filterBytes (fun c => negb (Ascii.eqb c a)) s.
Proof.
  unfold Replace. induction s as [|c s IH]; [reflexivity|].
  cbn [replaceFrom spec.filterBytes String.length Nat.sub]. rewrite HasPrefix_byte.
  rewrite (Ascii.eqb_sym a c). destruct (Ascii.eqb c a); cbn [negb]; rewrite IH; reflexivity.
Qed.

Lemma mapBytes_mapBytes (f g : ascii -> ascii) (s : string) :
  spec.mapBytes f (spec.mapBytes g s) = spec.mapBytes (fun a => f (g a)) s.
Proof. induction s; cbn; congruence. Qed.

Lemma mapBytes_ext (f g : ascii -> ascii) (s : string) :
  (forall a, f a = g a) -> spec.mapBytes f s = spec.mapBytes g s.
Proof. intros H. induction s; cbn; congruence. Qed.

Lemma filterBytes_filterBytes (f g : ascii -> bool) (s : string) :
  spec.filterBytes f (spec.filterBytes g s) = spec.filterBytes (fun a => g a && f a) s.
Proof.
  induction s as [|a s IH]; [reflexivity|]. cbn.
  destruct (g a); cbn; [destruct (f a)|]; rewrite IH; reflexivity.
Qed.

Lemma filterBytes_ext (f g : ascii -> bool) (s : string) :
  (forall a, f a = g a) -> spec.filterBytes f s = spec.filterBytes g s.
Proof. intros H. induction s as [|a s IH]; cbn; [|rewrite H, IH]; reflexivity. Qed.

Lemma normalizeParts_slash (s : string) :
  Index s "/" <> -1 -> normalizeParts s = s.
Proof.
  intros H. unfold normalizeParts. destruct (Z.eqb_spec (Index s "/") (-1)); [contradiction|reflexivity].
Qed.

Lemma normalizeParts_normalized (s : string) :
  Index s "/" = -1 -> normalizeParts s = spec.normalized s.
Proof.
  intros H. unfold normalizeParts, spec.normalized. rewrite H, Z.eqb_refl.
  rewrite !Replace_byte_byte, !Replace_byte_empty, mapBytes_mapBytes.
  rewrite !filterBytes_filterBytes.
  erewrite mapBytes_ext; [apply filterBytes_ext|].
  - intros a. unfold regexp.oneOf. cbn [list_ascii_of_string existsb].
    rewrite !orb_false_r, !negb_orb, !andb_assoc. reflexivity.
  - intros a. unfold regexp.oneOf. cbn [list_ascii_of_string existsb].
    destruct (Ascii.eqb_spec a "-") as [->|]; [reflexivity|].
    cbn [orb]. rewrite orb_false_r. reflexivity.
Qed.

(** [Index] and [cut] agree on a one-byte separator. *)
Lemma indexFrom_cut (a : ascii) (s : string) (i : Z) :
  0 <= i -> indexFrom (String a "") i s = -1 <-> cut (String a "") s = None.
Proof.
  revert i. induction s as [|c s IH]; intros i Hi.
  - cbn. tauto.
  - cbn [cut indexFrom]. rewrite HasPrefix_byte.
    destruct (Ascii.eqb_spec a c) as [->|Hne].
    + split; [lia|discriminate].
    + rewrite (IH (i + 1)) by lia.
      destruct (cut (String a "") s) as [[before after]|]; split; congruence.
Qed.

Lemma Index_cut (a : ascii) (s : string) :
  Index s (String a "") = -1 <-> cut (String a "") s = None.
Proof. apply indexFrom_cut. lia. Qed.

Lemma cut_Some (a : ascii) (s before after : string) :
  cut (String a "") s = Some (before, after) ->
  s = before +:+ String a after /\ cut (String a "") before = None.
Proof.
  revert before. induction s as [|c s IH]; intros before.
  - cbn. discriminate.
  - cbn [cut]. rewrite HasPrefix_byte.
    destruct (Ascii.eqb_spec a c) as [->|Hne].
    + cbn. intros [= <- <-]. split; reflexivity.
    + destruct (cut (String a "") s) as [[b' a']|]; [|discriminate].
      intros [= <- <-]. destruct (IH b' eq_refl) as [-> Hb].
      split; [reflexivity|].
      cbn [cut]. rewrite HasPrefix_byte.
      destruct (Ascii.eqb_spec a c); [contradiction|]. rewrite Hb. reflexivity.
Qed.

(** Lines 247 to 252: a part count with a slash splits at the first slash. *)
Lemma SplitN2_slash (s : string) :
  Index s "/" <> -1 ->
  exists index total,
    SplitN2 s "/" = [index; total]
    /\ s = index +:+ "/" +:+ total
    /\ Index index "/" = -1.
Proof.
  intros H. unfold SplitN2.
  destruct (cut "/" s) as [[before after]|] eqn:Hcut.
  - apply cut_Some in Hcut as [-> Hb]. exists before, after.
    split; [reflexivity|]. split; [reflexivity|]. apply Index_cut, Hb.
  - apply Index_cut in Hcut. contradiction.
Qed.

Lemma FindStringSubmatch_PartRegex (s : string) (partmatch : list string) :
  regexp.FindStringSubmatch PartRegex s = Some partmatch ->
  is_Some (partmatch !! 1%nat).
Proof.
  unfold regexp.FindStringSubmatch.
  destruct (regexp.run _ _) as [c|]; [|discriminate].
  intros [= <-]. cbn. eauto.
Qed.

(** Lines 201 to 229 return, leave the store and the log alone, and always
    give a name. *)
Lemma subjectFields_total (subject : string) (w : World) :
  exists m, subjectFields subject w = (Ok m, w) /\ is_Some (m !! "name").
Proof.
  unfold subjectFields.
  set (m0 := if (0 <? size _)%nat then _ else _).
  set (m1 := match m0 !! "reqid" with Some _ => _ | None => _ end).
  set (m2 := match m1 !! "name" with Some _ => _ | None => _ end).
  assert (Hname : is_Some (m2 !! "name")).
  { subst m2. destruct (m1 !! "name") eqn:E; [rewrite E; eauto|].
    rewrite lookup_insert_eq. eauto. }
  destruct (m2 !! "parts"); [exists m2; split; [reflexivity|exact Hname]|].
  destruct (regexp.FindStringSubmatch PartRegex subject) as [partmatch|] eqn:E;
    [|exists m2; split; [reflexivity|exact Hname]].
  destruct (FindStringSubmatch_PartRegex _ _ E) as [text ->].
  eexists; split; [reflexivity|]. rewrite lookup_insert_ne by discriminate. exact Hname.
Qed.

Lemma get_normalized (m : gmap string string) :
  get (if Index (get m "parts") "/" =? -1
       then <["parts" := normalizeParts (get m "parts")]> m else m) "parts"
  = normalizeParts (get m "parts").
Proof.
  destruct (Z.eqb_spec (Index (get m "parts") "/") (-1)) as [H|H].
  - unfold get at 1. rewrite lookup_insert_eq. reflexivity.
  - rewrite normalizeParts_slash by assumption. reflexivity.
Qed.

Lemma app_one_ne {A : Type} (l : list A) (x : A) : l <> (l ++ [x])%list.
Proof.
  intros H. apply (f_equal List.length) in H. rewrite List.length_app in H.
  cbn in H. lia.
Qed.

Lemma saveAt_logs (flt : Faults) (h : string) (bs bs' : gmap string Binary) (w w' : World) :
  saveAt flt h bs w = (Ok bs', w') -> logs w' = logs w.
Proof.
  unfold saveAt. destruct (bs !! h) as [bin|]; [|discriminate].
  unfold bind, check. destruct (saveBinary_err flt bin); [discriminate|].
  cbn. destruct (saveBinary bin (store_of w)). cbn. intros [= _ <-]. reflexivity.
Qed.

Lemma groupPart_skips (flt : Faults) (binaries : gmap string Binary) (p : Part) (w : World) :
  exists m,
    subjectFields (Part_Subject (Part_row p)) w = (Ok m, w)
    /\ (spec.skips flt binaries p w
        <-> hasNameAndParts m = false
            \/ Index (normalizeParts (get m "parts")) "/" = -1).
Proof.
  destruct (subjectFields_total (Part_Subject (Part_row p)) w) as (m & Hm & _).
  exists m. split; [exact Hm|].
  unfold spec.skips, groupPart, bind. rewrite Hm.
  destruct (hasNameAndParts m) eqn:Hnp; cbn [negb].
  2:{ split; [auto|]. intros _. eexists. reflexivity. }
  cbv zeta. rewrite !get_normalized.
  destruct (Z.eqb_spec (Index (normalizeParts (get m "parts")) "/") (-1)) as [Hi|Hi].
  { split; [auto|]. intros _. eexists. reflexivity. }
  split; [|intros [?|?]; [discriminate|contradiction]].
  intros [e He]. exfalso.
  destruct (SplitN2_slash _ Hi) as (index & total & Hs & _).
  rewrite Hs in He. cbn [lookup list_lookup] in He.
  apply saveAt_logs in He. cbn in He. symmetry in He. eapply app_one_ne, He.
Qed.

(** C8: a part count that has no slash is normalized by turning hyphen,
    tilde and the literal [ of ] into a slash and stripping brackets and
    parentheses (one with a slash is left as it is); the result is split at
    its first slash into index and total; and the Part is skipped, without
    an error, exactly when name and parts are not both there or the
    normalized part count still has no slash. *)
Theorem part_count_normalization :
  (forall s : string, Index s "/" <> -1 -> normalizeParts s = s)
  /\ (forall s : string, Index s "/" = -1 -> normalizeParts s = spec.normalized s)
  /\ (forall s : string,
         Index s "/" <> -1 ->
         exists index total,
           SplitN2 s "/" = [index; total]
           /\ s = index +:+ "/" +:+ total
           /\ Index index "/" = -1)
  /\ (forall (flt : Faults) (binaries : gmap string Binary) (p : Part) (w : World),
         exists m,
           subjectFields (Part_Subject (Part_row p)) w = (Ok m, w)
           /\ (spec.skips flt binaries p w
               <-> hasNameAndParts m = false
                   \/ Index (normalizeParts (get m "parts")) "/" = -1)).
Proof.
  split; [exact normalizeParts_slash|].
  split; [exact normalizeParts_normalized|].
  split; [exact SplitN2_slash|exact groupPart_skips].
Qed.

Lemma part_count_normalization_witness :
  normalizeParts "(12 of 20)" = "12/20"
  /\ normalizeParts "3/4" = "3/4"
  /\ SplitN2 "12/20/7" "/" = ["12"; "20/7"]
  /\ spec.skips noFaults ∅ junkPart (mkWorld (mkStore [] [] [] [] []) []).
Proof.
  destruct part_count_normalization as (Hkeep & Hnorm & Hsplit & Hskip).
  split; [rewrite (Hnorm "(12 of 20)" eq_refl); vm_compute; reflexivity|].
  split; [apply Hkeep; vm_compute; discriminate|].
  split.
  - destruct (Hsplit "12/20/7") as (index & total & Hs & _ & _);
      [vm_compute; discriminate|].
    vm_compute in Hs |- *. reflexivity.
  - destruct (Hskip noFaults ∅ junkPart (mkWorld (mkStore [] [] [] [] []) []))
      as (m & Hm & Hiff).
    apply Hiff. left. vm_compute in Hm. injection Hm as <-. vm_compute. reflexivity.
Defined.

(** * The completeness query *)

Lemma percentage_rational (a t : Z) :
  0 <= a ->
  (inject_Z 100 <= inject_Z a / inject_Z t * 100)%Q <-> 0 < t /\ t <= a.
Proof.
  intros Ha. unfold Qle, Qdiv, Qmult, Qinv, inject_Z. cbn [Qnum Qden].
  destruct t as [|p|p]; cbn [Qnum Qden]; lia.
Qed.

Lemma percentage_sql (a t : Z) :
  0 <= a ->
  match sqlDiv a t with Some q => 100 <=? q * 100 | None => false end = true
  <-> 0 < t /\ t <= a.
Proof.
  intros Ha. unfold sqlDiv. destruct (Z.eqb_spec t 0) as [->|Hne]; [split; [discriminate|lia]|].
  rewrite Z.leb_le. destruct (Z_lt_le_dec t 0) as [Hneg|Hpos].
  - split; [|lia]. intros H. exfalso.
    assert (Z.quot a t <= 0); [|lia].
    rewrite <- (Z.opp_involutive t), Z.quot_opp_r by lia.
    assert (0 <= Z.quot a (- t)); [|lia]. apply Z.quot_pos; lia.
  - rewrite Z.quot_div_nonneg by lia. split.
    + intros H. split; [lia|]. destruct (Z_lt_le_dec a t) as [Hlt|]; [|assumption].
      rewrite Z.div_small in H by lia. lia.
    + intros [_ H]. assert (1 <= a / t); [|lia]. apply Z.div_le_lower_bound; lia.
Qed.

Lemma sumZ_nonneg (l : list Z) : Forall (fun x => 0 <= x) l -> 0 <= sumZ l.
Proof. unfold sumZ. induction 1; cbn; lia. Qed.

Lemma In_insertByPosted (b c : Binary) (l : list Binary) :
  In c (insertByPosted b l) <-> c = b \/ In c l.
Proof.
  induction l as [|d l IH]; cbn; [intuition congruence|].
  destruct (_ <=? _); cbn; [intuition congruence|]. rewrite IH. intuition congruence.
Qed.

Lemma In_sortByPosted (c : Binary) (l : list Binary) :
  In c (sortByPosted l) <-> In c l.
Proof.
  induction l as [|b l IH]; cbn; [tauto|].
  rewrite In_insertByPosted, IH. intuition congruence.
Qed.

(** The joined rows of a Binary are its counted Parts. *)
Lemma joinedParts_counted (st : Store) (b : BinaryRow) :
  joinedParts st b
  = List.map
      (fun p => mkPartCount (Part_ID p) (Part_BinaryID p) (Part_TotalSegments p)
                  (spec.available st p))
      (spec.countedParts st b).
Proof.
  unfold joinedParts, partCounts, spec.countedParts, spec.partsOf, spec.available.
  induction (parts st) as [|p ps IH]; [reflexivity|].
  cbn [List.map List.concat]. rewrite List.filter_app, IH. clear IH.
  cbn [List.filter].
  assert (Hpos : forall (s : Segment) ss, (0 <? Z.of_nat (List.length (s :: ss))) = true)
    by (intros; apply Z.ltb_lt; cbn [List.length]; lia).
  destruct (hasBinaryID (Binary_ID b) p) eqn:Hh;
    destruct (segmentsOf st (Part_ID p)) as [|s ss] eqn:Hs;
    cbn [List.filter app pc_binary_id];
    rewrite ?Hs, ?Hpos; unfold hasBinaryID in Hh; rewrite ?Hh;
    cbn [List.map app]; rewrite ?Hs; reflexivity.
Qed.

Lemma having_complete (st : Store) (b : BinaryRow) :
  joinedParts st b <> [] /\ having 100 st b = true <-> spec.joinedComplete 100 st b.
Proof.
  unfold having, spec.joinedComplete. rewrite joinedParts_counted.
  set (ps := spec.countedParts st b).
  rewrite List.length_map, !List.map_map. cbn [pc_available_segments pc_total_segments].
  assert (Ha : 0 <= sumZ (List.map (spec.available st) ps)).
  { apply sumZ_nonneg, List.Forall_forall. intros x [p [<- _]]%in_map_iff. unfold spec.available. lia. }
  rewrite andb_true_iff, Z.leb_le, percentage_sql, percentage_rational by assumption.
  split; [tauto|]. intros (H1 & H2 & H3). split; [|tauto].
  destruct ps; [cbn in H2; lia|discriminate].
Qed.

Lemma In_readyBinaries (st : Store) (c : Binary) :
  In c (readyBinaries 100 st)
  <-> exists b, In b (binaries st) /\ c = scanBinary b /\ spec.joinedComplete 100 st b.
Proof.
  unfold readyBinaries. rewrite In_sortByPosted, in_map_iff.
  split.
  - intros (b & <- & [Hb Hr]%filter_In). exists b. split; [assumption|]. split; [reflexivity|].
    apply having_complete. destruct (joinedParts st b); [discriminate|]. split; [discriminate|assumption].
  - intros (b & Hb & -> & Hc). exists b. split; [reflexivity|].
    apply filter_In. split; [assumption|]. apply having_complete in Hc as [Hne Hh].
    destruct (joinedParts st b); [contradiction|assumption].
Qed.

Lemma complete_scanBinary (st : Store) (b b' : BinaryRow) :
  scanBinary b' = scanBinary b -> spec.joinedComplete 100 st b' -> spec.joinedComplete 100 st b.
Proof.
  unfold scanBinary. intros [= Hid _ _ _ Htotal].
  unfold spec.joinedComplete, spec.countedParts, spec.partsOf. rewrite Hid, Htotal. tauto.
Qed.

Lemma complete_iff (st : Store) (b : BinaryRow) :
  spec.joinedComplete 100 st b
  <-> Binary_TotalParts b <= Z.of_nat (List.length (spec.countedParts st b))
      /\ 0 < sumZ (List.map Part_TotalSegments (spec.countedParts st b))
      /\ sumZ (List.map Part_TotalSegments (spec.countedParts st b))
         <= sumZ (List.map (spec.available st) (spec.countedParts st b)).
Proof.
  unfold spec.joinedComplete. cbv zeta. rewrite percentage_rational; [tauto|].
  apply sumZ_nonneg, List.Forall_forall.
  intros x [p [<- _]]%in_map_iff. unfold spec.available. lia.
Qed.

Lemma filter_all {A : Type} (f : A -> bool) (l : list A) :
  (forall x, In x l -> f x = true) -> List.filter f l = l.
Proof.
  induction l as [|x l IH]; intros H; [reflexivity|]. cbn.
  rewrite (H x) by (left; reflexivity). f_equal. apply IH. intros y Hy. apply H. right. exact Hy.
Qed.

Lemma filter_length_le {A : Type} (f : A -> bool) (l : list A) :
  (List.length (List.filter f l) <= List.length l)%nat.
Proof. induction l as [|x l IH]; cbn; [lia|]. destruct (f x); cbn; lia. Qed.

Lemma filter_full {A : Type} (f : A -> bool) (l : list A) :
  (List.length l <= List.length (List.filter f l))%nat -> List.filter f l = l.
Proof.
  induction l as [|x l IH]; [reflexivity|]. cbn. pose proof (filter_length_le f l) as Hle.
  destruct (f x); cbn; intros H; [f_equal; apply IH|]; lia.
Qed.

Lemma sumZ_le (f g : PartRow -> Z) (l : list PartRow) :
  (forall p, In p l -> f p <= g p) ->
  sumZ (List.map f l) <= sumZ (List.map g l).
Proof.
  unfold sumZ. induction l as [|x l IH]; intros H; cbn; [lia|].
  specialize (H x (or_introl eq_refl)) as Hx.
  assert (fold_right Z.add 0 (List.map f l) <= fold_right Z.add 0 (List.map g l)); [|lia].
  apply IH. intros p Hp. apply H. right. exact Hp.
Qed.

Lemma sumZ_lt (f g : PartRow -> Z) (l : list PartRow) :
  (forall p, In p l -> f p <= g p) ->
  (exists p, In p l /\ f p < g p) ->
  sumZ (List.map f l) < sumZ (List.map g l).
Proof.
  induction l as [|x l IH]; intros H (p & Hp & Hlt); [destruct Hp|].
  assert (Hl : forall p, In p l -> f p <= g p) by (intros q Hq; apply H; right; exact Hq).
  pose proof (sumZ_le f g l Hl) as Hle. pose proof (H x (or_introl eq_refl)) as Hx.
  unfold sumZ in *. cbn. destruct Hp as [->|Hp]; [lia|].
  assert (fold_right Z.add 0 (List.map f l) < fold_right Z.add 0 (List.map g l)); [|lia].
  apply IH; [exact Hl|]. exists p. split; assumption.
Qed.

(** A Binary whose Parts are all there with all of their Segments is ready. *)
Lemma ready_when_full (st : Store) (b : BinaryRow) :
  In b (binaries st) ->
  0 < Binary_TotalParts b ->
  Binary_TotalParts b = Z.of_nat (List.length (spec.partsOf st b)) ->
  (forall p, In p (spec.partsOf st b) ->
             0 < Part_TotalSegments p /\ spec.available st p = Part_TotalSegments p) ->
  In (scanBinary b) (readyBinaries 100 st).
Proof.
  intros Hb Hpos Hn Hfull. apply In_readyBinaries. exists b.
  split; [assumption|]. split; [reflexivity|].
  apply complete_iff. unfold spec.countedParts.
  rewrite filter_all by (intros p Hp; apply Z.ltb_lt; destruct (Hfull p Hp); lia).
  split; [lia|].
  rewrite (List.map_ext_in (spec.available st) Part_TotalSegments)
    by (intros p Hp; apply Hfull, Hp).
  split; [|lia].
  destruct (spec.partsOf st b) as [|p ps]; [cbn in Hn; lia|].
  assert (0 <= sumZ (List.map Part_TotalSegments ps)).
  { apply sumZ_nonneg, List.Forall_forall. intros x [q [<- Hq]]%in_map_iff.
    destruct (Hfull q (or_intror Hq)). lia. }
  destruct (Hfull p (or_introl eq_refl)). unfold sumZ in *. cbn. lia.
Qed.

(** A Binary that lacks a Part with a Segment is not ready. *)
Lemma not_ready_when_part_missing (st : Store) (b : BinaryRow) :
  Z.of_nat (List.length (spec.countedParts st b)) < Binary_TotalParts b ->
  ~ In (scanBinary b) (readyBinaries 100 st).
Proof.
  intros Hlt (b' & _ & Hscan & Hc)%In_readyBinaries.
  apply (complete_scanBinary st b b') in Hc; [|congruence].
  apply complete_iff in Hc as (Hn & _). lia.
Qed.

Lemma countedParts_In (st : Store) (b : BinaryRow) (p : PartRow) :
  In p (spec.countedParts st b) <-> In p (spec.partsOf st b) /\ 0 < spec.available st p.
Proof. unfold spec.countedParts. rewrite filter_In, Z.ltb_lt. tauto. Qed.

(** A Binary none of whose Parts has more Segments than it should have,
    and one of whose Parts has some but not all of its Segments, is not
    ready. *)
Lemma not_ready_when_segment_missing (st : Store) (b : BinaryRow) :
  (forall p, In p (spec.partsOf st b) -> spec.available st p <= Part_TotalSegments p) ->
  (exists p, In p (spec.partsOf st b)
             /\ 0 < spec.available st p < Part_TotalSegments p) ->
  ~ In (scanBinary b) (readyBinaries 100 st).
Proof.
  intros Hle (p & Hp & Hpos & Hlt) (b' & _ & Hscan & Hc)%In_readyBinaries.
  apply (complete_scanBinary st b b') in Hc; [|congruence].
  apply complete_iff in Hc as (_ & _ & Hsum).
  assert (Hless : sumZ (List.map (spec.available st) (spec.countedParts st b))
                  < sumZ (List.map Part_TotalSegments (spec.countedParts st b))); [|lia].
  apply sumZ_lt.
  - intros q [Hq _]%countedParts_In. apply Hle, Hq.
  - exists p. split; [apply countedParts_In; split; assumption|exact Hlt].
Qed.

(** A Binary with just its Parts, none with more Segments than it should
    have and one with fewer, is not ready. *)
Lemma not_ready_when_short (st : Store) (b : BinaryRow) :
  Binary_TotalParts b = Z.of_nat (List.length (spec.partsOf st b)) ->
  (forall p, In p (spec.partsOf st b) -> spec.available st p <= Part_TotalSegments p) ->
  (exists p, In p (spec.partsOf st b) /\ spec.available st p < Part_TotalSegments p) ->
  ~ In (scanBinary b) (readyBinaries 100 st).
Proof.
  intros Hn Hle Hlt (b' & _ & Hscan & Hc)%In_readyBinaries.
  apply (complete_scanBinary st b b') in Hc; [|congruence].
  apply complete_iff in Hc as (Hcount & _ & Hsum). unfold spec.countedParts in *.
  rewrite filter_full in Hsum by lia.
  pose proof (sumZ_lt (spec.available st) Part_TotalSegments (spec.partsOf st b) Hle Hlt). lia.
Qed.

(** When every Part of a Binary has a Segment, the query answers as the
    spec words it. *)
Lemma ready_as_worded (st : Store) (b : BinaryRow) :
  In b (binaries st) ->
  (forall p, In p (spec.partsOf st b) -> 0 < spec.available st p) ->
  In (scanBinary b) (readyBinaries 100 st) <-> spec.complete 100 st b.
Proof.
  intros Hb Hall.
  assert (Hc : spec.countedParts st b = spec.partsOf st b).
  { unfold spec.countedParts. apply filter_all. intros p Hp. apply Z.ltb_lt, Hall, Hp. }
  assert (He : spec.complete 100 st b <-> spec.joinedComplete 100 st b).
  { unfold spec.complete, spec.joinedComplete. rewrite Hc. tauto. }
  rewrite He, In_readyBinaries. split.
  - intros (b' & _ & Hscan & Hj). apply (complete_scanBinary st b b'); [congruence|exact Hj].
  - intros Hj. exists b. auto.
Qed.

(** C1, as the code has it: the completeness query returns a Binary
    exactly when at least [total_parts] of its Parts have a Segment and the
    summed availability reaches 100 percent, where the sums are taken over
    the Parts that have a Segment (the inner join drops the others); when
    every Part of the Binary has a Segment, this is the condition of the
    spec, summed across its Parts.  So a Binary with just its [total_parts]
    Parts, each with all of its Segments, is returned; one with fewer than
    [total_parts] Parts that have a Segment is not; and one none of whose
    Parts has more Segments than it should have is not returned when a Part
    has some but not all of its Segments, or when it has just its
    [total_parts] Parts and one of them is short of Segments. *)
Theorem readyBinaries_complete (st : Store) :
  (forall c : Binary,
      In c (readyBinaries 100 st)
      <-> exists b, In b (binaries st) /\ c = scanBinary b /\ spec.joinedComplete 100 st b)
  /\ (forall b : BinaryRow,
         In b (binaries st) ->
         (forall p, In p (spec.partsOf st b) -> 0 < spec.available st p) ->
         In (scanBinary b) (readyBinaries 100 st) <-> spec.complete 100 st b)
  /\ (forall b : BinaryRow,
         In b (binaries st) ->
         0 < Binary_TotalParts b ->
         Binary_TotalParts b = Z.of_nat (List.length (spec.partsOf st b)) ->
         (forall p, In p (spec.partsOf st b) ->
                    0 < Part_TotalSegments p
                    /\ spec.available st p = Part_TotalSegments p) ->
         In (scanBinary b) (readyBinaries 100 st))
  /\ (forall b : BinaryRow,
         Z.of_nat (List.length (spec.countedParts st b)) < Binary_TotalParts b ->
         ~ In (scanBinary b) (readyBinaries 100 st))
  /\ (forall b : BinaryRow,
         (forall p, In p (spec.partsOf st b) ->
                    spec.available st p <= Part_TotalSegments p) ->
         (exists p, In p (spec.partsOf st b)
                    /\ 0 < spec.available st p < Part_TotalSegments p) ->
         ~ In (scanBinary b) (readyBinaries 100 st))
  /\ (forall b : BinaryRow,
         Binary_TotalParts b = Z.of_nat (List.length (spec.partsOf st b)) ->
         (forall p, In p (spec.partsOf st b) ->
                    spec.available st p <= Part_TotalSegments p) ->
         (exists p, In p (spec.partsOf st b)
                    /\ spec.available st p < Part_TotalSegments p) ->
         ~ In (scanBinary b) (readyBinaries 100 st)).
Proof.
  split; [exact (In_readyBinaries st)|].
  split; [exact (ready_as_worded st)|].
  split; [exact (ready_when_full st)|].
  split; [exact (not_ready_when_part_missing st)|].
  split; [exact (not_ready_when_segment_missing st)|exact (not_ready_when_short st)].
Qed.

Lemma readyBinaries_complete_witness :
  In (scanBinary (mkBinaryRow 1 "h1" "One.File" 100 "me" "alt.b" 3))
    (readyBinaries 100 threeBinaries)
  /\ ~ In (scanBinary (mkBinaryRow 2 "h2" "Two.File" 101 "me" "alt.b" 3))
         (readyBinaries 100 threeBinaries)
  /\ ~ In (scanBinary (mkBinaryRow 3 "h3" "Three.File" 102 "me" "alt.b" 3))
         (readyBinaries 100 threeBinaries).
Proof.
  destruct (readyBinaries_complete threeBinaries) as (_ & _ & Hfull & Hpart & Hseg & _).
  split; [|split].
  - apply Hfull; [left; reflexivity|reflexivity|reflexivity|].
    intros p Hp. vm_compute in Hp.
    destruct Hp as [<-|[<-|[<-|[]]]]; split; reflexivity.
  - apply Hpart. reflexivity.
  - apply Hseg.
    + intros p Hp. vm_compute in Hp.
      destruct Hp as [<-|[<-|[<-|[]]]]; vm_compute; discriminate.
    + eexists. split; [left; reflexivity|]. split; reflexivity.
Defined.

(** C1 fails at these inputs.  In the first store the Binary expects three
    Parts and has three; the first has one of its two Segments, the second
    has two Segments where it should have one: the sums are 4 of 4 and the
    query returns the Binary, with a Part at 50 percent.  In the second
    store the Binary expects two Parts and has three; the first has none of
    its five Segments, so the join drops it: the query returns the Binary
    at 2 of 2, where the sum across its Parts is 2 of 7. *)
Lemma part_under_full_counterexample :
  (In (scanBinary overFullBinary) (readyBinaries 100 overFull)
   /\ exists p, In p (spec.partsOf overFull overFullBinary)
                /\ spec.available overFull p < Part_TotalSegments p)
  /\ (In (scanBinary emptyPartBinary) (readyBinaries 100 emptyPart)
      /\ sumZ (List.map (spec.available emptyPart) (spec.partsOf emptyPart emptyPartBinary)) = 2
      /\ sumZ (List.map Part_TotalSegments (spec.partsOf emptyPart emptyPartBinary)) = 7
      /\ ~ spec.complete 100 emptyPart emptyPartBinary).
Proof.
  split; [split|split; [|split; [|split]]].
  - vm_compute. left. reflexivity.
  - exists (mkPartRow 1 "subject" "alt.b" "me" 50 2 (Some 1)).
    split; [left; reflexivity|]. vm_compute. reflexivity.
  - vm_compute. left. reflexivity.
  - vm_compute. reflexivity.
  - vm_compute. reflexivity.
  - intros [_ H]. vm_compute in H. apply H. reflexivity.
Qed.

(** * The release promoter *)

Import promotion.

Section Promoter.

Variable flt : Faults.
Variable WriteNZB : Binary -> error + string.

Local Abbreviation txFails := (promotion.txFails flt).
Local Abbreviation dbrelOf := (promotion.dbrelOf flt).
Local Abbreviation groupOf := (promotion.groupOf flt).
Local Abbreviation turn := (promotion.turn flt WriteNZB).

Lemma world_eta (w : World) : mkWorld (store_of w) (logs w) = w.
Proof. destruct w; reflexivity. Qed.

Lemma releaseTx_cases (newrel : Release) (dbbin : Binary) (w : World) :
  (txFails newrel dbbin /\ exists e, releaseTx flt newrel dbbin w = (Failed e, w))
  \/ (~ txFails newrel dbbin
      /\ releaseTx flt newrel dbbin w
         = (Ok tt, mkWorld (committed newrel dbbin (store_of w)) (logs w))).
Proof.
  unfold promotion.txFails, releaseTx, committed, bind, Begin, orRollback, Rollback, Commit,
    putStore, fail, ret, txExec. cbn.
  destruct (txSave_err flt newrel) as [e|]; cbn.
  { left. split; [left; discriminate|]. exists e. rewrite world_eta. reflexivity. }
  destruct (txDeleteParts_err flt _) as [e|]; cbn.
  { left. split; [right; left; discriminate|]. exists e. rewrite world_eta. reflexivity. }
  destruct (txDeleteSegments_err flt _) as [e|]; cbn.
  { left. split; [right; right; left; discriminate|]. exists e. rewrite world_eta. reflexivity. }
  destruct (txDeleteBinary_err flt _) as [e|]; cbn.
  { left. split; [right; right; right; discriminate|]. exists e. rewrite world_eta. reflexivity. }
  right. split; [|reflexivity]. intros [H|[H|[H|H]]]; apply H; reflexivity.
Qed.

Lemma promote_turn (b : Binary) (w : World) : turn b w (promote flt WriteNZB b w).
Proof.
  unfold promote. unfold bind at 1. unfold getStore.
  pose proof (eq_refl (dbrelOf b (store_of w))) as Hrel. unfold promotion.dbrelOf at 2 in Hrel.
  pose proof (eq_refl (groupOf b (store_of w))) as Hgrp. unfold promotion.groupOf at 2 in Hgrp.
  destruct (findRelease_err flt _ _) as [[|msg]|] eqn:Hf;
    [| apply (turn_lookup_error _ _ _ _ msg Hf) |].
  2: destruct (firstRelease _ _ _) as [r|];
    [change (default zeroRelease (Some r)) with r in Hrel
    |change (default zeroRelease None) with zeroRelease in Hrel].
  all: cbn beta iota; rewrite <- Hrel; clear Hrel.
  all: destruct (Z.eqb_spec (Release_ID (dbrelOf b (store_of w))) 0) as [Hz|Hnz];
    cbn [negb]; [|apply turn_duplicate, Hnz].
  all: unfold bind at 1, check.
  all: destruct (loadBinary_err flt _) as [e|] eqn:Hle;
    [apply turn_load_error; [exact Hz|left; exact Hle]|].
  all: unfold ret; cbn beta iota.
  all: destruct (loadBinary _ _) as [dbbin|] eqn:Hload;
    [|apply turn_load_error; [exact Hz|right; split; [exact Hload|reflexivity]]].
  all: unfold bind at 1, FindGroupByName.
  all: destruct (findGroup_err flt _) as [ge|];
    [|destruct (firstGroup _ _) as [g|]].
  all: cbn beta iota; unfold bind, log, ret, fail, panic; cbn beta iota.
  all: destruct (WriteNZB dbbin) as [e|nzbstr] eqn:Hnzb;
    [eapply turn_manifest_error; eauto|].
  all: try (eapply turn_no_group; eauto).
  all: eapply turn_transaction; eauto.
Qed.

Lemma firstByID_acc {A : Type} (key : A -> Z) (l : list A) (x : A) :
  exists y,
    fold_left
      (fun best r =>
         match best with
         | Some b => if key r <? key b then Some r else Some b
         | None => Some r
         end) l (Some x) = Some y
    /\ (y = x \/ In y l).
Proof.
  revert x. induction l as [|a l IH]; intros x; cbn [fold_left].
  - exists x. split; [reflexivity|left; reflexivity].
  - destruct (key a <? key x).
    + destruct (IH a) as (y & Hy & Hin). exists y. split; [exact Hy|].
      destruct Hin as [->|Hin]; cbn; auto.
    + destruct (IH x) as (y & Hy & Hin). exists y. split; [exact Hy|].
      destruct Hin as [->|Hin]; cbn; auto.
Qed.

Lemma firstByID_In {A : Type} (key : A -> Z) (l : list A) (r : A) :
  firstByID key l = Some r -> In r l.
Proof.
  unfold firstByID. destruct l as [|a l]; [discriminate|]. cbn [fold_left].
  destruct (firstByID_acc key l a) as (y & Hy & Hin). rewrite Hy. intros [= <-].
  destruct Hin as [->|Hin]; [left; reflexivity|right; exact Hin].
Qed.

Lemma firstByID_None {A : Type} (key : A -> Z) (l : list A) :
  firstByID key l = None -> l = [].
Proof.
  unfold firstByID. destruct l as [|a l]; [reflexivity|]. cbn [fold_left].
  destruct (firstByID_acc key l a) as (y & Hy & _). rewrite Hy. discriminate.
Qed.

(** When the lookup of line 314 goes through and the releases have non-zero
    keys, [dbrel] has a non-zero key exactly when a Release of that name and
    date is there. *)
Lemma dbrelOf_found (b : Binary) (st : Store) :
  findRelease_err flt (Binary_Name (Binary_row b)) (Binary_Posted (Binary_row b)) = None ->
  (forall r, In r (releases st) -> Release_ID r <> 0) ->
  Release_ID (dbrelOf b st) <> 0
  <-> exists r, In r (releases st)
                /\ Release_Name r = Binary_Name (Binary_row b)
                /\ Release_Posted r = Binary_Posted (Binary_row b).
Proof.
  intros Hf Hids. unfold promotion.dbrelOf, firstRelease. rewrite Hf.
  destruct (firstByID _ _) as [r|] eqn:Hr; cbn [default].
  - apply firstByID_In, filter_In in Hr as [Hin Hm].
    apply andb_true_iff in Hm as [Hn Hp]. apply String.eqb_eq in Hn. apply Z.eqb_eq in Hp.
    split; [|intros _; apply Hids, Hin]. intros _. exists r. auto.
  - apply firstByID_None in Hr. split; [intros H; exfalso; apply H; reflexivity|].
    intros (r & Hin & Hn & Hp). exfalso.
    assert (Hr' : In r (List.filter
      (fun r => String.eqb (Release_Name r) (Binary_Name (Binary_row b))
                && (Release_Posted r =? Binary_Posted (Binary_row b))) (releases st))).
    { apply filter_In. split; [exact Hin|]. rewrite Hn, Hp, String.eqb_refl, Z.eqb_refl. reflexivity. }
    rewrite Hr in Hr'. destruct Hr'.
Qed.

Lemma turn_store (b : Binary) (w w' : World) (r : outcome unit) :
  turn b w (r, w') -> r <> Ok tt -> store_of w' = store_of w.
Proof.
  intros Ht Hr. inversion Ht as [| | | | |dbbin g nzbstr _ _ _ _ _ Htx];
    subst; try reflexivity; try congruence.
  destruct (releaseTx_cases (newRelease b g dbbin nzbstr) dbbin w) as [[_ [e He]]|[_ He]];
    rewrite He in Htx; injection Htx as <- <-; [reflexivity|].
  exfalso. apply Hr. reflexivity.
Qed.

(** Whatever a candidate's turn ends with other than success, the store is
    as it was. *)
Lemma promote_store (b : Binary) (w w' : World) (r : outcome unit) :
  promote flt WriteNZB b w = (r, w') -> r <> Ok tt -> store_of w' = store_of w.
Proof. intros H. apply (turn_store b). rewrite <- H. apply promote_turn. Qed.

Lemma promote_duplicate (b : Binary) (w : World) :
  Release_ID (dbrelOf b (store_of w)) <> 0 ->
  (forall msg, findRelease_err flt (Binary_Name (Binary_row b)) (Binary_Posted (Binary_row b))
               <> Some (Other msg)) ->
  promote flt WriteNZB b w
  = (Ok tt, addLog (DuplicateBinary (Binary_Name (Binary_row b))) w).
Proof.
  intros Hnz Hf. pose proof (promote_turn b w) as Ht.
  inversion Ht; try congruence.
Qed.

(** The loop stops at the first candidate whose turn fails. *)
Lemma forEach_app_failed (done rest : list Binary) (c : Binary) (w w1 w2 : World)
  (r : outcome unit) :
  forEach (promote flt WriteNZB) done w = (Ok tt, w1) ->
  promote flt WriteNZB c w1 = (r, w2) ->
  r <> Ok tt ->
  forEach (promote flt WriteNZB) (done ++ c :: rest) w = (r, w2).
Proof.
  revert w. induction done as [|d done IH]; intros w Hd Hc Hr.
  - cbn in Hd. injection Hd as ->. cbn [app forEach]. unfold bind. rewrite Hc.
    destruct r as [[]| |]; [contradiction|reflexivity|reflexivity].
  - cbn [app forEach] in *. unfold bind in *.
    destruct (promote flt WriteNZB d w) as [[[]| |] wd]; try discriminate.
    apply IH; assumption.
Qed.

Lemma promote_transaction (b : Binary) (w : World) (dbbin : Binary) (g : Group)
  (nzbstr : string) :
  (forall msg, findRelease_err flt (Binary_Name (Binary_row b)) (Binary_Posted (Binary_row b))
               <> Some (Other msg)) ->
  Release_ID (dbrelOf b (store_of w)) = 0 ->
  loadBinary_err flt (Binary_ID (Binary_row b)) = None ->
  loadBinary (Binary_ID (Binary_row b)) (store_of w) = Some dbbin ->
  groupOf b (store_of w) = Some g ->
  WriteNZB dbbin = inr nzbstr ->
  promote flt WriteNZB b w = releaseTx flt (newRelease b g dbbin nzbstr) dbbin w.
Proof.
  intros Hf Hz Hle Hload Hg Hnzb. pose proof (promote_turn b w) as Ht.
  inversion Ht as [msg Hm| | e _ [He|[He _]] | d e w' _ Hd He | d s _ _ Hd Hg' |
                   d g' s _ _ Hd Hg' Hs]; congruence.
Qed.

(** A manifest that cannot be built ends the turn with its error. *)
Lemma promote_manifest_error (b : Binary) (w : World) (dbbin : Binary) (e : error) :
  (forall msg, findRelease_err flt (Binary_Name (Binary_row b)) (Binary_Posted (Binary_row b))
               <> Some (Other msg)) ->
  Release_ID (dbrelOf b (store_of w)) = 0 ->
  loadBinary_err flt (Binary_ID (Binary_row b)) = None ->
  loadBinary (Binary_ID (Binary_row b)) (store_of w) = Some dbbin ->
  WriteNZB dbbin = inl e ->
  exists w', promote flt WriteNZB b w = (Failed e, w') /\ store_of w' = store_of w.
Proof.
  intros Hf Hz Hle Hload Hnzb. pose proof (promote_turn b w) as Ht.
  inversion Ht as [msg Hm| | e' _ [He|[He _]] | d e' w' _ Hd He Hst | d s _ _ Hd Hg' Hs |
                   d g' s _ _ Hd Hg' Hs]; try congruence.
  exists w'. split; [|exact Hst]. congruence.
Qed.

(** C2: the insert of the Release and the three deletions are one
    transaction.  When one of the four statements fails, the transaction
    returns the error and leaves the store and the log as they were; when
    none fails, the store is the one with the Release inserted and the
    Binary, its Parts and their Segments deleted.  A candidate whose turn
    ends in an error leaves the store as it was, so the query returns the
    same candidates on the next run. *)
Theorem transaction_all_or_nothing (w : World) :
  (forall newrel dbbin,
      txFails newrel dbbin ->
      exists e, releaseTx flt newrel dbbin w = (Failed e, w))
  /\ (forall newrel dbbin,
         ~ txFails newrel dbbin ->
         releaseTx flt newrel dbbin w
         = (Ok tt, mkWorld (committed newrel dbbin (store_of w)) (logs w)))
  /\ (forall b dbbin g nzbstr,
         (forall msg, findRelease_err flt (Binary_Name (Binary_row b))
                        (Binary_Posted (Binary_row b)) <> Some (Other msg)) ->
         Release_ID (dbrelOf b (store_of w)) = 0 ->
         loadBinary_err flt (Binary_ID (Binary_row b)) = None ->
         loadBinary (Binary_ID (Binary_row b)) (store_of w) = Some dbbin ->
         groupOf b (store_of w) = Some g ->
         WriteNZB dbbin = inr nzbstr ->
         txFails (newRelease b g dbbin nzbstr) dbbin ->
         exists e, promote flt WriteNZB b w = (Failed e, w))
  /\ (forall b e w',
         promote flt WriteNZB b w = (Failed e, w') ->
         store_of w' = store_of w
         /\ readyBinaries 100 (store_of w') = readyBinaries 100 (store_of w)).
Proof.
  split; [|split; [|split]].
  - intros newrel dbbin Hfail.
    destruct (releaseTx_cases newrel dbbin w) as [[_ He]|[Hn _]]; [exact He|contradiction].
  - intros newrel dbbin Hok.
    destruct (releaseTx_cases newrel dbbin w) as [[Hn _]|[_ He]]; [contradiction|exact He].
  - intros b dbbin g nzbstr Hf Hz Hle Hload Hg Hnzb Hfail.
    rewrite (promote_transaction b w dbbin g nzbstr) by assumption.
    destruct (releaseTx_cases (newRelease b g dbbin nzbstr) dbbin w) as [[_ He]|[Hn _]];
      [exact He|contradiction].
  - intros b e w' H. apply promote_store in H; [|discriminate].
    split; [exact H|rewrite H; reflexivity].
Qed.


(** C5: a candidate whose name and date are those of a Release of the store
    is skipped: its turn returns without an error, logs the duplicate and
    leaves the store, and so the Releases and the rows of the Binary, as they
    were; the loop goes on with the next candidate. *)
Theorem duplicate_candidate_skipped (b : Binary) (rest : list Binary) (w : World) :
  findRelease_err flt (Binary_Name (Binary_row b)) (Binary_Posted (Binary_row b)) = None ->
  (forall r, In r (releases (store_of w)) -> Release_ID r <> 0) ->
  (exists r, In r (releases (store_of w))
             /\ Release_Name r = Binary_Name (Binary_row b)
             /\ Release_Posted r = Binary_Posted (Binary_row b)) ->
  let w' := addLog (DuplicateBinary (Binary_Name (Binary_row b))) w in
  promote flt WriteNZB b w = (Ok tt, w')
  /\ store_of w' = store_of w
  /\ forEach (promote flt WriteNZB) (b :: rest) w
     = forEach (promote flt WriteNZB) rest w'.
Proof.
  intros Hf Hids Hdup w'.
  assert (Hp : promote flt WriteNZB b w = (Ok tt, w')).
  { apply promote_duplicate; [|rewrite Hf; discriminate].
    apply dbrelOf_found; assumption. }
  split; [exact Hp|]. split; [reflexivity|].
  cbn [forEach]. unfold bind. rewrite Hp. reflexivity.
Qed.

End Promoter.
Lemma transaction_all_or_nothing_witness :
  (exists e, promote segmentDeleteFails manifestOk (scanBinary two) (mkWorld twoReady [])
             = (Failed e, mkWorld twoReady []))
  /\ fst (promote noFaults manifestOk (scanBinary two) (mkWorld twoReady [])) = Ok tt.
Proof.
  destruct (transaction_all_or_nothing segmentDeleteFails manifestOk (mkWorld twoReady []))
    as (_ & _ & Hfail & _).
  destruct (transaction_all_or_nothing noFaults manifestOk (mkWorld twoReady []))
    as (_ & Hok & _ & _).
  split.
  - eapply Hfail;
      [discriminate | reflexivity | reflexivity | vm_compute; reflexivity
      | vm_compute; reflexivity | reflexivity | right; right; left; discriminate].
  - erewrite (promote_transaction noFaults manifestOk (scanBinary two));
      [ rewrite Hok; [reflexivity|]
      | discriminate | reflexivity | reflexivity | vm_compute; reflexivity
      | vm_compute; reflexivity | reflexivity ].
    intros [H|[H|[H|H]]]; apply H; reflexivity.
Defined.



(** C4 fails on the code: the Group of the candidate is not in the store,
    so [FindGroupByName] returns a nil pointer with its error; the error is
    logged, and the dereference of the pointer at line 346 panics.  No
    Release is made. *)
Theorem unknown_group_panics :
  MakeReleases noFaults manifestOk (mkWorld noGroup [])
  = (Panicked, mkWorld noGroup [UnknownGroup "alt.b" 2 "Two.File"]).
Proof. vm_compute. reflexivity. Qed.

Lemma duplicate_candidate_skipped_witness :
  MakeReleases noFaults manifestOk (mkWorld alreadyReleased [])
  = forEach (promote noFaults manifestOk) [scanBinary one]
      (mkWorld alreadyReleased [DuplicateBinary "Two.File"]).
Proof.
  unfold MakeReleases, bind, check, getStore. cbn [readyQuery_err noFaults store_of].
  change (readyBinaries 100 alreadyReleased) with (sortByPosted [scanBinary one; scanBinary two]).
  change (sortByPosted [scanBinary one; scanBinary two]) with [scanBinary two; scanBinary one].
  apply (duplicate_candidate_skipped noFaults manifestOk (scanBinary two) [scanBinary one]
           (mkWorld alreadyReleased [])).
  - reflexivity.
  - intros r [<-|[]]. discriminate.
  - eexists. split; [left; reflexivity|]. split; reflexivity.
Defined.

(** * The binary grouper *)

Import spec grouping.

Lemma subjectFields_world (subject : string) (w w' : World) :
  fst (subjectFields subject w) = fst (subjectFields subject w').
Proof.
  unfold subjectFields, ret, panic.
  repeat match goal with
         | |- context [match ?x with _ => _ end] => destruct x
         end; reflexivity.
Qed.

Lemma groupPart_step (bins : gmap string Binary) (p : Part) (w : World) :
  exists lg,
    groupPart noFaults bins p w
    = (Ok (fst (groupStep (bins, store_of w) p)),
       mkWorld (snd (groupStep (bins, store_of w) p)) lg).
Proof.
  destruct (subjectFields_total (Part_Subject (Part_row p)) w) as (m & Hm & _).
  pose proof (subjectFields_world (Part_Subject (Part_row p)) w emptyWorld) as Hw.
  rewrite Hm in Hw. cbn [fst] in Hw.
  unfold groupPart, groupStep, hashOf, created, parsedSubject, bind. rewrite Hm, <- Hw.
  destruct (hasNameAndParts m) eqn:Hnp; cbn [negb]; [|eexists; reflexivity].
  cbv zeta. rewrite !get_normalized.
  destruct (Z.eqb_spec (Index (normalizeParts (get m "parts")) "/") (-1)) as [Hi|Hi].
  { apply Index_cut in Hi. unfold SplitN2. rewrite Hi. eexists. reflexivity. }
  destruct (SplitN2_slash _ Hi) as (index & total & Hs & _). rewrite Hs.
  cbn [lookup list_lookup].
  assert (Hname : get (if Index (get m "parts") "/" =? -1
                       then <["parts" := normalizeParts (get m "parts")]> m else m) "name"
                  = get m "name").
  { destruct (_ =? _); [|reflexivity]. unfold get. rewrite lookup_insert_ne by discriminate. reflexivity. }
  rewrite !Hname.
  set (h := makeBinaryHash _ _ _ _).
  unfold saveAt. 
  destruct (bins !! h) as [bin|] eqn:Hb; rewrite lookup_insert_eq;
    unfold bind, check, getStore, putStore, ret; cbn [saveBinary_err noFaults];
    destruct (saveBinary _ (store_of w)) as [bin' st'] eqn:Hsave; cbn;
    rewrite insert_insert_eq; eexists; reflexivity.
Qed.

(** The loop of the grouper without store faults is the fold of [groupStep]. *)
Lemma groupParts_fold (ps : list Part) (bins : gmap string Binary) (w : World) :
  exists lg,
    groupParts noFaults bins ps w
    = (Ok (fst (fold_left groupStep ps (bins, store_of w))),
       mkWorld (snd (fold_left groupStep ps (bins, store_of w))) lg).
Proof.
  revert bins w. induction ps as [|p ps IH]; intros bins w.
  - exists (logs w). cbn. destruct w; reflexivity.
  - cbn [groupParts fold_left]. unfold bind.
    destruct (groupPart_step bins p w) as [lg ->].
    destruct (IH (fst (groupStep (bins, store_of w) p))
                (mkWorld (snd (groupStep (bins, store_of w) p)) lg)) as [lg' ->].
    exists lg'. cbn [store_of]. rewrite <- surjective_pairing. reflexivity.
Qed.

(** ** Saving a Binary *)

Lemma writes_map (qs rows : list PartRow) :
  fold_left (fun rows q => writePart q rows) qs rows = List.map (lastWrite qs) rows.
Proof.
  revert rows. induction qs as [|q qs IH]; intros rows; cbn [fold_left].
  - unfold lastWrite. cbn. rewrite List.map_id. reflexivity.
  - rewrite IH. unfold writePart. rewrite List.map_map. reflexivity.
Qed.

Lemma lastWrite_same (qs : list PartRow) (x y : PartRow) :
  Part_ID y = Part_ID x ->
  (forall q, In q qs -> Part_ID q = Part_ID x -> q = y) ->
  lastWrite qs x = if existsb (fun q => Part_ID q =? Part_ID x) qs then y else x.
Proof.
  intros Hy. unfold lastWrite.
  assert (Hgen : forall acc, (acc = x \/ acc = y) ->
            (forall q, In q qs -> Part_ID q = Part_ID x -> q = y) ->
            fold_left (fun acc q => if Part_ID acc =? Part_ID q then q else acc) qs acc
            = if existsb (fun q => Part_ID q =? Part_ID x) qs then y else acc).
  { induction qs as [|q qs IH]; intros acc Hacc Hq; [reflexivity|].
    cbn [fold_left existsb].
    assert (Hid : Part_ID acc = Part_ID x) by (destruct Hacc; subst; auto).
    rewrite Hid, (Z.eqb_sym (Part_ID x)).
    destruct (Z.eqb_spec (Part_ID q) (Part_ID x)) as [He|Hne]; cbn [orb].
    - rewrite (Hq q (or_introl eq_refl) He).
      rewrite IH; [|right; reflexivity|intros q' Hq'; apply Hq; right; exact Hq'].
      destruct (existsb _ qs); reflexivity.
    - apply IH; [exact Hacc|intros q' Hq'; apply Hq; right; exact Hq']. }
  intros Hq. apply Hgen; [left; reflexivity|exact Hq].
Qed.

Lemma saveBinary_parts (b : Binary) (st : Store) :
  parts (snd (saveBinary b st))
  = List.map
      (lastWrite
         (List.map
            (fun p => setPartBinaryID (Some (Binary_ID (Binary_row (fst (saveBinary b st)))))
                        (Part_row p))
            (Binary_Parts b)))
      (parts st).
Proof.
  unfold saveBinary. cbn [fst snd Binary_row Binary_ID setBinaryID].
  set (id := if Binary_ID (Binary_row b) =? 0 then _ else _).
  set (st0 := withBinaries _ st).
  change (parts st) with (parts st0). clearbody st0.
  rewrite <- writes_map.
  revert st0. induction (Binary_Parts b) as [|p ps IH]; intros st0; [reflexivity|].
  cbn [List.map fold_left]. rewrite IH. reflexivity.
Qed.

Lemma saveBinary_binaries (b : Binary) (st : Store) :
  binaries (snd (saveBinary b st))
  = if Binary_ID (Binary_row b) =? 0
    then (binaries st ++ [Binary_row (fst (saveBinary b st))])%list
    else List.map
           (fun r => if Binary_ID r =? Binary_ID (Binary_row b)
                     then Binary_row (fst (saveBinary b st)) else r)
           (binaries st).
Proof.
  unfold saveBinary. cbn [fst snd Binary_row].
  set (rows := if Binary_ID (Binary_row b) =? 0 then (_ ++ _)%list else _).
  assert (H : forall ps st0,
             binaries (fold_left (fun st p => updatePart (Part_row p) st) ps st0)
             = binaries st0).
  { induction ps as [|p ps IH]; intros st0; [reflexivity|]. cbn [fold_left]. rewrite IH. reflexivity. }
  rewrite H. cbn [binaries withBinaries]. subst rows.
  destruct (Z.eqb_spec (Binary_ID (Binary_row b)) 0) as [Hz|Hnz]; reflexivity.
Qed.

Lemma saveBinary_fst (b : Binary) (st : Store) :
  fst (saveBinary b st)
  = let id := if Binary_ID (Binary_row b) =? 0
              then nextID (List.map Binary_ID (binaries st))
              else Binary_ID (Binary_row b) in
    mkBinary (setBinaryID id (Binary_row b))
      (List.map (fun p => mkPart (setPartBinaryID (Some id) (Part_row p)) (Part_Segments p))
         (Binary_Parts b)).
Proof. reflexivity. Qed.

Lemma nextID_above (ids : list Z) (x : Z) : In x ids -> x < nextID ids.
Proof.
  unfold nextID. induction ids as [|y ids IH]; intros Hx; [destruct Hx|].
  cbn [fold_right]. destruct Hx as [->|Hx]; [lia|]. specialize (IH Hx). lia.
Qed.

Lemma nextID_positive (ids : list Z) : 0 < nextID ids.
Proof. unfold nextID. induction ids as [|y ids IH]; cbn [fold_right]; lia. Qed.

Lemma setBinaryID_same (r : BinaryRow) : setBinaryID (Binary_ID r) r = r.
Proof. destruct r; reflexivity. Qed.

Lemma hashIs_true (h : string) (r : PartRow) : hashIs h r = true <-> hashOf r = Some h.
Proof. unfold hashIs. apply bool_decide_eq_true. Qed.

Lemma created_fields (h : string) (r : PartRow) :
  hashOf r = Some h ->
  exists name total,
    parsedSubject (Part_Subject r) = Some (name, total)
    /\ h = makeBinaryHash name (Part_Group r) (Part_From r) total
    /\ created h r
       = mkBinaryRow 0 h name (Part_Posted r) (Part_From r) (Part_Group r)
           (default 0 (Atoi total)).
Proof.
  unfold hashOf, created. destruct (parsedSubject _) as [[name total]|]; [|discriminate].
  intros [= <-]. eauto.
Qed.

Lemma setPartBinaryID_twice (i : option Z) (r : PartRow) :
  setPartBinaryID i (setPartBinaryID i r) = setPartBinaryID i r.
Proof. reflexivity. Qed.

Lemma inParts_app (D : list PartRow) (r0 r : PartRow) :
  inParts (D ++ [r0]) r = inParts D r || (Part_ID r0 =? Part_ID r).
Proof. unfold inParts. rewrite existsb_app. cbn. rewrite orb_false_r. reflexivity. Qed.

Lemma inParts_In (D : list PartRow) (r : PartRow) (rows : list PartRow) :
  List.NoDup (List.map Part_ID rows) ->
  (forall d, In d D -> In d rows) -> In r rows ->
  inParts D r = true <-> In r D.
Proof.
  intros Hnd HD Hr. unfold inParts. rewrite existsb_exists. split.
  - intros (d & Hd & He). apply Z.eqb_eq in He.
    assert (d = r); [|subst; exact Hd].
    apply HD in Hd. clear HD.
    induction rows as [|x rows IH]; [destruct Hr|]. cbn in Hnd. inversion Hnd as [|? ? Hx Hnd']; subst.
    destruct Hd as [->|Hd], Hr as [->|Hr]; try reflexivity.
    + exfalso. apply Hx. rewrite He. apply in_map. exact Hr.
    + exfalso. apply Hx. rewrite <- He. apply in_map. exact Hd.
    + apply IH; assumption.
  - intros Hin. exists r. split; [exact Hin|apply Z.eqb_refl].
Qed.

Section GrouperInvariant.

Variable st : Store.
Hypothesis keys : List.NoDup (List.map Part_ID (parts st)).

Lemma same_key (r r' : PartRow) :
  In r (parts st) -> In r' (parts st) -> Part_ID r = Part_ID r' -> r = r'.
Proof.
  intros Hr Hr' He. revert keys Hr Hr'.
  induction (parts st) as [|x rows IH]; intros Hnd Hr Hr'; [destruct Hr|].
  cbn in Hnd. inversion Hnd as [|? ? Hx Hnd']; subst.
  destruct Hr as [->|Hr], Hr' as [->|Hr']; try reflexivity.
  - exfalso. apply Hx. rewrite He. apply in_map. exact Hr'.
  - exfalso. apply Hx. rewrite <- He. apply in_map. exact Hr.
  - apply IH; assumption.
Qed.

Lemma assigned_key (bins : gmap string Binary) (D : list PartRow) (r : PartRow) :
  Part_ID (assigned bins D r) = Part_ID r.
Proof.
  unfold assigned. destruct (inParts D r); [|reflexivity].
  destruct (hashOf r) as [h|]; [|reflexivity]. destruct (bins !! h); reflexivity.
Qed.

Lemma assigned_step (bins : gmap string Binary) (D : list PartRow) (r0 r : PartRow)
  (h : string) (id : Z) (bin' : Binary) :
  (forall d, In d D -> In d (parts st)) ->
  In r0 (parts st) -> ~ In r0 D -> In r (parts st) ->
  hashOf r0 = Some h ->
  Binary_ID (Binary_row bin') = id ->
  (forall bin, bins !! h = Some bin -> Binary_ID (Binary_row bin) = id) ->
  (bins !! h = None -> List.filter (hashIs h) D = []) ->
  lastWrite (List.map (setPartBinaryID (Some id)) (List.filter (hashIs h) D ++ [r0]))
    (assigned bins D r)
  = assigned (<[h := bin']> bins) (D ++ [r0]) r.
Proof.
  intros HD Hr0 Hfresh Hr Hh Hid Hsome Hnone.
  assert (HF : forall f, In f (List.filter (hashIs h) D ++ [r0]) ->
                         In f (parts st) /\ hashOf f = Some h /\ (In f D \/ f = r0)).
  { intros f [Hf|[<-|[]]]%in_app_iff; [|auto].
    apply filter_In in Hf as [Hf Hhf]. apply hashIs_true in Hhf. auto. }
  rewrite (lastWrite_same _ _ (setPartBinaryID (Some id) r)).
  2:{ rewrite assigned_key. reflexivity. }
  2:{ intros q [f [<- Hf]]%in_map_iff Hq. rewrite assigned_key in Hq. cbn in Hq.
      destruct (HF f Hf) as (Hfst & _ & _). rewrite (same_key f r Hfst Hr Hq). reflexivity. }
  destruct (existsb _ _) eqn:Hex.
  - apply existsb_exists in Hex as (q & [f [<- Hf]]%in_map_iff & Hq).
    apply Z.eqb_eq in Hq. rewrite assigned_key in Hq. cbn in Hq.
    destruct (HF f Hf) as (Hfst & Hfh & Hfd). pose proof (same_key f r Hfst Hr Hq) as ->.
    unfold assigned. rewrite inParts_app, Hfh, lookup_insert_eq, Hid.
    destruct Hfd as [Hfd| ->].
    + rewrite (proj2 (inParts_In D r (parts st) keys HD Hr) Hfd). reflexivity.
    + rewrite Z.eqb_refl, orb_true_r. reflexivity.
  - assert (Hout : ~ In r (List.filter (hashIs h) D ++ [r0])).
    { intros Hin. apply not_true_iff_false in Hex. apply Hex. apply existsb_exists.
      exists (setPartBinaryID (Some id) r). split; [apply in_map, Hin|].
      rewrite assigned_key. apply Z.eqb_refl. }
    unfold assigned. rewrite inParts_app.
    destruct (Z.eqb_spec (Part_ID r0) (Part_ID r)) as [He|Hne].
    { exfalso. apply Hout. apply in_app_iff. right. left. apply same_key; assumption. }
    rewrite orb_false_r. destruct (inParts D r) eqn:Hin; [|reflexivity].
    destruct (hashOf r) as [h'|] eqn:Hh'; [|reflexivity].
    destruct (decide (h = h')) as [<-|Hneq].
    + exfalso. apply Hout. apply in_app_iff. left. apply filter_In.
      split; [apply (inParts_In D r (parts st) keys HD Hr), Hin|apply hashIs_true, Hh'].
    + rewrite lookup_insert_ne by assumption. reflexivity.
Qed.

Lemma filter_hashIs_app (h : string) (D : list PartRow) (r0 : PartRow) :
  List.filter (hashIs h) (D ++ [r0])
  = (List.filter (hashIs h) D ++ if hashIs h r0 then [r0] else [])%list.
Proof. rewrite List.filter_app. cbn. destruct (hashIs h r0); reflexivity. Qed.

Lemma hashIs_other (h h' : string) (r : PartRow) :
  hashOf r = Some h -> h <> h' -> hashIs h' r = false.
Proof.
  intros Hh Hne. apply not_true_iff_false. intros Ht%hashIs_true. congruence.
Qed.

(** A skipped Part changes nothing. *)
Lemma step_skipped (D : list PartRow) (r0 : PartRow) (bins : gmap string Binary)
  (cur : Store) (news : list BinaryRow) :
  (forall d, In d D -> In d (parts st)) -> In r0 (parts st) ->
  hashOf r0 = None ->
  Inv st D bins cur news -> Inv st (D ++ [r0]) bins cur news.
Proof.
  intros HD Hr0 Hh [Hparts Hbins Hnd Hnews Hsome Hnone].
  assert (Hf : forall h, List.filter (hashIs h) (D ++ [r0]) = List.filter (hashIs h) D).
  { intros h. rewrite filter_hashIs_app.
    replace (hashIs h r0) with false; [apply List.app_nil_r|].
    symmetry. apply not_true_iff_false. intros Ht%hashIs_true. congruence. }
  split; try assumption.
  - rewrite Hparts. apply List.map_ext_in. intros r Hr. unfold assigned.
    rewrite inParts_app. destruct (Z.eqb_spec (Part_ID r0) (Part_ID r)) as [He|Hne].
    + rewrite <- (same_key r0 r Hr0 Hr He), Hh. destruct (inParts D r0); reflexivity.
    + rewrite orb_false_r. reflexivity.
  - intros h bin Hb. rewrite Hf. apply Hsome, Hb.
  - intros h Hb. rewrite Hf. apply Hnone, Hb.
Qed.

Lemma entry_parts (h : string) (id : Z) (F : list PartRow) (r0 : PartRow) :
  List.map (fun p => setPartBinaryID (Some id) (Part_row p))
    (Binary_Parts (entry h id F) ++ [mkPart r0 []])
  = List.map (setPartBinaryID (Some id)) (F ++ [r0]).
Proof.
  unfold entry. cbn [Binary_Parts]. rewrite !List.map_app, List.map_map. reflexivity.
Qed.

Lemma entry_app (h : string) (id : Z) (F : list PartRow) (r0 : PartRow) :
  F <> [] ->
  mkBinary (setBinaryID id (Binary_row (entry h id F)))
    (List.map (fun p => mkPart (setPartBinaryID (Some id) (Part_row p)) (Part_Segments p))
       (Binary_Parts (entry h id F) ++ [mkPart r0 []]))
  = entry h id (F ++ [r0]).
Proof.
  intros HF. unfold entry. cbn [Binary_row Binary_Parts]. f_equal.
  - destruct F; [contradiction|reflexivity].
  - rewrite !List.map_app, List.map_map. reflexivity.
Qed.

(** An accepted Part whose hash is in the map is appended to its Binary. *)
Lemma step_appended (D : list PartRow) (r0 : PartRow) (bins : gmap string Binary)
  (cur : Store) (news : list BinaryRow) (h : string) (bin : Binary) :
  (forall d, In d D -> In d (parts st)) -> In r0 (parts st) -> ~ In r0 D ->
  hashOf r0 = Some h -> bins !! h = Some bin ->
  Inv st D bins cur news ->
  Inv st (D ++ [r0]) (fst (groupStep (bins, cur) (mkPart r0 [])))
    (snd (groupStep (bins, cur) (mkPart r0 []))) news.
Proof.
  intros HD Hr0 Hfresh Hh Hlook [Hparts Hbins Hnd Hnews Hsome Hnone].
  destruct (Hsome h bin Hlook) as (HFne & Hentry & Hidnz & Hin & Huniq).
  unfold groupStep. cbn [Part_row]. rewrite Hh, Hlook.
  set (bin0 := mkBinary (Binary_row bin) (Binary_Parts bin ++ [mkPart r0 []])%list).
  pose proof (saveBinary_fst bin0 cur) as Hfst.
  pose proof (saveBinary_parts bin0 cur) as Hp.
  pose proof (saveBinary_binaries bin0 cur) as Hb.
  destruct (saveBinary bin0 cur) as [bin' st'] eqn:Hsave. cbn [fst snd] in *.
  remember (Binary_ID (Binary_row bin)) as id eqn:Hid.
  set (F := List.filter (hashIs h) D) in *.
  assert (Hz : (Binary_ID (Binary_row bin0) =? 0) = false)
    by (subst bin0; cbn [Binary_row]; rewrite <- Hid; apply Z.eqb_neq, Hidnz).
  rewrite Hz in Hfst, Hb. cbv zeta in Hfst. subst bin0. cbn [Binary_row Binary_Parts] in *.
  rewrite <- Hid in *.
  assert (Hbin' : bin' = entry h id (F ++ [r0])).
  { rewrite Hfst. rewrite Hentry at 1 2. apply entry_app, HFne. }
  assert (Hrow' : Binary_row bin' = Binary_row bin).
  { rewrite Hfst. cbn [Binary_row]. rewrite Hid. apply setBinaryID_same. }
  assert (Hcur : binaries st' = binaries cur).
  { rewrite Hb, Hrow'. rewrite <- (List.map_id (binaries cur)) at 2.
    apply List.map_ext_in. intros r Hr.
    destruct (Z.eqb_spec (Binary_ID r) id) as [He|]; [|reflexivity].
    symmetry. apply Huniq; assumption. }
  assert (Hid' : Binary_ID (Binary_row bin') = id) by (rewrite Hrow'; auto).
  split.
  - rewrite Hp, Hparts, List.map_map. apply List.map_ext_in. intros r Hr.
    rewrite Hid'. rewrite Hentry at 1. rewrite entry_parts.
    apply assigned_step; try assumption.
    + intros b Hb'. congruence.
    + intros Hb'. congruence.
  - rewrite Hcur. exact Hbins.
  - exact Hnd.
  - intros b Hb'. destruct (Hnews b Hb') as (bn & Hbn & Hbr).
    destruct (decide (h = Binary_Hash b)) as [He|Hne].
    + exists bin'. rewrite <- He, lookup_insert_eq. split; [reflexivity|]. congruence.
    + exists bn. rewrite lookup_insert_ne by assumption. auto.
  - intros h' bn Hbn. destruct (decide (h = h')) as [<-|Hne].
    + rewrite lookup_insert_eq in Hbn. injection Hbn as <-.
      rewrite filter_hashIs_app, (proj2 (hashIs_true h r0) Hh). fold F.
      rewrite Hid'. split; [intros Hn; apply List.app_eq_nil in Hn as [_ Hn]; discriminate|].
      split; [exact Hbin'|]. split; [exact Hidnz|]. rewrite Hrow', Hcur. auto.
    + rewrite lookup_insert_ne in Hbn by assumption.
      rewrite filter_hashIs_app, (hashIs_other h h' r0 Hh Hne), List.app_nil_r, Hcur.
      apply Hsome, Hbn.
  - intros h' Hn. destruct (decide (h = h')) as [<-|Hne].
    + rewrite lookup_insert_eq in Hn. discriminate.
    + rewrite lookup_insert_ne in Hn by assumption.
      rewrite filter_hashIs_app, (hashIs_other h h' r0 Hh Hne), List.app_nil_r.
      apply Hnone, Hn.
Qed.

(** The first accepted Part of a hash creates its Binary. *)
Lemma step_created (D : list PartRow) (r0 : PartRow) (bins : gmap string Binary)
  (cur : Store) (news : list BinaryRow) (h : string) :
  (forall d, In d D -> In d (parts st)) -> In r0 (parts st) -> ~ In r0 D ->
  hashOf r0 = Some h -> bins !! h = None ->
  Inv st D bins cur news ->
  exists row,
    Inv st (D ++ [r0]) (fst (groupStep (bins, cur) (mkPart r0 [])))
      (snd (groupStep (bins, cur) (mkPart r0 []))) (news ++ [row]).
Proof.
  intros HD Hr0 Hfresh Hh Hlook [Hparts Hbins Hnd Hnews Hsome Hnone].
  pose proof (Hnone h Hlook) as HF.
  unfold groupStep. cbn [Part_row]. rewrite Hh, Hlook.
  set (bin0 := mkBinary (created h r0) [mkPart r0 []]).
  pose proof (saveBinary_fst bin0 cur) as Hfst.
  pose proof (saveBinary_parts bin0 cur) as Hp.
  pose proof (saveBinary_binaries bin0 cur) as Hb.
  destruct (saveBinary bin0 cur) as [bin' st'] eqn:Hsave. cbn [fst snd] in *.
  destruct (created_fields h r0 Hh) as (name & total & Hparsed & Hhash & Hcreated).
  assert (Hz : (Binary_ID (Binary_row bin0) =? 0) = true)
    by (subst bin0; cbn [Binary_row]; rewrite Hcreated; reflexivity).
  rewrite Hz in Hfst, Hb. cbv zeta in Hfst. subst bin0. cbn [Binary_row Binary_Parts] in *.
  set (id := nextID (List.map Binary_ID (binaries cur))) in *.
  assert (Hbin' : bin' = entry h id (List.filter (hashIs h) (D ++ [r0]))).
  { rewrite Hfst, filter_hashIs_app, HF, (proj2 (hashIs_true h r0) Hh). reflexivity. }
  assert (Hid' : Binary_ID (Binary_row bin') = id) by (rewrite Hfst; reflexivity).
  assert (Hhash' : Binary_Hash (Binary_row bin') = h)
    by (rewrite Hfst; cbn [Binary_row]; rewrite Hcreated; reflexivity).
  assert (Hold : forall r, In r (binaries cur) -> Binary_ID r < id)
    by (intros r Hr; apply nextID_above, in_map, Hr).
  assert (Hnew : ~ In h (List.map Binary_Hash news)).
  { intros [b [Hbh Hbin]]%in_map_iff. destruct (Hnews b Hbin) as (bn & Hbn & _).
    rewrite Hbh in Hbn. congruence. }
  exists (Binary_row bin'). split.
  - rewrite Hp, Hparts, List.map_map. apply List.map_ext_in. intros r Hr.
    rewrite Hid'. cbn [List.map Part_row].
    replace [setPartBinaryID (Some id) r0]
      with (List.map (setPartBinaryID (Some id)) (List.filter (hashIs h) D ++ [r0]))
      by (rewrite HF; reflexivity).
    apply assigned_step; try assumption.
    + intros b Hb'. congruence.
    + intros _. exact HF.
  - rewrite Hb, Hbins, <- List.app_assoc. reflexivity.
  - rewrite List.map_app. cbn [List.map]. rewrite Hhash'.
    apply List.NoDup_app; [exact Hnd|repeat constructor; intros []|].
    intros x Hx [<-|[]]. exact (Hnew Hx).
  - intros b [Hb'|[<-|[]]]%in_app_iff.
    + destruct (Hnews b Hb') as (bn & Hbn & Hbr).
      exists bn. rewrite lookup_insert_ne; [auto|].
      intros ->. congruence.
    + exists bin'. rewrite Hhash', lookup_insert_eq. auto.
  - intros h' bn Hbn. destruct (decide (h = h')) as [<-|Hne].
    + rewrite lookup_insert_eq in Hbn. injection Hbn as <-.
      rewrite Hid'. split.
      { rewrite filter_hashIs_app, (proj2 (hashIs_true h r0) Hh).
        intros Hn; apply List.app_eq_nil in Hn as [_ Hn]; discriminate. }
      split; [exact Hbin'|]. split; [pose proof (nextID_positive (List.map Binary_ID (binaries cur))); fold id in H; lia|].
      split; [apply in_app_iff; right; left; reflexivity|].
      rewrite Hb. intros r [Hr|[<-|[]]]%in_app_iff He; [|reflexivity].
      apply Hold in Hr. lia.
    + rewrite lookup_insert_ne in Hbn by assumption.
      rewrite filter_hashIs_app, (hashIs_other h h' r0 Hh Hne), List.app_nil_r.
      destruct (Hsome h' bn Hbn) as (H1 & H2 & H3 & H4 & H5).
      split; [exact H1|]. split; [exact H2|]. split; [exact H3|].
      split; [apply in_app_iff; left; exact H4|].
      rewrite Hb. intros r [Hr|[<-|[]]]%in_app_iff He; [apply H5; assumption|].
      exfalso. assert (Hlt : Binary_ID (Binary_row bn) < id).
      { apply Hold. rewrite Hbins. apply in_app_iff. right. exact H4. }
      rewrite Hid' in He. lia.
  - intros h' Hn. destruct (decide (h = h')) as [<-|Hne].
    + rewrite lookup_insert_eq in Hn. discriminate.
    + rewrite lookup_insert_ne in Hn by assumption.
      rewrite filter_hashIs_app, (hashIs_other h h' r0 Hh Hne), List.app_nil_r.
      apply Hnone, Hn.
Qed.

Lemma Inv_start : Inv st [] ∅ st [].
Proof.
  split.
  - rewrite <- (List.map_id (parts st)) at 1. apply List.map_ext. reflexivity.
  - rewrite List.app_nil_r. reflexivity.
  - constructor.
  - intros b [].
  - intros h bin Hb. rewrite lookup_empty in Hb. discriminate.
  - reflexivity.
Qed.

(** The invariant holds after the loop. *)
Lemma Inv_run (rest D : list PartRow) (bins : gmap string Binary) (cur : Store)
  (news : list BinaryRow) :
  (forall d, In d (D ++ rest) -> In d (parts st)) ->
  List.NoDup (D ++ rest) ->
  Inv st D bins cur news ->
  exists extra,
    Inv st (D ++ rest)
      (fst (fold_left groupStep (List.map (fun r => mkPart r []) rest) (bins, cur)))
      (snd (fold_left groupStep (List.map (fun r => mkPart r []) rest) (bins, cur)))
      (news ++ extra).
Proof.
  revert D bins cur news. induction rest as [|r0 rest IH]; intros D bins cur news Hin Hnd HI.
  - exists []. rewrite !List.app_nil_r. exact HI.
  - cbn [List.map fold_left].
    assert (HD : forall d, In d D -> In d (parts st))
      by (intros d Hd; apply Hin, in_app_iff; left; exact Hd).
    assert (Hr0 : In r0 (parts st)) by (apply Hin, in_app_iff; right; left; reflexivity).
    assert (Hfresh : ~ In r0 D).
    { intros Hd. apply List.NoDup_remove_2 in Hnd. apply Hnd, in_app_iff. left. exact Hd. }
    assert (Hstep : exists extra,
               Inv st (D ++ [r0]) (fst (groupStep (bins, cur) (mkPart r0 [])))
                 (snd (groupStep (bins, cur) (mkPart r0 []))) (news ++ extra)).
    { destruct (hashOf r0) as [h|] eqn:Hh.
      - destruct (bins !! h) as [bin|] eqn:Hb.
        + exists []. rewrite List.app_nil_r. eapply step_appended; eassumption.
        + destruct (step_created D r0 bins cur news h HD Hr0 Hfresh Hh Hb HI) as [row Hrow].
          exists [row]. exact Hrow.
      - exists []. rewrite List.app_nil_r.
        unfold groupStep. cbn [Part_row]. rewrite Hh. cbn [fst snd].
        apply step_skipped; assumption. }
    destruct Hstep as [extra1 Hstep].
    rewrite (surjective_pairing (groupStep (bins, cur) (mkPart r0 []))).
    destruct (fun H1 H2 => IH (D ++ [r0])%list _ _ _ H1 H2 Hstep) as [extra2 HI'].
    + intros d Hd. apply Hin. rewrite <- List.app_assoc in Hd. exact Hd.
    + rewrite <- List.app_assoc. exact Hnd.
    + exists (extra1 ++ extra2)%list. rewrite <- List.app_assoc in HI'.
      rewrite List.app_assoc. exact HI'.
Qed.

End GrouperInvariant.

Lemma ungroupedParts_rows (st : Store) :
  ungroupedParts st
  = List.map (fun r => mkPart r []) (List.map Part_row (ungroupedParts st)).
Proof.
  unfold ungroupedParts. rewrite !List.map_map. cbn [Part_row]. reflexivity.
Qed.

Lemma In_ungrouped (st : Store) (p : PartRow) :
  In p (List.map Part_row (ungroupedParts st))
  <-> In p (parts st) /\ Part_BinaryID p = None.
Proof.
  unfold ungroupedParts. rewrite List.map_map. cbn [Part_row]. rewrite List.map_id, filter_In.
  destruct (Part_BinaryID p); intuition congruence.
Qed.

Lemma NoDup_ungrouped (st : Store) :
  List.NoDup (List.map Part_ID (parts st)) ->
  List.NoDup (List.map Part_row (ungroupedParts st)).
Proof.
  intros H. unfold ungroupedParts. rewrite List.map_map. cbn [Part_row]. rewrite List.map_id.
  apply List.NoDup_filter. eapply List.NoDup_map_inv. exact H.
Qed.

Lemma entry_hash (h : string) (id : Z) (F : list PartRow) :
  F <> [] -> (forall f, In f F -> hashOf f = Some h) ->
  Binary_Hash (Binary_row (entry h id F)) = h /\ Binary_ID (Binary_row (entry h id F)) = id.
Proof.
  intros HF Hh. destruct F as [|first F]; [contradiction|].
  destruct (created_fields h first (Hh first (or_introl eq_refl))) as (n & t & _ & _ & Hc).
  unfold entry. cbn [List.hd Binary_row]. rewrite Hc. split; reflexivity.
Qed.

(** C7, as the code has it: on a store whose Parts have distinct keys, one
    run of the grouper without store faults returns, and it adds exactly one
    Binary for each hash [makeBinaryHash name group from total] of an
    ungrouped Part that the parser accepts (the hash is taken of the four
    strings joined, so tuples that join to one string share a Binary, and
    Binaries of earlier runs are not looked up).  Every accepted Part
    references the Binary of its hash.  The first Part of a hash creates the
    Binary, with its posted time and the number that its total converts to,
    and the Parts of the Binary in the map of the run are the accepted Parts
    of that hash in their order. *)
Theorem grouper_one_binary_per_hash (st : Store) :
  List.NoDup (List.map Part_ID (parts st)) ->
  exists bins st' lg news,
    groupParts noFaults ∅ (ungroupedParts st) (mkWorld st []) = (Ok bins, mkWorld st' lg)
    /\ MakeBinaries noFaults (mkWorld st []) = (Ok tt, mkWorld st' lg)
    /\ binaries st' = (binaries st ++ news)%list
    /\ List.NoDup (List.map Binary_Hash news)
    /\ (forall h,
           In h (List.map Binary_Hash news)
           <-> exists p, In p (parts st) /\ Part_BinaryID p = None /\ hashOf p = Some h)
    /\ (forall p h,
           In p (parts st) -> Part_BinaryID p = None -> hashOf p = Some h ->
           exists b, In b news /\ Binary_Hash b = h
                     /\ In (setPartBinaryID (Some (Binary_ID b)) p) (parts st'))
    /\ (forall b,
           In b news ->
           exists first others name total,
             List.filter (hashIs (Binary_Hash b)) (List.map Part_row (ungroupedParts st))
             = first :: others
             /\ parsedSubject (Part_Subject first) = Some (name, total)
             /\ b = mkBinaryRow (Binary_ID b) (Binary_Hash b) name (Part_Posted first)
                      (Part_From first) (Part_Group first) (default 0 (Atoi total))
             /\ bins !! Binary_Hash b
                = Some (mkBinary b
                          (List.map
                             (fun p => mkPart (setPartBinaryID (Some (Binary_ID b)) p) [])
                             (first :: others)))).
Proof.
  intros keys.
  set (U := List.map Part_row (ungroupedParts st)).
  destruct (groupParts_fold (ungroupedParts st) ∅ (mkWorld st [])) as [lg Hrun].
  cbn [store_of] in Hrun. rewrite ungroupedParts_rows in Hrun at 2 3. fold U in Hrun.
  destruct (Inv_run st keys U [] ∅ st []) as [news HI].
  { intros d Hd. apply In_ungrouped in Hd as [Hd _]. exact Hd. }
  { apply NoDup_ungrouped, keys. }
  { apply Inv_start. }
  cbn [app] in HI.
  set (bins := fst (fold_left groupStep (List.map (fun r => mkPart r []) U) (∅, st))) in *.
  set (st' := snd (fold_left groupStep (List.map (fun r => mkPart r []) U) (∅, st))) in *.
  destruct HI as [Hparts Hbins Hnd Hnews Hsome Hnone].
  assert (HU : forall p, In p U <-> In p (parts st) /\ Part_BinaryID p = None)
    by (intros p; apply In_ungrouped).
  assert (Hfilter : forall h f, In f (List.filter (hashIs h) U) -> hashOf f = Some h)
    by (intros h f [_ Hf]%filter_In; apply hashIs_true, Hf).
  assert (Hlook : forall p h, In p U -> hashOf p = Some h ->
            exists bin, bins !! h = Some bin
                        /\ Binary_Hash (Binary_row bin) = h
                        /\ In (Binary_row bin) news).
  { intros p h Hp Hh. destruct (bins !! h) as [bin|] eqn:Hb.
    - exists bin. destruct (Hsome h bin Hb) as (HF & He & _ & Hin & _).
      split; [reflexivity|]. split; [|exact Hin].
      rewrite He. apply entry_hash; [exact HF|apply Hfilter].
    - exfalso. pose proof (Hnone h Hb) as HF.
      assert (Hin : In p (List.filter (hashIs h) U))
        by (apply filter_In; split; [exact Hp|apply hashIs_true, Hh]).
      rewrite HF in Hin. destruct Hin. }
  exists bins, st', lg, news.
  split; [exact Hrun|].
  split; [unfold MakeBinaries, bind, check, getStore; cbn; rewrite Hrun; reflexivity|].
  split; [exact Hbins|]. split; [exact Hnd|]. split; [|split].
  - intros h. split.
    + intros [b [Hbh Hb]]%in_map_iff. destruct (Hnews b Hb) as (bin & Hbin & _).
      rewrite Hbh in Hbin. destruct (Hsome h bin Hbin) as (HF & _).
      destruct (List.filter (hashIs h) U) as [|p F] eqn:HFe; [contradiction|].
      assert (Hp : In p (List.filter (hashIs h) U)) by (rewrite HFe; left; reflexivity).
      exists p. apply filter_In in Hp as [Hp Hh]. apply HU in Hp as [Hp Hn].
      split; [exact Hp|]. split; [exact Hn|apply hashIs_true, Hh].
    + intros (p & Hp & Hn & Hh).
      destruct (Hlook p h (proj2 (HU p) (conj Hp Hn)) Hh) as (bin & _ & Hbh & Hin).
      apply in_map_iff. exists (Binary_row bin). auto.
  - intros p h Hp Hn Hh.
    assert (HpU : In p U) by (apply HU; auto).
    destruct (Hlook p h HpU Hh) as (bin & Hbin & Hbh & Hin).
    exists (Binary_row bin). split; [exact Hin|]. split; [exact Hbh|].
    rewrite Hparts. apply in_map_iff. exists p. split; [|exact Hp].
    unfold assigned. rewrite Hh, Hbin.
    rewrite (proj2 (inParts_In U p (parts st) keys (fun d Hd => proj1 (proj1 (HU d) Hd)) Hp) HpU).
    reflexivity.
  - intros b Hb. destruct (Hnews b Hb) as (bin & Hbin & Hrow).
    destruct (Hsome (Binary_Hash b) bin Hbin) as (HF & He & _).
    destruct (List.filter (hashIs (Binary_Hash b)) U) as [|first others] eqn:HFe;
      [contradiction|].
    assert (Hfirst : hashOf first = Some (Binary_Hash b))
      by (apply (Hfilter (Binary_Hash b)); rewrite HFe; left; reflexivity).
    destruct (created_fields _ first Hfirst) as (name & total & Hparsed & _ & Hcreated).
    exists first, others, name, total. split; [reflexivity|]. split; [exact Hparsed|].
    assert (Hb' : b = mkBinaryRow (Binary_ID b) (Binary_Hash b) name (Part_Posted first)
                     (Part_From first) (Part_Group first) (default 0 (Atoi total))).
    { rewrite <- Hrow at 1. rewrite He. unfold entry. cbn [List.hd Binary_row].
      rewrite Hcreated, Hrow. reflexivity. }
    split; [exact Hb'|]. rewrite Hbin. f_equal. rewrite He. unfold entry.
    cbn [List.hd]. rewrite Hcreated, Hrow. f_equal. symmetry. exact Hb'.
Qed.

(** A store with three ungrouped Parts: two of one file and one whose
    subject has no part count. *)
Lemma grouper_one_binary_per_hash_witness :
  exists st' lg,
    MakeBinaries noFaults (mkWorld threeUngrouped []) = (Ok tt, mkWorld st' lg)
    /\ List.map Binary_TotalParts (binaries st') = [34]
    /\ List.map Part_BinaryID (parts st') = [Some 1; None; Some 1].
Proof.
  assert (keys : List.NoDup (List.map Part_ID (parts threeUngrouped))).
  { cbn. repeat constructor; cbn; intuition discriminate. }
  destruct (grouper_one_binary_per_hash threeUngrouped keys)
    as (bins & st' & lg & news & _ & Hrun & _).
  exists st', lg. split; [exact Hrun|].
  vm_compute in Hrun. injection Hrun as <- <-. split; vm_compute; reflexivity.
Defined.

(** C7 fails at this input: the two Parts differ in group and poster, so
    their (name, group, poster, total) tuples differ, but the four strings
    join to one string, and the run leaves one Binary that both Parts
    reference. *)
Lemma one_binary_per_tuple_counterexample :
  parsedSubject (Part_Subject joinedA) = Some ("My.Show.S01E01", "34")
  /\ parsedSubject (Part_Subject joinedB) = Some ("My.Show.S01E01", "34")
  /\ (Part_Group joinedA, Part_From joinedA) <> (Part_Group joinedB, Part_From joinedB)
  /\ exists st',
       MakeBinaries noFaults (mkWorld joinedTuples []) = (Ok tt, mkWorld st' [])
       /\ List.length (binaries st') = 1%nat
       /\ List.map Part_BinaryID (parts st') = [Some 1; Some 1].
Proof.
  split; [vm_compute; reflexivity|]. split; [vm_compute; reflexivity|].
  split; [discriminate|].
  eexists. split; [vm_compute; reflexivity|]. split; reflexivity.
Qed.

(** C10: the grouper keys a Binary on the text of the total but stores the
    number it converts to.  The two Parts of [twoSpellings] have the same
    parsed name, group and poster and the totals 034 and 34, which are the
    same number; [MakeBinaries] computes two hashes for them and leaves two
    Binaries, each with [total_parts] 34 and one of the two Parts. *)
Theorem textual_total_splits_binary :
  (forall w : World,
      fst (subjectFields (Part_Subject padded) w)
      = Ok (<["name" := "My.Show.S01E01"]> (<["parts" := "001/034"]> ∅))
      /\ fst (subjectFields (Part_Subject unpadded) w)
         = Ok (<["name" := "My.Show.S01E01"]> (<["parts" := "02/34"]> ∅)))
  /\ Atoi "034" = Atoi "34"
  /\ makeBinaryHash "My.Show.S01E01" "alt.b" "me" "034"
     <> makeBinaryHash "My.Show.S01E01" "alt.b" "me" "34"
  /\ exists st,
       MakeBinaries noFaults (mkWorld twoSpellings []) = (Ok tt, mkWorld st [])
       /\ binaries st
          = [mkBinaryRow 1 (makeBinaryHash "My.Show.S01E01" "alt.b" "me" "034")
               "My.Show.S01E01" 100 "me" "alt.b" 34;
             mkBinaryRow 2 (makeBinaryHash "My.Show.S01E01" "alt.b" "me" "34")
               "My.Show.S01E01" 101 "me" "alt.b" 34]
       /\ List.map Part_BinaryID (parts st) = [Some 1; Some 2].
Proof.
  split; [intros w; split; vm_compute; reflexivity|].
  split; [reflexivity|]. split; [vm_compute; discriminate|].
  eexists. split; [vm_compute; reflexivity|]. split; vm_compute; reflexivity.
Qed.

(** * Running the promoter twice *)

Section Idempotence.

Variable WriteNZB : Binary -> error + string.

Local Abbreviation promoteStore := (promotion.promoteStore noFaults WriteNZB).
Local Abbreviation promoteAll := (promotion.promoteAll noFaults WriteNZB).

Lemma noFaults_tx (newrel : Release) (dbbin : Binary) : ~ txFails noFaults newrel dbbin.
Proof. intros [H|[H|[H|H]]]; apply H; reflexivity. Qed.

(** Without store faults the turn of a candidate is [promoteStore]. *)
Lemma promote_promoteStore (b : Binary) (w : World) :
  fst (promote noFaults WriteNZB b w) = fst (promoteStore b (store_of w))
  /\ store_of (snd (promote noFaults WriteNZB b w)) = snd (promoteStore b (store_of w)).
Proof.
  pose proof (promote_turn noFaults WriteNZB b w) as Ht.
  unfold promotion.promoteStore.
  inversion Ht as [msg Hm| Hnz | e Hz [He|[He ->]] | d e w' Hz Hd He Hst | d s Hz _ Hd Hg Hs |
                   d g s Hz _ Hd Hg Hs].
  - discriminate.
  - apply Z.eqb_neq in Hnz. rewrite Hnz. split; reflexivity.
  - discriminate.
  - rewrite Hz, He. split; reflexivity.
  - rewrite Hz, Hd, He. cbn. split; [reflexivity|exact Hst].
  - rewrite Hz, Hd, Hs, Hg. split; reflexivity.
  - rewrite Hz, Hd, Hs, Hg. cbn [negb Z.eqb].
    destruct (releaseTx_cases noFaults (newRelease b g d s) d w) as [[Hf _]|[_ ->]];
      [destruct (noFaults_tx _ _ Hf)|]. split; reflexivity.
Qed.

Lemma forEach_promoteAll (cs : list Binary) (w : World) :
  fst (forEach (promote noFaults WriteNZB) cs w) = fst (promoteAll cs (store_of w))
  /\ store_of (snd (forEach (promote noFaults WriteNZB) cs w))
     = snd (promoteAll cs (store_of w)).
Proof.
  revert w. induction cs as [|c cs IH]; intros w; [split; reflexivity|].
  cbn [forEach promotion.promoteAll]. unfold bind.
  destruct (promote_promoteStore c w) as [Hr Hs].
  destruct (promote noFaults WriteNZB c w) as [r w'].
  destruct (promoteStore c (store_of w)) as [r' st']. cbn [fst snd] in Hr, Hs. subst r' st'.
  destruct r as [[]| |]; [apply IH|split; reflexivity|split; reflexivity].
Qed.

(** ** One committed transaction *)

Lemma loadBinary_Some (id : Z) (st : Store) (dbbin : Binary) :
  loadBinary id st = Some dbbin ->
  Binary_ID (Binary_row dbbin) = id
  /\ In (Binary_row dbbin) (binaries st)
  /\ List.map (fun p => Part_ID (Part_row p)) (Binary_Parts dbbin)
     = List.map Part_ID (List.filter (hasBinaryID id) (parts st)).
Proof.
  unfold loadBinary. destruct (firstByID _ _) as [row|] eqn:Hrow; [|discriminate].
  apply firstByID_In, filter_In in Hrow as [Hin Hid]. apply Z.eqb_eq in Hid.
  intros [= <-]. cbn [Binary_row Binary_Parts]. rewrite Hid, List.map_map.
  split; [reflexivity|]. split; [exact Hin|reflexivity].
Qed.

Lemma loadBinary_None (id : Z) (st : Store) (b : BinaryRow) :
  loadBinary id st = None -> In b (binaries st) -> Binary_ID b <> id.
Proof.
  unfold loadBinary. destruct (firstByID _ _) as [row|] eqn:Hrow; [discriminate|].
  apply firstByID_None in Hrow. intros _ Hb He.
  assert (Hin : In b (List.filter (fun b => Binary_ID b =? id) (binaries st)))
    by (apply filter_In; split; [exact Hb|apply Z.eqb_eq, He]).
  rewrite Hrow in Hin. destruct Hin.
Qed.

(** The ways in which [promoteStore] ends. *)
Lemma promoteStore_cases (c : Binary) (st : Store) :
  (Release_ID (dbrelOf noFaults c st) <> 0 /\ promoteStore c st = (Ok tt, st))
  \/ (exists r, r <> Ok tt /\ promoteStore c st = (r, st))
  \/ (Release_ID (dbrelOf noFaults c st) = 0
      /\ exists dbbin g s,
           loadBinary (Binary_ID (Binary_row c)) st = Some dbbin
           /\ promoteStore c st = (Ok tt, committed (newRelease c g dbbin s) dbbin st)).
Proof.
  unfold promotion.promoteStore.
  destruct (Z.eqb_spec (Release_ID (dbrelOf noFaults c st)) 0) as [Hz|Hnz]; cbn [negb];
    [|left; split; [exact Hnz|reflexivity]].
  right. destruct (loadBinary _ st) as [dbbin|] eqn:Hload;
    [|left; eexists; split; [|reflexivity]; discriminate].
  destruct (WriteNZB dbbin) as [e|s]; [left; eexists; split; [|reflexivity]; discriminate|].
  destruct (groupOf noFaults c st) as [g|];
    [|left; eexists; split; [|reflexivity]; discriminate].
  right. split; [exact Hz|]. exists dbbin, g, s. split; reflexivity.
Qed.

(** A relation between the store before and after the loop holds when it
    holds for no step, survives a skipped candidate and a committed one. *)
Lemma promoteAll_rel (R : list Binary -> Store -> Store -> Prop) :
  (forall cs st, R cs st st) ->
  (forall c cs st st1, R cs st st1 -> R (c :: cs) st st1) ->
  (forall c cs st dbbin g s st1,
      Release_ID (dbrelOf noFaults c st) = 0 ->
      loadBinary (Binary_ID (Binary_row c)) st = Some dbbin ->
      R cs (committed (newRelease c g dbbin s) dbbin st) st1 ->
      R (c :: cs) st st1) ->
  forall cs st, R cs st (snd (promoteAll cs st)).
Proof.
  intros Hstop Hskip Hcommit. induction cs as [|c cs IH]; intros st; [apply Hstop|].
  cbn [promotion.promoteAll].
  destruct (promoteStore_cases c st) as [[_ ->]|[(r & Hr & ->)|(Hz & dbbin & g & s & Hl & ->)]].
  - apply Hskip, IH.
  - destruct r as [[]| |]; [contradiction|apply Hstop|apply Hstop].
  - eapply Hcommit; [exact Hz|exact Hl|apply IH].
Qed.

Lemma committed_binaries (newrel : Release) (dbbin : Binary) (st : Store) (b : BinaryRow) :
  In b (binaries (committed newrel dbbin st))
  <-> In b (binaries st) /\ Binary_ID b <> Binary_ID (Binary_row dbbin).
Proof.
  unfold committed. cbn. rewrite filter_In, negb_true_iff, Z.eqb_neq. tauto.
Qed.

Lemma committed_parts (newrel : Release) (dbbin : Binary) (st : Store) (p : PartRow) :
  In p (parts (committed newrel dbbin st))
  <-> In p (parts st) /\ hasBinaryID (Binary_ID (Binary_row dbbin)) p = false.
Proof. unfold committed. cbn. rewrite filter_In, negb_true_iff. tauto. Qed.

Lemma committed_segments (newrel : Release) (dbbin : Binary) (st : Store) (s : Segment) :
  In s (segments (committed newrel dbbin st))
  <-> In s (segments st)
      /\ ~ In (Segment_PartID s)
             (List.map (fun p => Part_ID (Part_row p)) (Binary_Parts dbbin)).
Proof.
  unfold committed. cbn. rewrite filter_In, negb_true_iff.
  split; intros [H1 H2]; (split; [exact H1|]).
  - intros Hin. apply not_true_iff_false in H2. apply H2. apply existsb_exists.
    eexists. split; [exact Hin|]. apply Z.eqb_refl.
  - apply not_true_iff_false. intros (x & Hx & He)%existsb_exists.
    apply Z.eqb_eq in He. subst x. contradiction.
Qed.

Lemma committed_releases (newrel : Release) (dbbin : Binary) (st : Store) :
  releases (committed newrel dbbin st)
  = (releases st
       ++ [setReleaseID (nextID (List.map Release_ID (releases st))) newrel])%list.
Proof. reflexivity. Qed.

(** The loop deletes Parts, Segments and Binaries and adds Releases. *)
Lemma promoteAll_monotone (cs : list Binary) (st : Store) :
  let st1 := snd (promoteAll cs st) in
  (forall p, In p (parts st1) -> In p (parts st))
  /\ (forall s, In s (segments st1) -> In s (segments st))
  /\ (forall b, In b (binaries st1) -> In b (binaries st))
  /\ (forall r, In r (releases st) -> In r (releases st1)).
Proof.
  apply (promoteAll_rel (fun _ st st1 =>
    (forall p, In p (parts st1) -> In p (parts st))
    /\ (forall s, In s (segments st1) -> In s (segments st))
    /\ (forall b, In b (binaries st1) -> In b (binaries st))
    /\ (forall r, In r (releases st) -> In r (releases st1)))).
  - intros _ st0. auto.
  - intros _ _ st0 st1 H. exact H.
  - intros c _ st0 dbbin g s st1 _ _ (Hp & Hs & Hb & Hr).
    split; [intros p Hin; apply Hp, committed_parts in Hin; tauto|].
    split; [intros x Hin; apply Hs, committed_segments in Hin; tauto|].
    split; [intros b Hin; apply Hb, committed_binaries in Hin; tauto|].
    intros r Hin. apply Hr. rewrite committed_releases. apply in_app_iff. left. exact Hin.
Qed.

Lemma NoDup_map_filter {A : Type} (key : A -> Z) (f : A -> bool) (l : list A) :
  List.NoDup (List.map key l) -> List.NoDup (List.map key (List.filter f l)).
Proof.
  induction l as [|x l IH]; intros H; [constructor|]. cbn in *.
  inversion H as [|? ? Hx Hl]; subst. destruct (f x); [|apply IH, Hl].
  cbn. constructor; [|apply IH, Hl].
  intros [y [Hy Hin]]%in_map_iff. apply filter_In in Hin as [Hin _].
  apply Hx. rewrite <- Hy. apply in_map, Hin.
Qed.

Lemma committed_wellKeyed (newrel : Release) (dbbin : Binary) (st : Store) :
  wellKeyed st -> wellKeyed (committed newrel dbbin st).
Proof.
  intros (Hp & Hb & Hr). unfold wellKeyed, committed. cbn.
  split; [apply NoDup_map_filter, Hp|]. split; [apply NoDup_map_filter, Hb|].
  intros r [Hin|[<-|[]]]%in_app_iff; [apply Hr, Hin|]. cbn.
  pose proof (nextID_positive (List.map Release_ID (releases st))). lia.
Qed.

Lemma promoteAll_wellKeyed (cs : list Binary) (st : Store) :
  wellKeyed st -> wellKeyed (snd (promoteAll cs st)).
Proof.
  apply (promoteAll_rel (fun _ st st1 => wellKeyed st -> wellKeyed st1)).
  - auto.
  - auto.
  - intros c _ st0 dbbin g s st1 _ _ H Hw. apply H, committed_wellKeyed, Hw.
Qed.

(** A Binary that is not among the candidates stays. *)
Lemma promoteAll_keeps (cs : list Binary) (st : Store) (b : BinaryRow) :
  In b (binaries st) -> ~ In (Binary_ID b) (List.map keyOf cs) ->
  In b (binaries (snd (promoteAll cs st))).
Proof.
  apply (promoteAll_rel (fun cs st st1 =>
    In b (binaries st) -> ~ In (Binary_ID b) (List.map keyOf cs) -> In b (binaries st1))).
  - auto.
  - intros c cs0 st0 st1 H Hb Hn. apply H; [exact Hb|]. intros Hin. apply Hn. right. exact Hin.
  - intros c cs0 st0 dbbin g s st1 _ Hl H Hb Hn.
    apply loadBinary_Some in Hl as (Hid & _ & _).
    apply H.
    + apply committed_binaries. split; [exact Hb|]. rewrite Hid. intros He. apply Hn. left.
      symmetry. exact He.
    + intros Hin. apply Hn. right. exact Hin.
Qed.

Lemma stillThere_In (st : Store) (c : Binary) :
  stillThere st c = true <-> exists b, In b (binaries st) /\ Binary_ID b = keyOf c.
Proof.
  unfold stillThere. rewrite existsb_exists. split; intros (b & Hb & He); exists b;
    (split; [exact Hb|]); apply Z.eqb_eq; exact He.
Qed.

Lemma promoteAll_stopped (c : Binary) (cs : list Binary) (st : Store) (r : outcome unit) :
  r <> Ok tt -> promoteStore c st = (r, st) -> promoteAll (c :: cs) st = (r, st).
Proof.
  intros Hr H. cbn [promotion.promoteAll]. rewrite H.
  destruct r as [[]| |]; [contradiction|reflexivity|reflexivity].
Qed.

(** The second run over the candidates that are still there ends as the
    first run did and changes nothing. *)
Lemma promoteAll_again (cs : list Binary) (st : Store) :
  wellKeyed st ->
  List.NoDup (List.map keyOf cs) ->
  (forall c, In c cs -> stillThere st c = true) ->
  promoteAll (List.filter (stillThere (snd (promoteAll cs st))) cs) (snd (promoteAll cs st))
  = promoteAll cs st.
Proof.
  revert st. induction cs as [|c cs IH]; intros st Hw Hnd Hall; [reflexivity|].
  inversion Hnd as [|? ? Hc Hnd']; subst.
  assert (Hall' : forall c', In c' cs -> stillThere st c' = true)
    by (intros c' Hc'; apply Hall; right; exact Hc').
  destruct (promoteStore_cases c st)
    as [[Hnz Hp]|[(r & Hr & Hp)|(Hz & dbbin & g & s & Hl & Hp)]].
  - assert (Hrun : promoteAll (c :: cs) st = promoteAll cs st)
      by (cbn [promotion.promoteAll]; rewrite Hp; reflexivity).
    rewrite Hrun. set (st1 := snd (promoteAll cs st)).
    assert (Hstill : stillThere st1 c = true).
    { apply stillThere_In. destruct (proj1 (stillThere_In st c) (Hall c (or_introl eq_refl)))
        as (b & Hb & He).
      exists b. split; [|exact He]. apply promoteAll_keeps; [exact Hb|]. rewrite He. exact Hc. }
    cbn [List.filter]. rewrite Hstill. cbn [promotion.promoteAll].
    assert (Hdup : promoteStore c st1 = (Ok tt, st1)).
    { unfold promotion.promoteStore.
      assert (Hnz1 : Release_ID (dbrelOf noFaults c st1) <> 0).
      { destruct (promoteAll_wellKeyed cs st Hw) as (_ & _ & Hids).
        apply dbrelOf_found; [reflexivity|exact Hids|].
        apply dbrelOf_found in Hnz as (rel & Hin & Hkey); [|reflexivity|apply Hw].
        exists rel. split; [|exact Hkey]. apply promoteAll_monotone, Hin. }
      apply Z.eqb_neq in Hnz1. rewrite Hnz1. reflexivity. }
    rewrite Hdup. apply IH; assumption.
  - rewrite (promoteAll_stopped c cs st r Hr Hp). cbn [snd].
    rewrite filter_all by exact Hall. apply promoteAll_stopped; assumption.
  - assert (Hrun : promoteAll (c :: cs) st
                   = promoteAll cs (committed (newRelease c g dbbin s) dbbin st))
      by (cbn [promotion.promoteAll]; rewrite Hp; reflexivity).
    rewrite Hrun. set (st2 := committed (newRelease c g dbbin s) dbbin st) in *.
    set (st1 := snd (promoteAll cs st2)).
    destruct (loadBinary_Some _ _ _ Hl) as (Hid & _ & _).
    assert (Hgone : stillThere st1 c = false).
    { apply not_true_iff_false. intros (b & Hb & He)%stillThere_In.
      apply promoteAll_monotone, committed_binaries in Hb as [_ Hne].
      apply Hne. rewrite Hid. exact He. }
    cbn [List.filter]. rewrite Hgone. apply IH.
    + apply committed_wellKeyed, Hw.
    + exact Hnd'.
    + intros c' Hc'. apply stillThere_In.
      destruct (proj1 (stillThere_In st c') (Hall' c' Hc')) as (b & Hb & He).
      exists b. split; [|exact He]. apply committed_binaries. split; [exact Hb|].
      rewrite Hid, He. intros Heq. apply Hc. unfold keyOf in *. rewrite <- Heq.
      apply (in_map (fun c => Binary_ID (Binary_row c))). exact Hc'.
Qed.

(** ** The candidates of the second run *)

Lemma filter_filter_implied {A : Type} (f g : A -> bool) (l : list A) :
  (forall x, In x l -> f x = true -> g x = true) ->
  List.filter f (List.filter g l) = List.filter f l.
Proof.
  intros H. induction l as [|x l IH]; [reflexivity|]. cbn.
  assert (IH' := IH (fun y Hy => H y (or_intror Hy))).
  destruct (g x) eqn:Hg; cbn; [rewrite IH'; reflexivity|].
  destruct (f x) eqn:Hf; [|exact IH'].
  rewrite (H x (or_introl eq_refl) Hf) in Hg. discriminate.
Qed.

Lemma hasBinaryID_unique (i j : Z) (p : PartRow) :
  hasBinaryID i p = true -> hasBinaryID j p = true -> i = j.
Proof.
  unfold hasBinaryID. destruct (Part_BinaryID p); [|discriminate].
  intros H1%Z.eqb_eq H2%Z.eqb_eq. congruence.
Qed.

Lemma same_part_key (st : Store) (p p' : PartRow) :
  List.NoDup (List.map Part_ID (parts st)) ->
  In p (parts st) -> In p' (parts st) -> Part_ID p = Part_ID p' -> p = p'.
Proof. intros keys. apply same_key. exact keys. Qed.

(** A committed transaction leaves the joined rows of the other Binaries. *)
Lemma committed_joinedParts (newrel : Release) (dbbin : Binary) (st : Store)
  (b : BinaryRow) :
  wellKeyed st ->
  loadBinary (Binary_ID (Binary_row dbbin)) st = Some dbbin ->
  Binary_ID b <> Binary_ID (Binary_row dbbin) ->
  joinedParts (committed newrel dbbin st) b = joinedParts st b.
Proof.
  intros (keys & _ & _) Hl Hne. set (st2 := committed newrel dbbin st).
  set (id := Binary_ID (Binary_row dbbin)) in *.
  destruct (loadBinary_Some _ _ _ Hl) as (_ & _ & Hids).
  assert (Hpo : partsOf st2 b = partsOf st b).
  { unfold partsOf, st2, committed. cbn. apply filter_filter_implied.
    intros p _ Hp. apply negb_true_iff, not_true_iff_false. intros Hq.
    apply Hne. eapply hasBinaryID_unique; eassumption. }
  assert (Hav : forall p, In p (partsOf st b) -> available st2 p = available st p).
  { intros p [Hp Hb]%filter_In. unfold available, segmentsOf, st2, committed. cbn.
    f_equal. f_equal. apply filter_filter_implied.
    intros x _ Hx%Z.eqb_eq. apply negb_true_iff, not_true_iff_false.
    intros (i & Hi & He)%existsb_exists. apply Z.eqb_eq in He. subst i.
    rewrite Hids, Hx in Hi. apply in_map_iff in Hi as (p' & Hk & [Hp' Hb']%filter_In).
    pose proof (same_part_key st p' p keys Hp' Hp Hk) as ->.
    apply Hne. eapply hasBinaryID_unique; eassumption. }
  rewrite !joinedParts_counted. unfold countedParts. rewrite Hpo.
  rewrite (List.filter_ext_in (fun p => 0 <? available st2 p) (fun p => 0 <? available st p))
    by (intros p Hp; rewrite Hav by exact Hp; reflexivity).
  apply List.map_ext_in. intros p [Hp _]%filter_In. rewrite Hav by exact Hp. reflexivity.
Qed.

Lemma promoteAll_joinedParts (cs : list Binary) (st : Store) :
  wellKeyed st ->
  forall b, In b (binaries (snd (promoteAll cs st))) ->
            joinedParts (snd (promoteAll cs st)) b = joinedParts st b.
Proof.
  enough (H : (forall b, In b (binaries (snd (promoteAll cs st))) -> In b (binaries st))
              /\ (wellKeyed st ->
                  forall b, In b (binaries (snd (promoteAll cs st))) ->
                            joinedParts (snd (promoteAll cs st)) b = joinedParts st b))
    by apply H.
  apply (promoteAll_rel (fun _ st st1 =>
    (forall b, In b (binaries st1) -> In b (binaries st))
    /\ (wellKeyed st ->
        forall b, In b (binaries st1) -> joinedParts st1 b = joinedParts st b))).
  - intros _ st0. split; auto.
  - intros _ _ st0 st1 H. exact H.
  - intros c cs0 st0 dbbin g s st1 _ Hl [Hmono H].
    destruct (loadBinary_Some _ _ _ Hl) as (Hid & _ & _).
    split; [intros b Hb; apply Hmono, committed_binaries in Hb; tauto|].
    intros Hw b Hb. rewrite H; [|apply committed_wellKeyed, Hw|exact Hb].
    apply committed_joinedParts; [exact Hw|rewrite Hid; exact Hl|].
    apply Hmono, committed_binaries in Hb. tauto.
Qed.

Lemma filter_filter {A : Type} (f g : A -> bool) (l : list A) :
  List.filter f (List.filter g l) = List.filter (fun x => g x && f x) l.
Proof.
  induction l as [|x l IH]; [reflexivity|]. cbn.
  destruct (g x); cbn; [destruct (f x)|]; rewrite IH; reflexivity.
Qed.

Lemma promoteAll_binaries (cs : list Binary) (st : Store) :
  exists f, binaries (snd (promoteAll cs st)) = List.filter f (binaries st).
Proof.
  apply (promoteAll_rel (fun _ st st1 =>
    exists f, binaries st1 = List.filter f (binaries st))).
  - intros _ st0. exists (fun _ => true). symmetry. apply filter_all. reflexivity.
  - intros _ _ st0 st1 H. exact H.
  - intros c _ st0 dbbin g s st1 _ _ [f Hf]. unfold committed in Hf. cbn in Hf.
    rewrite filter_filter in Hf. eexists. exact Hf.
Qed.

(** The Binaries after the loop are those of before whose key is still there. *)
Lemma promoteAll_binaries_still (cs : list Binary) (st : Store) :
  wellKeyed st ->
  binaries (snd (promoteAll cs st))
  = List.filter
      (fun b => existsb (fun x => Binary_ID x =? Binary_ID b)
                  (binaries (snd (promoteAll cs st))))
      (binaries st).
Proof.
  intros (_ & keys & _). destruct (promoteAll_binaries cs st) as [f Hf].
  rewrite Hf at 1. apply List.filter_ext_in. intros b Hb.
  destruct (f b) eqn:Hfb; symmetry.
  - apply existsb_exists. exists b. split; [|apply Z.eqb_refl].
    rewrite Hf. apply filter_In. auto.
  - apply not_true_iff_false. intros (x & Hx & He)%existsb_exists.
    apply Z.eqb_eq in He. rewrite Hf in Hx. apply filter_In in Hx as [Hx Hfx].
    assert (x = b); [|congruence].
    clear -keys Hx Hb He. induction (binaries st) as [|y l IH]; [destruct Hx|].
    cbn in keys. inversion keys as [|? ? Hy Hl]; subst.
    destruct Hx as [->|Hx], Hb as [->|Hb]; try reflexivity.
    + exfalso. apply Hy. rewrite He. apply in_map, Hb.
    + exfalso. apply Hy. rewrite <- He. apply in_map, Hx.
    + apply IH; assumption.
Qed.

(** [ORDER BY] and a filter commute. *)
Lemma insertByPosted_first (x : Binary) (l : list Binary) :
  Forall (byPosted x) l -> insertByPosted x l = x :: l.
Proof.
  intros H. destruct l as [|c l]; [reflexivity|]. cbn.
  inversion H as [|? ? Hc _]; subst. unfold byPosted in Hc.
  destruct (Z.leb_spec (Binary_Posted (Binary_row c)) (Binary_Posted (Binary_row x)));
    [reflexivity|lia].
Qed.

Lemma insertByPosted_filter (f : Binary -> bool) (x : Binary) (l : list Binary) :
  StronglySorted byPosted l ->
  List.filter f (insertByPosted x l)
  = if f x then insertByPosted x (List.filter f l) else List.filter f l.
Proof.
  induction 1 as [|c l Hl IH Hc]; [cbn; destruct (f x); reflexivity|].
  cbn [insertByPosted].
  destruct (Z.leb_spec (Binary_Posted (Binary_row c)) (Binary_Posted (Binary_row x))) as [Hle|Hgt].
  - change (List.filter f (x :: c :: l))
      with (if f x then x :: List.filter f (c :: l) else List.filter f (c :: l)).
    destruct (f x); [|reflexivity].
    symmetry. apply insertByPosted_first.
    assert (Hall : Forall (byPosted x) (c :: l)).
    { constructor; [exact Hle|]. eapply List.Forall_impl; [|exact Hc].
      unfold byPosted. intros a Ha. lia. }
    apply List.Forall_forall. intros y Hy. apply filter_In in Hy as [Hy _].
    revert y Hy. apply List.Forall_forall. exact Hall.
  - cbn [List.filter]. rewrite IH. destruct (f c), (f x); try reflexivity.
    cbn [insertByPosted].
    destruct (Z.leb_spec (Binary_Posted (Binary_row c)) (Binary_Posted (Binary_row x)));
      [lia|reflexivity].
Qed.

Lemma insertByPosted_sorted (x : Binary) (l : list Binary) :
  StronglySorted byPosted l -> StronglySorted byPosted (insertByPosted x l).
Proof.
  induction 1 as [|c l Hl IH Hc]; [cbn; repeat constructor|].
  cbn [insertByPosted].
  destruct (Z.leb_spec (Binary_Posted (Binary_row c)) (Binary_Posted (Binary_row x))) as [Hle|Hgt].
  - constructor; [constructor; assumption|].
    constructor; [exact Hle|]. eapply List.Forall_impl; [|exact Hc].
    unfold byPosted. intros a Ha. lia.
  - constructor; [exact IH|]. apply List.Forall_forall. intros y Hy.
    apply In_insertByPosted in Hy as [->|Hy]; [unfold byPosted; lia|].
    revert y Hy. apply List.Forall_forall. exact Hc.
Qed.

Lemma sortByPosted_sorted (l : list Binary) : StronglySorted byPosted (sortByPosted l).
Proof.
  induction l as [|x l IH]; [constructor|]. cbn. apply insertByPosted_sorted, IH.
Qed.

Lemma sortByPosted_filter (f : Binary -> bool) (l : list Binary) :
  sortByPosted (List.filter f l) = List.filter f (sortByPosted l).
Proof.
  induction l as [|x l IH]; [reflexivity|]. cbn [List.filter sortByPosted fold_right].
  fold (sortByPosted l). rewrite insertByPosted_filter by apply sortByPosted_sorted.
  destruct (f x); cbn [sortByPosted fold_right]; rewrite <- IH; reflexivity.
Qed.

Lemma map_filter_comm {A B : Type} (h : A -> B) (f : A -> bool) (g : B -> bool)
  (l : list A) :
  (forall x, g (h x) = f x) ->
  List.map h (List.filter f l) = List.filter g (List.map h l).
Proof.
  intros H. induction l as [|x l IH]; [reflexivity|]. cbn. rewrite H.
  destruct (f x); cbn; rewrite IH; reflexivity.
Qed.

Lemma ready_joinedParts (st st' : Store) (b : BinaryRow) :
  joinedParts st' b = joinedParts st b -> ready st' b = ready st b.
Proof. unfold ready, having. intros ->. reflexivity. Qed.

(** The candidates after the loop are the candidates of before that are
    still there, in the same order. *)
Lemma readyBinaries_after (cs : list Binary) (st : Store) :
  wellKeyed st ->
  readyBinaries 100 (snd (promoteAll cs st))
  = List.filter (stillThere (snd (promoteAll cs st))) (readyBinaries 100 st).
Proof.
  intros Hw. set (st1 := snd (promoteAll cs st)).
  unfold readyBinaries. fold (ready st1). fold (ready st).
  rewrite <- sortByPosted_filter. f_equal.
  rewrite (List.filter_ext_in (ready st1) (ready st))
    by (intros b Hb; apply ready_joinedParts, promoteAll_joinedParts; assumption).
  rewrite <- (map_filter_comm scanBinary
                (fun b => existsb (fun x => Binary_ID x =? Binary_ID b) (binaries st1)))
    by reflexivity.
  f_equal. unfold st1. rewrite (promoteAll_binaries_still cs st Hw) at 1. fold st1.
  rewrite !filter_filter. apply List.filter_ext. intros b. apply andb_comm.
Qed.

(** ** What the first run leaves of a promoted Binary *)

Lemma In_releasesOf (name : string) (posted : Z) (st : Store) (r : Release) :
  In r (releasesOf name posted st)
  <-> In r (releases st) /\ Release_Name r = name /\ Release_Posted r = posted.
Proof.
  unfold releasesOf. rewrite filter_In, andb_true_iff, String.eqb_eq, Z.eqb_eq. tauto.
Qed.

Lemma not_duplicate (c : Binary) (st : Store) :
  wellKeyed st -> Release_ID (dbrelOf noFaults c st) = 0 ->
  releasesOf (Binary_Name (Binary_row c)) (Binary_Posted (Binary_row c)) st = [].
Proof.
  intros (_ & _ & Hids) Hz.
  destruct (releasesOf _ _ st) as [|r l] eqn:Hr; [reflexivity|]. exfalso.
  assert (Hin : In r (releasesOf (Binary_Name (Binary_row c))
                        (Binary_Posted (Binary_row c)) st))
    by (rewrite Hr; left; reflexivity).
  apply In_releasesOf in Hin.
  revert Hz. apply dbrelOf_found; [reflexivity|exact Hids|]. exists r. exact Hin.
Qed.

Lemma releasesOf_committed (name : string) (posted : Z) (c dbbin : Binary) (g : Group)
  (s : string) (st : Store) :
  releasesOf name posted (committed (newRelease c g dbbin s) dbbin st)
  = (releasesOf name posted st
       ++ if String.eqb (Binary_Name (Binary_row c)) name
             && (Binary_Posted (Binary_row c) =? posted)
          then [setReleaseID (nextID (List.map Release_ID (releases st)))
                  (newRelease c g dbbin s)]
          else [])%list.
Proof.
  unfold releasesOf. rewrite committed_releases, List.filter_app. cbn.
  destruct (_ && _); reflexivity.
Qed.

(** Once a name and date have a Release, the loop adds no other. *)
Lemma promoteAll_releasesOf (name : string) (posted : Z) (cs : list Binary) (st : Store) :
  wellKeyed st ->
  releasesOf name posted st <> [] ->
  releasesOf name posted (snd (promoteAll cs st)) = releasesOf name posted st.
Proof.
  apply (promoteAll_rel (fun _ st st1 =>
    wellKeyed st -> releasesOf name posted st <> [] ->
    releasesOf name posted st1 = releasesOf name posted st)).
  - reflexivity.
  - intros _ _ st0 st1 H. exact H.
  - intros c _ st0 dbbin g s st1 Hz _ H Hw Hne.
    assert (Hsame : releasesOf name posted (committed (newRelease c g dbbin s) dbbin st0)
                    = releasesOf name posted st0).
    { rewrite releasesOf_committed.
      destruct (String.eqb_spec (Binary_Name (Binary_row c)) name) as [<-|];
        [|apply List.app_nil_r].
      destruct (Z.eqb_spec (Binary_Posted (Binary_row c)) posted) as [<-|];
        [|apply List.app_nil_r].
      exfalso. apply Hne. apply not_duplicate; assumption. }
    rewrite H; [exact Hsame|apply committed_wellKeyed, Hw|rewrite Hsame; exact Hne].
Qed.

(** A candidate that is gone after the loop was promoted: it has exactly one
    Release, and no Part of it and no Segment of its Parts is left. *)
Lemma promoteAll_promoted (cs : list Binary) (st : Store) (c : Binary) :
  wellKeyed st ->
  List.NoDup (List.map keyOf cs) ->
  (forall c, In c cs -> stillThere st c = true) ->
  In c cs ->
  stillThere (snd (promoteAll cs st)) c = false ->
  List.length (releasesOf (Binary_Name (Binary_row c)) (Binary_Posted (Binary_row c))
                 (snd (promoteAll cs st))) = 1%nat
  /\ (forall p, In p (parts (snd (promoteAll cs st))) -> hasBinaryID (keyOf c) p = false)
  /\ (forall s p, In s (segments (snd (promoteAll cs st))) ->
                  In p (parts st) -> hasBinaryID (keyOf c) p = true ->
                  Segment_PartID s <> Part_ID p).
Proof.
  revert st. induction cs as [|c0 cs IH]; intros st Hw Hnd Hall Hc Hgone; [destruct Hc|].
  inversion Hnd as [|? ? Hc0 Hnd']; subst.
  assert (Hall' : forall c', In c' cs -> stillThere st c' = true)
    by (intros c' Hc'; apply Hall; right; exact Hc').
  destruct (promoteStore_cases c0 st)
    as [[Hnz Hp]|[(r & Hr & Hp)|(Hz & dbbin & g & s & Hl & Hp)]].
  - assert (Hrun : promoteAll (c0 :: cs) st = promoteAll cs st)
      by (cbn [promotion.promoteAll]; rewrite Hp; reflexivity).
    rewrite Hrun in *. destruct Hc as [<-|Hc]; [|apply IH; assumption].
    exfalso. apply not_true_iff_false in Hgone. apply Hgone, stillThere_In.
    destruct (proj1 (stillThere_In st c0) (Hall c0 (or_introl eq_refl))) as (b & Hb & He).
    exists b. split; [|exact He]. apply promoteAll_keeps; [exact Hb|]. rewrite He. exact Hc0.
  - rewrite (promoteAll_stopped c0 cs st r Hr Hp) in Hgone. cbn [snd] in Hgone.
    rewrite (Hall c Hc) in Hgone. discriminate.
  - assert (Hrun : promoteAll (c0 :: cs) st
                   = promoteAll cs (committed (newRelease c0 g dbbin s) dbbin st))
      by (cbn [promotion.promoteAll]; rewrite Hp; reflexivity).
    rewrite Hrun in *. set (st2 := committed (newRelease c0 g dbbin s) dbbin st) in *.
    destruct (loadBinary_Some _ _ _ Hl) as (Hid & _ & Hids).
    assert (Hw2 : wellKeyed st2) by apply committed_wellKeyed, Hw.
    destruct (promoteAll_monotone cs st2) as (Hmp & Hms & _ & _).
    destruct Hc as [<-|Hc].
    + split; [|split].
      * rewrite promoteAll_releasesOf; [| exact Hw2 |].
        -- unfold st2. rewrite releasesOf_committed, not_duplicate by assumption.
           rewrite String.eqb_refl, Z.eqb_refl. reflexivity.
        -- unfold st2. rewrite releasesOf_committed, not_duplicate by assumption.
           rewrite String.eqb_refl, Z.eqb_refl. discriminate.
      * intros p Hin. apply Hmp, committed_parts in Hin as [_ Hin].
        rewrite Hid in Hin. exact Hin.
      * intros x p Hx Hp' Hh He. apply Hms, committed_segments in Hx as [_ Hx].
        apply Hx. rewrite Hids, He. apply in_map. apply filter_In. auto.
    + assert (Hne : keyOf c <> keyOf c0).
      { intros He. apply Hc0. rewrite <- He. apply in_map. exact Hc. }
      destruct (IH st2) as (H1 & H2 & H3); try assumption.
      { intros c' Hc'. apply stillThere_In.
        destruct (proj1 (stillThere_In st c') (Hall' c' Hc')) as (b & Hb & He).
        exists b. split; [|exact He]. apply committed_binaries. split; [exact Hb|].
        rewrite Hid, He. intros Heq. apply Hc0. unfold keyOf in *. rewrite <- Heq.
        apply (in_map (fun c => Binary_ID (Binary_row c))). exact Hc'. }
      split; [exact H1|]. split; [exact H2|].
      intros x p Hx Hp' Hh. apply H3; [exact Hx| |exact Hh].
      apply committed_parts. split; [exact Hp'|].
      apply not_true_iff_false. intros Hq. apply Hne. rewrite Hid in Hq.
      eapply hasBinaryID_unique; eassumption.
Qed.

(** ** The two runs *)

Lemma insertByPosted_Permutation (x : Binary) (l : list Binary) :
  Permutation (insertByPosted x l) (x :: l).
Proof.
  induction l as [|c l IH]; [reflexivity|]. cbn.
  destruct (_ <=? _); [reflexivity|].
  rewrite IH. apply perm_swap.
Qed.

Lemma sortByPosted_Permutation (l : list Binary) : Permutation (sortByPosted l) l.
Proof.
  induction l as [|x l IH]; [reflexivity|]. cbn.
  rewrite insertByPosted_Permutation. apply perm_skip, IH.
Qed.

(** The candidates have distinct keys, and their Binaries are in the store. *)
Lemma readyBinaries_candidates (st : Store) :
  wellKeyed st ->
  List.NoDup (List.map keyOf (readyBinaries 100 st))
  /\ (forall c, In c (readyBinaries 100 st) -> stillThere st c = true).
Proof.
  intros (_ & keys & _). split.
  - unfold readyBinaries.
    eapply Permutation_NoDup;
      [apply Permutation_map; symmetry; apply sortByPosted_Permutation|].
    rewrite List.map_map. unfold keyOf, scanBinary. cbn [Binary_row Binary_ID].
    apply NoDup_map_filter, keys.
  - intros c (b & Hb & -> & _)%In_readyBinaries. apply stillThere_In.
    exists b. split; [exact Hb|reflexivity].
Qed.

Lemma MakeReleases_promoteAll (w : World) :
  fst (MakeReleases noFaults WriteNZB w)
  = fst (promoteAll (readyBinaries 100 (store_of w)) (store_of w))
  /\ store_of (snd (MakeReleases noFaults WriteNZB w))
     = snd (promoteAll (readyBinaries 100 (store_of w)) (store_of w)).
Proof.
  unfold MakeReleases, bind, check, getStore. cbn [readyQuery_err noFaults ret].
  apply forEach_promoteAll.
Qed.


End Idempotence.


(** * The grouper under store faults *)

(** A turn of the grouper with store faults: the turn of [groupStep], or
    the error of the Save with the world as it was. *)
Lemma groupPart_cases (flt : Faults) (bins : gmap string Binary) (p : Part) (w : World) :
  (exists lg,
      groupPart flt bins p w
      = (Ok (fst (groupStep (bins, store_of w) p)),
         mkWorld (snd (groupStep (bins, store_of w) p)) lg))
  \/ (exists e bin,
         saveBinary_err flt bin = Some e
         /\ hashOf (Part_row p) <> None
         /\ groupPart flt bins p w = (Failed e, w)).
Proof.
  destruct (subjectFields_total (Part_Subject (Part_row p)) w) as (m & Hm & _).
  pose proof (subjectFields_world (Part_Subject (Part_row p)) w emptyWorld) as Hw.
  rewrite Hm in Hw. cbn [fst] in Hw.
  unfold groupPart, groupStep, hashOf, created, parsedSubject, bind. rewrite Hm, <- Hw.
  destruct (hasNameAndParts m) eqn:Hnp; cbn [negb]; [|left; eexists; reflexivity].
  cbv zeta. rewrite !get_normalized.
  destruct (Z.eqb_spec (Index (normalizeParts (get m "parts")) "/") (-1)) as [Hi|Hi].
  { apply Index_cut in Hi. unfold SplitN2. rewrite Hi. left. eexists. reflexivity. }
  destruct (SplitN2_slash _ Hi) as (index & total & Hs & _). rewrite Hs.
  cbn [lookup list_lookup].
  assert (Hname : get (if Index (get m "parts") "/" =? -1
                       then <["parts" := normalizeParts (get m "parts")]> m else m) "name"
                  = get m "name").
  { destruct (_ =? _); [|reflexivity]. unfold get. rewrite lookup_insert_ne by discriminate. reflexivity. }
  rewrite !Hname.
  set (h := makeBinaryHash _ _ _ _).
  unfold saveAt.
  destruct (bins !! h) as [bin|] eqn:Hb; rewrite lookup_insert_eq;
    unfold bind, check, getStore, putStore, ret, fail;
    match goal with
    | |- context [saveBinary_err flt ?b] => destruct (saveBinary_err flt b) as [e|] eqn:He
    end;
    try (right; eexists; eexists; split; [exact He|]; split; [discriminate|reflexivity]);
    destruct (saveBinary _ (store_of w)) as [bin' st'] eqn:Hsave; cbn;
    rewrite insert_insert_eq; left; eexists; reflexivity.
Qed.

(** The loop of the grouper with store faults: the fold of [groupStep] over
    the Parts before the first failing Save. *)
Lemma groupParts_prefix (flt : Faults) (ps : list Part) (bins : gmap string Binary)
  (w : World) :
  exists done rest lg,
    ps = (done ++ rest)%list
    /\ snd (groupParts flt bins ps w)
       = mkWorld (snd (fold_left groupStep done (bins, store_of w))) lg
    /\ ((rest = []
         /\ fst (groupParts flt bins ps w)
            = Ok (fst (fold_left groupStep done (bins, store_of w))))
        \/ (exists e p rest' bin,
               rest = p :: rest'
               /\ saveBinary_err flt bin = Some e
               /\ fst (groupParts flt bins ps w) = Failed e)).
Proof.
  revert bins w. induction ps as [|p ps IH]; intros bins w.
  - exists [], [], (logs w). cbn. destruct w. repeat split. left. split; reflexivity.
  - cbn [groupParts]. unfold bind.
    destruct (groupPart_cases flt bins p w) as [[lg ->]|(e & bin & He & _ & ->)].
    + destruct (IH (fst (groupStep (bins, store_of w) p))
                  (mkWorld (snd (groupStep (bins, store_of w) p)) lg))
        as (done & rest & lg' & -> & Hw & Hr).
      cbn [store_of] in Hw, Hr. rewrite <- surjective_pairing in Hw, Hr.
      exists (p :: done), rest, lg'. split; [reflexivity|]. cbn [fold_left].
      split; [exact Hw|exact Hr].
    + exists [], (p :: ps), (logs w). cbn. destruct w. repeat split.
      right. exists e, p, ps, bin. auto.
Qed.

(** X1: [MakeBinaries] does not panic: the indexing of the captures, of the two
    counts and of the map of the run are all in range. *)
Theorem MakeBinaries_never_panics (flt : Faults) (w : World) :
  fst (MakeBinaries flt w) = Ok tt
  \/ exists e, fst (MakeBinaries flt w) = Failed e
               /\ (findUngroupedParts_err flt = Some e
                   \/ exists bin, saveBinary_err flt bin = Some e).
Proof.
  unfold MakeBinaries, bind, check, getStore.
  destruct (findUngroupedParts_err flt) as [e|] eqn:Hq.
  { right. exists e. split; [reflexivity|left; reflexivity]. }
  cbn.
  destruct (groupParts_prefix flt (ungroupedParts (store_of w)) ∅ w)
    as (done & rest & lg & _ & _ & [[_ Hr]|(e & p & rest' & bin & _ & He & Hr)]).
  - left. destruct (groupParts _ _ _ _) as [r w']. cbn in Hr. subst r. reflexivity.
  - right. exists e. destruct (groupParts _ _ _ _) as [r w']. cbn in Hr. subst r.
    split; [reflexivity|]. right. exists bin. exact He.
Qed.

(** ** What the grouper leaves alone *)

Lemma saveBinary_others (b : Binary) (st : Store) :
  groups (snd (saveBinary b st)) = groups st
  /\ segments (snd (saveBinary b st)) = segments st
  /\ releases (snd (saveBinary b st)) = releases st.
Proof.
  unfold saveBinary. cbn [snd].
  set (st0 := withBinaries _ st).
  change (groups st) with (groups st0). change (segments st) with (segments st0).
  change (releases st) with (releases st0). clearbody st0.
  generalize (List.map
    (fun p => mkPart (setPartBinaryID
                        (Some (if Binary_ID (Binary_row b) =? 0
                               then nextID (List.map Binary_ID (binaries st))
                               else Binary_ID (Binary_row b))) (Part_row p))
                (Part_Segments p)) (Binary_Parts b)).
  intros ps. revert st0. induction ps as [|p ps IH]; intros st0; [auto|].
  cbn [fold_left]. destruct (IH (updatePart (Part_row p) st0)) as (Hg & Hs & Hr).
  rewrite Hg, Hs, Hr. auto.
Qed.

Lemma groupStep_others (acc : gmap string Binary * Store) (p : Part) :
  groups (snd (groupStep acc p)) = groups (snd acc)
  /\ segments (snd (groupStep acc p)) = segments (snd acc)
  /\ releases (snd (groupStep acc p)) = releases (snd acc).
Proof.
  destruct acc as [bins st]. unfold groupStep.
  destruct (hashOf (Part_row p)) as [h|]; [|auto].
  match goal with
  | |- context [saveBinary ?b st] =>
      pose proof (saveBinary_others b st) as H; destruct (saveBinary b st) as [bin' st']
  end.
  exact H.
Qed.

Lemma fold_groupStep_others (ps : list Part) (acc : gmap string Binary * Store) :
  groups (snd (fold_left groupStep ps acc)) = groups (snd acc)
  /\ segments (snd (fold_left groupStep ps acc)) = segments (snd acc)
  /\ releases (snd (fold_left groupStep ps acc)) = releases (snd acc).
Proof.
  revert acc. induction ps as [|p ps IH]; intros acc; [auto|].
  cbn [fold_left]. destruct (IH (groupStep acc p)) as (Hg & Hs & Hr).
  destruct (groupStep_others acc p) as (Hg' & Hs' & Hr').
  rewrite Hg, Hs, Hr. auto.
Qed.

(** The store that [MakeBinaries] leaves, whatever fails: the fold of
    [groupStep] over the first ones of the ungrouped Parts. *)
Lemma MakeBinaries_prefix (flt : Faults) (w : World) :
  exists done rest,
    List.map Part_row (ungroupedParts (store_of w)) = (done ++ rest)%list
    /\ store_of (snd (MakeBinaries flt w))
       = snd (fold_left groupStep (List.map (fun r => mkPart r []) done) (∅, store_of w)).
Proof.
  unfold MakeBinaries, bind, check, getStore.
  destruct (findUngroupedParts_err flt) as [e|].
  { exists [], (List.map Part_row (ungroupedParts (store_of w))). split; reflexivity. }
  cbn.
  destruct (groupParts_prefix flt (ungroupedParts (store_of w)) ∅ w)
    as (done & rest & lg & Hps & Hw & _).
  exists (List.map Part_row done), (List.map Part_row rest).
  split; [rewrite Hps, List.map_app; reflexivity|].
  assert (Hd : List.map (fun r => mkPart r []) (List.map Part_row done) = done).
  { pose proof (ungroupedParts_rows (store_of w)) as Hrows. rewrite Hps in Hrows.
    rewrite !List.map_app in Hrows. apply app_inj_1 in Hrows; [|now rewrite !length_map].
    symmetry. exact (proj1 Hrows). }
  rewrite Hd.
  destruct (groupParts flt ∅ (ungroupedParts (store_of w)) w) as [r w'].
  cbn [snd] in Hw. subst w'. destruct r; reflexivity.
Qed.

Lemma Forall2_map_In {A B : Type} (R : A -> B -> Prop) (f : A -> B) (l : list A) :
  (forall x, In x l -> R x (f x)) -> Forall2 R l (List.map f l).
Proof.
  induction l as [|x l IH]; intros H; [constructor|].
  cbn. constructor; [apply H; left; reflexivity|apply IH; intros y Hy; apply H; right; exact Hy].
Qed.

(** The invariant of the loop holds for the store that [MakeBinaries]
    leaves, whatever fails. *)
Lemma MakeBinaries_Inv (flt : Faults) (w : World) :
  List.NoDup (List.map Part_ID (parts (store_of w))) ->
  exists done rest bins news,
    List.map Part_row (ungroupedParts (store_of w)) = (done ++ rest)%list
    /\ Inv (store_of w) done bins (store_of (snd (MakeBinaries flt w))) news.
Proof.
  intros keys.
  destruct (MakeBinaries_prefix flt w) as (done & rest & HU & ->).
  assert (Hin : forall d, In d done -> In d (parts (store_of w))).
  { intros d Hd. apply (In_ungrouped (store_of w)). rewrite HU. apply in_app_iff. auto. }
  assert (Hnd : List.NoDup done).
  { pose proof (NoDup_ungrouped (store_of w) keys) as H. rewrite HU in H.
    apply NoDup_app_remove_r in H. exact H. }
  destruct (Inv_run (store_of w) keys done [] ∅ (store_of w) [] Hin Hnd
              (Inv_start (store_of w))) as [news HI].
  cbn [app] in HI. eauto 8.
Qed.

(** X3: [MakeBinaries] only assigns: whatever fails, it leaves the Groups, the
    Segments and the Releases as they are, it adds Binaries after the ones
    that were there, and it keeps every Part, changing nothing but the
    Binary key of Parts that had none. *)
Theorem MakeBinaries_only_assigns (flt : Faults) (w : World) :
  List.NoDup (List.map Part_ID (parts (store_of w))) ->
  let st := store_of w in
  let st' := store_of (snd (MakeBinaries flt w)) in
  groups st' = groups st
  /\ segments st' = segments st
  /\ releases st' = releases st
  /\ (exists news, binaries st' = (binaries st ++ news)%list)
  /\ Forall2
       (fun r r' =>
          r' = r
          \/ (Part_BinaryID r = None /\ exists id, r' = setPartBinaryID (Some id) r))
       (parts st) (parts st').
Proof.
  intros keys st st'.
  destruct (MakeBinaries_prefix flt w) as (done0 & rest0 & _ & Hst).
  destruct (fold_groupStep_others (List.map (fun r => mkPart r []) done0) (∅, store_of w))
    as (Hg & Hs & Hr).
  rewrite <- Hst in Hg, Hs, Hr. cbn [snd] in Hg, Hs, Hr.
  destruct (MakeBinaries_Inv flt w keys) as (done & rest & bins & news & HU & HI).
  destruct HI as [Hparts Hbins _ _ _ _].
  split; [exact Hg|]. split; [exact Hs|]. split; [exact Hr|].
  split; [exists news; exact Hbins|].
  subst st st'. rewrite Hparts. apply Forall2_map_In. intros r Hr'.
  unfold assigned. destruct (inParts done r) eqn:Hd; [|left; reflexivity].
  destruct (hashOf r) as [h|]; [|left; reflexivity].
  destruct (bins !! h) as [bin|]; [|left; reflexivity].
  right. split; [|eexists; reflexivity].
  assert (Hin : In r done).
  { apply (inParts_In done r (parts (store_of w)) keys); [|exact Hr'|exact Hd].
    intros d Hd'. apply (In_ungrouped (store_of w)). rewrite HU. apply in_app_iff. auto. }
  assert (HinU : In r (List.map Part_row (ungroupedParts (store_of w))))
    by (rewrite HU; apply in_app_iff; auto).
  apply In_ungrouped in HinU. tauto.
Qed.

Lemma MakeBinaries_only_assigns_witness :
  let st' := store_of (snd (MakeBinaries noFaults (mkWorld threeUngrouped []))) in
  segments st' = [] /\ List.length (parts st') = 3%nat.
Proof.
  assert (keys : List.NoDup (List.map Part_ID (parts threeUngrouped))).
  { cbn. repeat constructor; cbn; intuition discriminate. }
  destruct (MakeBinaries_only_assigns noFaults (mkWorld threeUngrouped []) keys)
    as (_ & Hs & _ & _ & Hp).
  split; [exact Hs|]. apply Forall2_length in Hp. symmetry. exact Hp.
Defined.

(** ** Running the grouper twice *)

Lemma MakeBinaries_fold (w : World) :
  fst (MakeBinaries noFaults w) = Ok tt
  /\ store_of (snd (MakeBinaries noFaults w))
     = snd (fold_left groupStep (ungroupedParts (store_of w)) (∅, store_of w)).
Proof.
  unfold MakeBinaries, bind, check, getStore. cbn.
  destruct (groupParts_fold (ungroupedParts (store_of w)) ∅ w) as [lg ->].
  split; reflexivity.
Qed.

Lemma fold_groupStep_skipped (ps : list Part) (acc : gmap string Binary * Store) :
  (forall p, In p ps -> hashOf (Part_row p) = None) ->
  fold_left groupStep ps acc = acc.
Proof.
  revert acc. induction ps as [|p ps IH]; intros acc H; [reflexivity|].
  cbn [fold_left].
  assert (Hp : groupStep acc p = acc).
  { destruct acc as [bins st]. unfold groupStep. rewrite (H p (or_introl eq_refl)). reflexivity. }
  rewrite Hp. apply IH. intros q Hq. apply H. right. exact Hq.
Qed.

(** The Parts that a run without store faults leaves ungrouped are the ones
    whose subject the parser does not accept. *)
Lemma MakeBinaries_leftovers (w : World) (p : Part) :
  List.NoDup (List.map Part_ID (parts (store_of w))) ->
  In p (ungroupedParts (store_of (snd (MakeBinaries noFaults w)))) ->
  hashOf (Part_row p) = None /\ In (Part_row p) (parts (store_of w)).
Proof.
  intros keys Hp.
  destruct (MakeBinaries_fold w) as [_ Hst]. rewrite Hst in Hp. clear Hst.
  set (U := List.map Part_row (ungroupedParts (store_of w))).
  rewrite (ungroupedParts_rows (store_of w)) in Hp. fold U in Hp.
  assert (HU : forall d, In d U -> In d (parts (store_of w)))
    by (intros d Hd; apply In_ungrouped in Hd; tauto).
  destruct (Inv_run (store_of w) keys U [] ∅ (store_of w) [] HU
              (NoDup_ungrouped (store_of w) keys) (Inv_start (store_of w))) as [news HI].
  cbn [app] in HI.
  set (bins := fst (fold_left groupStep (List.map (fun r => mkPart r []) U) (∅, store_of w))) in *.
  set (cur := snd (fold_left groupStep (List.map (fun r => mkPart r []) U) (∅, store_of w))) in *.
  destruct HI as [Hparts _ _ _ Hsome Hnone].
  assert (Hrow : In (Part_row p) (List.map Part_row (ungroupedParts cur)))
    by (apply in_map; exact Hp).
  apply In_ungrouped in Hrow as [Hin Hnone'].
  rewrite Hparts in Hin. apply in_map_iff in Hin as (r & Hr & Hrin).
  unfold assigned in Hr.
  destruct (inParts U r) eqn:Hd.
  - destruct (hashOf r) as [h|] eqn:Hh; [|subst r; split; [exact Hh|exact Hrin]].
    destruct (bins !! h) as [bin|] eqn:Hb.
    + rewrite <- Hr in Hnone'. discriminate.
    + exfalso. pose proof (Hnone h Hb) as HF.
      assert (HrU : In r U) by (apply (inParts_In U r (parts (store_of w)) keys HU Hrin), Hd).
      assert (Hf : In r (List.filter (hashIs h) U))
        by (apply filter_In; split; [exact HrU|apply hashIs_true, Hh]).
      rewrite HF in Hf. destruct Hf.
  - exfalso. subst r.
    assert (HrU : In (Part_row p) U) by (apply In_ungrouped; auto).
    apply (inParts_In U _ (parts (store_of w)) keys HU Hrin) in HrU. congruence.
Qed.

(** A Part without a key whose subject the parser does not accept stays
    as it is through a run without store faults. *)
Lemma MakeBinaries_rejected_stay (w : World) (r : PartRow) :
  List.NoDup (List.map Part_ID (parts (store_of w))) ->
  In r (parts (store_of w)) -> hashOf r = None ->
  In r (parts (store_of (snd (MakeBinaries noFaults w)))).
Proof.
  intros keys Hin Hh.
  destruct (MakeBinaries_fold w) as [_ Hst]. rewrite Hst. clear Hst.
  set (U := List.map Part_row (ungroupedParts (store_of w))).
  rewrite (ungroupedParts_rows (store_of w)). fold U.
  assert (HU : forall d, In d U -> In d (parts (store_of w)))
    by (intros d Hd; apply In_ungrouped in Hd; tauto).
  destruct (Inv_run (store_of w) keys U [] ∅ (store_of w) [] HU
              (NoDup_ungrouped (store_of w) keys) (Inv_start (store_of w))) as [news HI].
  cbn [app] in HI. destruct HI as [Hparts _ _ _ _ _]. rewrite Hparts.
  apply in_map_iff. exists r. split; [|exact Hin].
  unfold assigned. rewrite Hh. destruct (inParts U r); reflexivity.
Qed.

Lemma hashOf_None (r : PartRow) :
  hashOf r = None <-> parsedSubject (Part_Subject r) = None.
Proof.
  unfold hashOf. destruct (parsedSubject _) as [[n t]|]; split; congruence.
Qed.

(** X4: [MakeBinaries] is idempotent: after a run without store faults on a
    store whose Parts have distinct keys, the Parts without a Binary key
    are exactly the Parts that had none before and whose subject the parser
    does not accept, and a second run returns without changing the
    store. *)
Theorem MakeBinaries_idempotent (w : World) :
  List.NoDup (List.map Part_ID (parts (store_of w))) ->
  let w1 := snd (MakeBinaries noFaults w) in
  (forall r : PartRow,
      In r (parts (store_of w1)) /\ Part_BinaryID r = None
      <-> In r (parts (store_of w)) /\ Part_BinaryID r = None
          /\ parsedSubject (Part_Subject r) = None)
  /\ fst (MakeBinaries noFaults w1) = Ok tt
  /\ store_of (snd (MakeBinaries noFaults w1)) = store_of w1.
Proof.
  intros keys w1.
  assert (Hleft : forall p, In p (ungroupedParts (store_of w1)) -> hashOf (Part_row p) = None)
    by (intros p Hp; apply (MakeBinaries_leftovers w p keys Hp)).
  split.
  - intros r. split.
    + intros Hr. pose proof (proj2 (In_ungrouped (store_of w1) r) Hr) as Hu.
      apply in_map_iff in Hu as (p & <- & Hp).
      destruct (MakeBinaries_leftovers w p keys Hp) as [Hh Hin].
      split; [exact Hin|]. split; [apply Hr|apply hashOf_None, Hh].
    + intros (Hin & Hn & Hh). split; [|exact Hn].
      apply MakeBinaries_rejected_stay; [exact keys|exact Hin|apply hashOf_None, Hh].
  - destruct (MakeBinaries_fold w1) as [Hok Hst]. split; [exact Hok|].
    rewrite Hst, fold_groupStep_skipped; [reflexivity|exact Hleft].
Qed.

Lemma MakeBinaries_idempotent_witness :
  let w1 := snd (MakeBinaries noFaults (mkWorld threeUngrouped [])) in
  List.map Part_BinaryID (parts (store_of w1)) = [Some 1; None; Some 1]
  /\ (In (mkPartRow 2 "no counts here" "alt.b" "me" 101 1 None) (parts (store_of w1))
      /\ Part_BinaryID (mkPartRow 2 "no counts here" "alt.b" "me" 101 1 None) = None)
  /\ store_of (snd (MakeBinaries noFaults w1)) = store_of w1.
Proof.
  assert (keys : List.NoDup (List.map Part_ID (parts threeUngrouped))).
  { cbn. repeat constructor; cbn; intuition discriminate. }
  destruct (MakeBinaries_idempotent (mkWorld threeUngrouped []) keys) as (Hrej & _ & Hsame).
  split; [vm_compute; reflexivity|]. split; [|exact Hsame].
  apply (proj2 (Hrej (mkPartRow 2 "no counts here" "alt.b" "me" 101 1 None))).
  split; [right; left; reflexivity|]. split; [reflexivity|].
  vm_compute. reflexivity.
Defined.

(** ** A failing Save *)

Lemma groupParts_app (flt : Faults) (done rest : list Part) (bins bins1 : gmap string Binary)
  (w w1 : World) :
  groupParts flt bins done w = (Ok bins1, w1) ->
  groupParts flt bins (done ++ rest) w = groupParts flt bins1 rest w1.
Proof.
  revert bins w. induction done as [|p done IH]; intros bins w H.
  - cbn in H. injection H as <- <-. reflexivity.
  - cbn [groupParts app] in *. unfold bind in *.
    destruct (groupPart flt bins p w) as [[b| |] w']; try discriminate.
    apply IH, H.
Qed.

(** X2: A Save that fails ends the run of the grouper with its error, without
    a turn for the Parts that follow.  Nothing is rolled back: the store is
    as the turns before the failing one left it, which is what they leave
    without store faults. *)
Theorem save_failure_stops_grouper (flt : Faults) (done rest : list Part) (p : Part)
  (bins : gmap string Binary) (w w1 w2 : World) (e : error) :
  findUngroupedParts_err flt = None ->
  ungroupedParts (store_of w) = (done ++ p :: rest)%list ->
  groupParts flt ∅ done w = (Ok bins, w1) ->
  groupPart flt bins p w1 = (Failed e, w2) ->
  MakeBinaries flt w = (Failed e, w2)
  /\ w2 = w1
  /\ store_of w1 = snd (fold_left groupStep done (∅, store_of w))
  /\ exists bin, saveBinary_err flt bin = Some e.
Proof.
  intros Hq HU Hdone Hp.
  split; [|split; [|split]].
  - unfold MakeBinaries, bind, check, getStore. rewrite Hq. cbn. rewrite HU.
    rewrite (groupParts_app flt done (p :: rest) ∅ bins w w1 Hdone).
    cbn [groupParts]. unfold bind. rewrite Hp. reflexivity.
  - destruct (groupPart_cases flt bins p w1) as [[lg H]|(e' & bin & _ & _ & H)];
      rewrite H in Hp; [discriminate|]. injection Hp as _ <-. reflexivity.
  - destruct (groupParts_prefix flt done ∅ w)
      as (d & r & lg & Hd & Hw & [[-> Hr]|(e' & q & r' & bin & _ & _ & Hr)]);
      rewrite Hdone in Hw, Hr; cbn [fst snd] in Hw, Hr; [|discriminate].
    rewrite app_nil_r in Hd. subst d. rewrite Hw. reflexivity.
  - destruct (groupPart_cases flt bins p w1) as [[lg H]|(e' & bin & He & _ & H)];
      rewrite H in Hp; [discriminate|]. injection Hp as <- _. exists bin. exact He.
Qed.

Lemma save_failure_stops_grouper_witness :
  exists w2,
    MakeBinaries secondSaveFails (mkWorld threeUngrouped []) = (Failed (Other "disk full"), w2)
    /\ List.map Binary_ID (binaries (store_of w2)) = [1]
    /\ List.map Part_BinaryID (parts (store_of w2)) = [Some 1; None; None].
Proof.
  eexists. split.
  - eapply (save_failure_stops_grouper secondSaveFails
              (List.firstn 2 (ungroupedParts threeUngrouped)) []
              (mkPart (mkPartRow 3 (subjectOf "02/34") "alt.b" "me" 102 1 None) [])).
    + reflexivity.
    + vm_compute. reflexivity.
    + vm_compute. reflexivity.
    + vm_compute. reflexivity.
  - split; vm_compute; reflexivity.
Defined.

(** * The promoter, whatever fails *)

Import batch.

Section Batches.

Variable flt : Faults.
Variable WriteNZB : Binary -> error + string.

Lemma promote_promoted (c : Binary) (w : World) :
  store_of (snd (promote flt WriteNZB c w)) = store_of w
  \/ (fst (promote flt WriteNZB c w) = Ok tt
      /\ exists dbbin g nzbstr,
           Release_ID (dbrelOf flt c (store_of w)) = 0
           /\ loadBinary (Binary_ID (Binary_row c)) (store_of w) = Some dbbin
           /\ groupOf flt c (store_of w) = Some g
           /\ store_of (snd (promote flt WriteNZB c w))
              = committed (newRelease c g dbbin nzbstr) dbbin (store_of w)).
Proof.
  pose proof (promote_turn flt WriteNZB c w) as Ht.
  inversion Ht as [msg Hm| Hnz | e Hz He | d e w' Hz Hd He Hst | d s Hz _ Hd Hg Hs |
                   d g s Hz _ Hd Hg Hs]; try (left; reflexivity).
  - left. exact Hst.
  - destruct (releaseTx_cases flt (newRelease c g d s) d w) as [[_ [e He]]|[_ He]];
      rewrite He; [left; reflexivity|].
    right. split; [reflexivity|]. exists d, g, s. auto.
Qed.

Lemma forEach_promoted (cs : list Binary) (w : World) :
  exists news,
    promoted flt cs (store_of w) (store_of (snd (forEach (promote flt WriteNZB) cs w))) news.
Proof.
  revert w. induction cs as [|c cs IH]; intros w.
  - exists []. apply promoted_stop.
  - cbn [forEach]. unfold bind.
    destruct (promote_promoted c w) as [Hsame|(Hok & d & g & s & Hz & Hd & Hg & Hst)].
    + destruct (promote flt WriteNZB c w) as [[[]| |] w1]; cbn [snd] in *.
      * destruct (IH w1) as [news H]. exists news. apply promoted_skip.
        rewrite <- Hsame. exact H.
      * exists []. rewrite Hsame. apply promoted_stop.
      * exists []. rewrite Hsame. apply promoted_stop.
    + destruct (promote flt WriteNZB c w) as [r w1]; cbn [fst snd] in Hok, Hst. subst r.
      destruct (IH w1) as [news H]. rewrite Hst in H.
      exists (released c g d s (store_of w) :: news).
      apply promoted_commit; assumption.
Qed.

Lemma MakeReleases_promoted (w : World) :
  exists news,
    promoted flt (readyBinaries 100 (store_of w)) (store_of w)
      (store_of (snd (MakeReleases flt WriteNZB w))) news.
Proof.
  unfold MakeReleases, bind, check, getStore.
  destruct (readyQuery_err flt) as [e|]; [exists []; apply promoted_stop|].
  cbn. apply forEach_promoted.
Qed.

End Batches.

(** ** What a run of the promoter can change *)

Lemma promoted_frame (flt : Faults) (cs : list Binary) (st st1 : Store)
  (news : list Release) :
  promoted flt cs st st1 news ->
  groups st1 = groups st
  /\ (forall p, In p (parts st1) -> In p (parts st))
  /\ (forall s, In s (segments st1) -> In s (segments st))
  /\ (forall b, In b (binaries st1) -> In b (binaries st))
  /\ releases st1 = (releases st ++ news)%list.
Proof.
  induction 1 as [cs st|c cs st st1 news _ IH|c cs st st1 news dbbin g s Hz Hl Hg _ IH].
  - repeat split; auto. rewrite app_nil_r. reflexivity.
  - exact IH.
  - destruct IH as (Hgr & Hp & Hs & Hb & Hr).
    split; [rewrite Hgr; reflexivity|].
    split; [intros p Hin; apply Hp, committed_parts in Hin; tauto|].
    split; [intros x Hin; apply Hs, committed_segments in Hin; tauto|].
    split; [intros b Hin; apply Hb, committed_binaries in Hin; tauto|].
    rewrite Hr, committed_releases, <- app_assoc. reflexivity.
Qed.

(** X9: [MakeReleases] only promotes: whatever fails, and also when it panics,
    it leaves the Groups as they are, it adds no Part, Segment or Binary and
    changes none, and it keeps every Release, adding new ones after them. *)
Theorem MakeReleases_only_promotes (flt : Faults) (WriteNZB : Binary -> error + string)
  (w : World) :
  let st := store_of w in
  let st' := store_of (snd (MakeReleases flt WriteNZB w)) in
  groups st' = groups st
  /\ (forall p, In p (parts st') -> In p (parts st))
  /\ (forall s, In s (segments st') -> In s (segments st))
  /\ (forall b, In b (binaries st') -> In b (binaries st))
  /\ exists news, releases st' = (releases st ++ news)%list.
Proof.
  intros st st'. destruct (MakeReleases_promoted flt WriteNZB w) as [news H].
  apply promoted_frame in H as (Hg & Hp & Hs & Hb & Hr).
  split; [exact Hg|]. split; [exact Hp|]. split; [exact Hs|]. split; [exact Hb|].
  exists news. exact Hr.
Qed.

(** ** The Releases that a run adds *)

Lemma firstGroup_name (name : string) (st : Store) (g : Group) :
  firstGroup name st = Some g -> In g (groups st) /\ Group_Name g = name.
Proof.
  unfold firstGroup. intros [Hin Hn]%firstByID_In%filter_In.
  split; [exact Hin|]. apply String.eqb_eq, Hn.
Qed.

Lemma groupOf_name (flt : Faults) (c : Binary) (st : Store) (g : Group) :
  groupOf flt c st = Some g ->
  In g (groups st) /\ Group_Name g = Binary_Group (Binary_row c).
Proof.
  unfold groupOf. destruct (findGroup_err flt _); [discriminate|]. apply firstGroup_name.
Qed.

Lemma promoted_fields (flt : Faults) (cs : list Binary) (st st1 : Store)
  (news : list Release) :
  promoted flt cs st st1 news ->
  Forall
    (fun r =>
       exists c g,
         In c cs /\ In g (groups st)
         /\ Release_Name r = Binary_Name (Binary_row c)
         /\ Release_OriginalName r = Binary_Name (Binary_row c)
         /\ Release_SearchName r = cleanReleaseName (Binary_Name (Binary_row c))
         /\ Release_Posted r = Binary_Posted (Binary_row c)
         /\ Release_From r = Binary_From (Binary_row c)
         /\ Release_Group r = g
         /\ Group_Name g = Binary_Group (Binary_row c)
         /\ Release_ID r <> 0)
    news.
Proof.
  induction 1 as [cs st|c cs st st1 news _ IH|c cs st st1 news dbbin g s Hz Hl Hg _ IH].
  - constructor.
  - eapply List.Forall_impl; [|exact IH].
    intros r (c' & g' & Hin & H). exists c', g'. split; [right; exact Hin|exact H].
  - constructor.
    + exists c, g. destruct (groupOf_name flt c st g Hg) as [Hgin Hgn].
      split; [left; reflexivity|]. split; [exact Hgin|].
      repeat (split; [reflexivity|]). split; [exact Hgn|].
      unfold released. cbn. pose proof (nextID_positive (List.map Release_ID (releases st))). lia.
    + eapply List.Forall_impl; [|exact IH].
      intros r (c' & g' & Hin & Hgin & H). exists c', g'. split; [right; exact Hin|].
      split; [exact Hgin|exact H].
Qed.

(** X10: The Releases that [MakeReleases] adds, whatever fails: each has a key,
    the name and the date of a Binary of the store as its name, original
    name and date, the cleaned name as its search name, and the Group of
    the store that has the name of the Binary's group.  Its poster is empty:
    the query does not select the column [from], so [b.From] is the zero
    value. *)
Theorem MakeReleases_release_fields (flt : Faults) (WriteNZB : Binary -> error + string)
  (w : World) :
  let st := store_of w in
  let st' := store_of (snd (MakeReleases flt WriteNZB w)) in
  exists news,
    releases st' = (releases st ++ news)%list
    /\ Forall
         (fun r =>
            Release_ID r <> 0
            /\ Release_OriginalName r = Release_Name r
            /\ Release_SearchName r = cleanReleaseName (Release_Name r)
            /\ Release_From r = ""
            /\ In (Release_Group r) (groups st)
            /\ exists b,
                 In b (binaries st)
                 /\ Binary_Name b = Release_Name r
                 /\ Binary_Posted b = Release_Posted r
                 /\ Binary_Group b = Group_Name (Release_Group r))
         news.
Proof.
  intros st st'. destruct (MakeReleases_promoted flt WriteNZB w) as [news H].
  exists news. split; [apply (promoted_frame _ _ _ _ _ H)|].
  apply promoted_fields in H. eapply List.Forall_impl; [|exact H].
  intros r (c & g & Hc & Hg & Hn & Ho & Hs & Hp & Hf & Hrg & Hgn & Hid).
  apply In_readyBinaries in Hc as (b & Hb & -> & _).
  unfold scanBinary in Hn, Ho, Hs, Hp, Hf, Hgn.
  cbn [Binary_row Binary_Name Binary_Posted Binary_From Binary_Group] in Hn, Ho, Hs, Hp, Hf, Hgn.
  split; [exact Hid|]. split; [congruence|]. split; [congruence|]. split; [exact Hf|].
  split; [rewrite Hrg; exact Hg|].
  exists b. split; [exact Hb|]. rewrite Hrg. auto.
Qed.

(** ** One Release for one Binary *)

Lemma filter_key_length {A : Type} (key : A -> Z) (l : list A) (x : A) :
  List.NoDup (List.map key l) -> In x l ->
  S (List.length (List.filter (fun b => negb (key b =? key x)) l)) = List.length l.
Proof.
  induction l as [|y l IH]; intros Hnd Hin; [destruct Hin|].
  cbn [List.map] in Hnd. inversion Hnd as [|? ? Hy Hl]; subst.
  cbn [List.filter List.length]. destruct Hin as [->|Hin].
  - rewrite Z.eqb_refl. cbn [negb]. f_equal.
    rewrite filter_all; [reflexivity|].
    intros b Hb. apply negb_true_iff, Z.eqb_neq. intros He. apply Hy. rewrite <- He.
    apply in_map, Hb.
  - destruct (Z.eqb_spec (key y) (key x)) as [He|Hne]; cbn [negb].
    + exfalso. apply Hy. rewrite He. apply in_map, Hin.
    + cbn [List.length]. f_equal. apply IH; assumption.
Qed.

Lemma promoted_count (flt : Faults) (cs : list Binary) (st st1 : Store)
  (news : list Release) :
  promoted flt cs st st1 news ->
  List.NoDup (List.map Binary_ID (binaries st)) ->
  (List.length (binaries st1) + List.length news)%nat = List.length (binaries st).
Proof.
  induction 1 as [cs st|c cs st st1 news _ IH|c cs st st1 news dbbin g s Hz Hl Hg _ IH];
    intros Hnd.
  - cbn. lia.
  - apply IH, Hnd.
  - destruct (loadBinary_Some _ _ _ Hl) as (Hid & Hin & _).
    pose proof (filter_key_length Binary_ID (binaries st) (Binary_row dbbin) Hnd Hin) as Hlen.
    assert (Hnd' : List.NoDup
                     (List.map Binary_ID
                        (binaries (committed (newRelease c g dbbin s) dbbin st))))
      by (unfold committed; cbn; apply NoDup_map_filter, Hnd).
    specialize (IH Hnd'). unfold committed in IH. cbn in IH. cbn [List.length]. lia.
Qed.

(** X11: Every Release that [MakeReleases] adds takes the place of one Binary:
    in a store whose Binaries have distinct keys, the Releases and the
    Binaries together are as many after the run as before, whatever fails. *)
Theorem MakeReleases_one_release_per_binary (flt : Faults)
  (WriteNZB : Binary -> error + string) (w : World) :
  List.NoDup (List.map Binary_ID (binaries (store_of w))) ->
  let st := store_of w in
  let st' := store_of (snd (MakeReleases flt WriteNZB w)) in
  (List.length (releases st') + List.length (binaries st'))%nat
  = (List.length (releases st) + List.length (binaries st))%nat.
Proof.
  intros Hnd st st'. destruct (MakeReleases_promoted flt WriteNZB w) as [news H].
  pose proof (promoted_count _ _ _ _ _ H Hnd) as Hc.
  apply promoted_frame in H as (_ & _ & _ & _ & Hr).
  subst st st'. rewrite Hr, length_app. lia.
Qed.

Lemma MakeReleases_one_release_per_binary_witness :
  let st' := store_of (snd (MakeReleases noFaults manifestOk (mkWorld twoReady []))) in
  (List.length (releases st') + List.length (binaries st'))%nat = 2%nat
  /\ List.length (releases st') = 2%nat.
Proof.
  split; [|vm_compute; reflexivity].
  apply (MakeReleases_one_release_per_binary noFaults manifestOk (mkWorld twoReady [])).
  cbn. repeat constructor; cbn; intuition discriminate.
Defined.

(** ** The size of a Release *)

Lemma fold_left_add (l : list Z) (a : Z) : fold_left Z.add l a = a + sumZ l.
Proof.
  revert a. induction l as [|x l IH]; intros a; cbn [fold_left]; unfold sumZ; cbn [fold_right].
  - lia.
  - rewrite IH. unfold sumZ. lia.
Qed.

Lemma sumZ_app (l k : list Z) : sumZ (l ++ k) = sumZ l + sumZ k.
Proof. unfold sumZ. induction l as [|x l IH]; cbn [app fold_right]; lia. Qed.

Lemma sumZ_split {A : Type} (f : A -> Z) (p : A -> bool) (l : list A) :
  sumZ (List.map f l)
  = sumZ (List.map f (List.filter p l))
    + sumZ (List.map f (List.filter (fun x => negb (p x)) l)).
Proof.
  unfold sumZ. induction l as [|x l IH]; [reflexivity|].
  cbn [List.map List.filter fold_right]. destruct (p x); cbn [negb List.map fold_right]; lia.
Qed.

Lemma sumZ_either {A : Type} (f : A -> Z) (p q : A -> bool) (l : list A) :
  (forall x, In x l -> p x = true -> q x = false) ->
  sumZ (List.map f (List.filter (fun x => p x || q x) l))
  = sumZ (List.map f (List.filter p l)) + sumZ (List.map f (List.filter q l)).
Proof.
  unfold sumZ. induction l as [|x l IH]; intros H; [reflexivity|].
  cbn [List.filter]. specialize (IH (fun y Hy => H y (or_intror Hy))).
  pose proof (H x (or_introl eq_refl)) as Hx.
  destruct (p x); cbn [orb].
  - rewrite Hx by reflexivity. cbn [List.map fold_right]. lia.
  - destruct (q x); cbn [List.map fold_right]; lia.
Qed.

(** The bytes of the Segments of the Parts [ids], Part by Part. *)
Lemma sumZ_by_part (st : Store) (ids : list Z) :
  List.NoDup ids ->
  sumZ (List.map Segment_Size
          (List.filter (fun s => existsb (Z.eqb (Segment_PartID s)) ids) (segments st)))
  = sumZ (List.map (fun i => sumZ (List.map Segment_Size (segmentsOf st i))) ids).
Proof.
  induction ids as [|i ids IH]; intros Hnd.
  - cbn [existsb]. induction (segments st) as [|x l IHl]; [reflexivity|exact IHl].
  - inversion Hnd as [|? ? Hi Hnd']; subst. cbn [existsb List.map].
    rewrite sumZ_either.
    + rewrite IH by exact Hnd'. unfold sumZ at 3. cbn [fold_right]. unfold segmentsOf.
      fold (sumZ (List.map (fun i0 => sumZ (List.map Segment_Size
              (List.filter (fun s => Segment_PartID s =? i0) (segments st)))) ids)).
      reflexivity.
    + intros s _ He%Z.eqb_eq. apply not_true_iff_false.
      intros (j & Hj & Hej)%existsb_exists. apply Z.eqb_eq in Hej. apply Hi. congruence.
Qed.

Lemma loadBinary_parts (id : Z) (st : Store) (dbbin : Binary) :
  loadBinary id st = Some dbbin ->
  Binary_Parts dbbin
  = List.map (fun p => mkPart p (segmentsOf st (Part_ID p)))
      (List.filter (hasBinaryID id) (parts st)).
Proof.
  unfold loadBinary. destruct (firstByID _ _) as [row|] eqn:Hrow; [|discriminate].
  apply firstByID_In, filter_In in Hrow as [_ Hid]. apply Z.eqb_eq in Hid.
  intros [= <-]. cbn [Binary_Parts]. rewrite Hid. reflexivity.
Qed.

Lemma Size_by_part (id : Z) (st : Store) (dbbin : Binary) :
  loadBinary id st = Some dbbin ->
  Size dbbin
  = sumZ (List.map (fun i => sumZ (List.map Segment_Size (segmentsOf st i)))
            (List.map (fun p => Part_ID (Part_row p)) (Binary_Parts dbbin))).
Proof.
  intros Hl. unfold Size. rewrite fold_left_add, Z.add_0_l.
  rewrite (loadBinary_parts id st dbbin Hl).
  induction (List.filter (hasBinaryID id) (parts st)) as [|p ps IH]; [reflexivity|].
  cbn [List.map List.concat Part_Segments Part_row]. rewrite List.map_app, sumZ_app, IH.
  unfold sumZ at 4. cbn [fold_right]. reflexivity.
Qed.

Lemma promoted_size (flt : Faults) (cs : list Binary) (st st1 : Store)
  (news : list Release) :
  promoted flt cs st st1 news ->
  List.NoDup (List.map Part_ID (parts st)) ->
  sumZ (List.map Segment_Size (segments st))
  = sumZ (List.map Segment_Size (segments st1)) + sumZ (List.map Release_Size news).
Proof.
  induction 1 as [cs st|c cs st st1 news _ IH|c cs st st1 news dbbin g s Hz Hl Hg _ IH];
    intros Hnd.
  - unfold sumZ at 3. cbn. lia.
  - apply IH, Hnd.
  - assert (Hnd' : List.NoDup
                     (List.map Part_ID (parts (committed (newRelease c g dbbin s) dbbin st))))
      by (unfold committed; cbn; apply NoDup_map_filter, Hnd).
    specialize (IH Hnd').
    set (ids := List.map (fun p => Part_ID (Part_row p)) (Binary_Parts dbbin)) in *.
    assert (Hids : List.NoDup ids).
    { destruct (loadBinary_Some _ _ _ Hl) as (_ & _ & He). subst ids. rewrite He.
      apply NoDup_map_filter, Hnd. }
    assert (Hsize : Release_Size (released c g dbbin s st)
                    = sumZ (List.map Segment_Size
                              (List.filter
                                 (fun x => existsb (Z.eqb (Segment_PartID x)) ids)
                                 (segments st)))).
    { rewrite (sumZ_by_part st ids Hids). unfold released. cbn.
      apply (Size_by_part _ st dbbin Hl). }
    cbn [List.map]. unfold sumZ at 3. cbn [fold_right].
    fold (sumZ (List.map Release_Size news)). rewrite Hsize.
    rewrite (sumZ_split Segment_Size
               (fun x => existsb (Z.eqb (Segment_PartID x)) ids) (segments st)).
    unfold committed in IH. cbn [segments deleteBinary deleteSegments deleteParts
      insertRelease withSegments withBinaries withParts withReleases] in IH.
    fold ids in IH. lia.
Qed.

(** X12: No byte is lost: in a store whose Parts have distinct keys, the sizes
    of the Releases that [MakeReleases] adds are the bytes of the Segments
    that it deletes, whatever fails. *)
Theorem MakeReleases_keeps_the_bytes (flt : Faults) (WriteNZB : Binary -> error + string)
  (w : World) :
  List.NoDup (List.map Part_ID (parts (store_of w))) ->
  let st := store_of w in
  let st' := store_of (snd (MakeReleases flt WriteNZB w)) in
  exists news,
    releases st' = (releases st ++ news)%list
    /\ sumZ (List.map Segment_Size (segments st))
       = sumZ (List.map Segment_Size (segments st')) + sumZ (List.map Release_Size news).
Proof.
  intros Hnd st st'. destruct (MakeReleases_promoted flt WriteNZB w) as [news H].
  exists news. split; [apply (promoted_frame _ _ _ _ _ H)|].
  apply (promoted_size _ _ _ _ _ H Hnd).
Qed.

Lemma MakeReleases_keeps_the_bytes_witness :
  let st' := store_of (snd (MakeReleases noFaults manifestOk (mkWorld twoReady []))) in
  exists news,
    releases st' = news
    /\ 30 = sumZ (List.map Segment_Size (segments st')) + sumZ (List.map Release_Size news).
Proof.
  apply (MakeReleases_keeps_the_bytes noFaults manifestOk (mkWorld twoReady [])).
  cbn. repeat constructor; cbn; intuition discriminate.
Defined.

(** ** The order of the Releases *)

Lemma promoted_order (flt : Faults) (cs : list Binary) (st st1 : Store)
  (news : list Release) :
  promoted flt cs st st1 news ->
  StronglySorted byPosted cs ->
  StronglySorted (fun r1 r2 => Release_Posted r2 <= Release_Posted r1) news.
Proof.
  induction 1 as [cs st|c cs st st1 news _ IH|c cs st st1 news dbbin g s Hz Hl Hg Hp IH];
    intros Hs.
  - constructor.
  - apply IH. inversion Hs; assumption.
  - inversion Hs as [|? ? Hs' Hall]; subst. constructor; [apply IH, Hs'|].
    apply promoted_fields in Hp. eapply List.Forall_impl; [|exact Hp].
    intros r (c' & _ & Hin & _ & _ & _ & _ & Hposted & _).
    rewrite Hposted. unfold released. cbn [Release_Posted setReleaseID newRelease].
    rewrite List.Forall_forall in Hall. apply (Hall c' Hin).
Qed.

(** X13: [MakeReleases] adds its Releases in the order of the query: a Release
    that is added later is not posted later, whatever fails. *)
Theorem MakeReleases_latest_first (flt : Faults) (WriteNZB : Binary -> error + string)
  (w : World) :
  let st := store_of w in
  let st' := store_of (snd (MakeReleases flt WriteNZB w)) in
  exists news,
    releases st' = (releases st ++ news)%list
    /\ StronglySorted (fun r1 r2 => Release_Posted r2 <= Release_Posted r1) news.
Proof.
  intros st st'. destruct (MakeReleases_promoted flt WriteNZB w) as [news H].
  exists news. split; [apply (promoted_frame _ _ _ _ _ H)|].
  apply (promoted_order _ _ _ _ _ H). apply sortByPosted_sorted.
Qed.

(** ** Known groups *)

Lemma firstGroup_Some (name : string) (st : Store) (g : Group) :
  In g (groups st) -> Group_Name g = name -> firstGroup name st <> None.
Proof.
  intros Hin Hn H. unfold firstGroup in H. apply firstByID_None in H.
  assert (Hf : In g (List.filter (fun g => String.eqb (Group_Name g) name) (groups st)))
    by (apply filter_In; split; [exact Hin|apply String.eqb_eq, Hn]).
  rewrite H in Hf. destruct Hf.
Qed.

Section KnownGroups.

Variable flt : Faults.
Variable WriteNZB : Binary -> error + string.
Hypothesis lookups : forall name, findGroup_err flt name = None.

Lemma promote_known_group (c : Binary) (w : World) :
  (exists g, In g (groups (store_of w)) /\ Group_Name g = Binary_Group (Binary_row c)) ->
  fst (promote flt WriteNZB c w) <> Panicked.
Proof.
  intros (g & Hin & Hn).
  pose proof (promote_turn flt WriteNZB c w) as Ht.
  inversion Ht as [msg Hm| Hnz | e Hz He | d e w' Hz Hd He Hst | d s Hz _ Hd Hg Hs |
                   d g' s Hz _ Hd Hg Hs]; cbn [fst]; try discriminate.
  - exfalso. unfold groupOf in Hg. rewrite lookups in Hg.
    exact (firstGroup_Some _ _ g Hin Hn Hg).
  - destruct (releaseTx_cases flt (newRelease c g' d s) d w) as [[_ [e He]]|[_ He]];
      rewrite He; discriminate.
Qed.

Lemma forEach_known_groups (cs : list Binary) (w : World) :
  (forall c, In c cs ->
             exists g, In g (groups (store_of w)) /\ Group_Name g = Binary_Group (Binary_row c)) ->
  fst (forEach (promote flt WriteNZB) cs w) <> Panicked.
Proof.
  revert w. induction cs as [|c cs IH]; intros w H; [discriminate|].
  cbn [forEach]. unfold bind.
  pose proof (promote_known_group c w (H c (or_introl eq_refl))) as Hc.
  assert (Hg : groups (store_of (snd (promote flt WriteNZB c w))) = groups (store_of w)).
  { destruct (promote_promoted flt WriteNZB c w) as [->|(_ & d & g & s & _ & _ & _ & ->)];
      reflexivity. }
  destruct (promote flt WriteNZB c w) as [[[]| |] w1]; cbn [fst snd] in *;
    [|discriminate|contradiction].
  apply IH. intros c' Hc'. rewrite Hg. apply H. right. exact Hc'.
Qed.

End KnownGroups.

(** X14: When the group of every Binary is a Group of the store and the lookup
    of a Group does not fail, [MakeReleases] does not panic: it returns,
    with or without an error. *)
Theorem MakeReleases_known_groups_no_panic (flt : Faults)
  (WriteNZB : Binary -> error + string) (w : World) :
  (forall name, findGroup_err flt name = None) ->
  (forall b, In b (binaries (store_of w)) ->
             exists g, In g (groups (store_of w)) /\ Group_Name g = Binary_Group b) ->
  fst (MakeReleases flt WriteNZB w) = Ok tt
  \/ exists e, fst (MakeReleases flt WriteNZB w) = Failed e.
Proof.
  intros Hl Hg.
  assert (H : fst (MakeReleases flt WriteNZB w) <> Panicked).
  { unfold MakeReleases, bind, check, getStore.
    destruct (readyQuery_err flt) as [e|]; [discriminate|]. cbn.
    apply forEach_known_groups; [exact Hl|].
    intros c (b & Hb & -> & _)%In_readyBinaries. apply (Hg b Hb). }
  destruct (fst (MakeReleases flt WriteNZB w)) as [[]|e|];
    [left; reflexivity|right; exists e; reflexivity|contradiction].
Qed.

Lemma MakeReleases_known_groups_no_panic_witness :
  fst (MakeReleases segmentDeleteFails manifestOk (mkWorld twoReady [])) = Ok tt
  \/ exists e, fst (MakeReleases segmentDeleteFails manifestOk (mkWorld twoReady []))
               = Failed e.
Proof.
  apply MakeReleases_known_groups_no_panic; [reflexivity|].
  intros b Hb. exists (mkGroup 1 "alt.b" true). split; [left; reflexivity|].
  destruct Hb as [<-|[<-|[]]]; reflexivity.
Defined.

(** * Name cleaning on any bytes *)

Lemma length_append (a b : string) :
  String.length (a +:+ b) = (String.length a + String.length b)%nat.
Proof. induction a as [|c a IH]; [reflexivity|]. rewrite append_cons. cbn. rewrite IH. reflexivity. Qed.

Lemma prefix_length (p s : string) :
  String.prefix p s = true -> (String.length p <= String.length s)%nat.
Proof.
  revert s. induction p as [|a p IH]; intros s H; [cbn; lia|].
  destruct s as [|b s]; [discriminate|]. rewrite prefix_cons in H.
  destruct (Ascii.eqb a b); [|discriminate]. cbn. apply IH in H. lia.
Qed.

(** A replacement that is not longer than what it replaces does not make
    the string longer. *)
Lemma replaceFrom_length (old new : string) (skip : nat) (s : string) :
  (1 <= String.length old)%nat -> (String.length new <= String.length old)%nat ->
  (String.length (replaceFrom old new skip s) + Nat.min skip (String.length s)
   <= String.length s)%nat.
Proof.
  intros Hold Hnew. revert skip. induction s as [|c s IH]; intros skip; [cbn; lia|].
  cbn [replaceFrom]. destruct skip as [|k].
  - destruct (HasPrefix (String c s) old) eqn:Hp.
    + apply prefix_length in Hp. cbn [String.length] in Hp.
      specialize (IH (String.length old - 1)%nat). rewrite length_append.
      cbn [String.length]. lia.
    + specialize (IH 0%nat). cbn [String.length]. lia.
  - specialize (IH k). cbn [String.length]. lia.
Qed.

Lemma Replace_length (s old new : string) :
  (1 <= String.length old)%nat -> (String.length new <= String.length old)%nat ->
  (String.length (Replace s old new) <= String.length s)%nat.
Proof.
  intros Hold Hnew. pose proof (replaceFrom_length old new 0 s Hold Hnew). unfold Replace. lia.
Qed.

Lemma Replace_loop_length (new : string) (pats : list string) (s : string) :
  Forall (fun c => (1 <= String.length c)%nat /\ (String.length new <= String.length c)%nat)
    pats ->
  (String.length (fold_left (fun name c => Replace name c new) pats s) <= String.length s)%nat.
Proof.
  intros H. revert s. induction H as [|c pats [H1 H2] _ IH]; intros s; [cbn; lia|].
  cbn [fold_left]. specialize (IH (Replace s c new)).
  pose proof (Replace_length s c new H1 H2). lia.
Qed.

(** X6: [cleanReleaseName] never makes a name longer, whatever bytes it holds. *)
Theorem cleanReleaseName_not_longer (name : string) :
  (String.length (cleanReleaseName name) <= String.length name)%nat.
Proof.
  unfold cleanReleaseName.
  etransitivity; [apply Replace_loop_length|apply Replace_loop_length].
  - repeat constructor.
  - repeat constructor.
Qed.

(** A string without an occurrence of [old] is left as it is. *)
Lemma replaceFrom_absent (old new : string) (i : Z) (s : string) :
  0 <= i -> indexFrom old i s = -1 -> replaceFrom old new 0 s = s.
Proof.
  revert i. induction s as [|c s IH]; intros i Hi H; [reflexivity|].
  cbn [replaceFrom indexFrom] in *.
  destruct (HasPrefix (String c s) old); [lia|].
  f_equal. apply (IH (i + 1)); [lia|exact H].
Qed.

Lemma Replace_absent (s old new : string) : Index s old = -1 -> Replace s old new = s.
Proof. apply replaceFrom_absent. lia. Qed.

Lemma Replace_loop_absent (new : string) (pats : list string) (s : string) :
  (forall c, In c pats -> Index s c = -1) ->
  fold_left (fun name c => Replace name c new) pats s = s.
Proof.
  induction pats as [|c pats IH]; intros H; [reflexivity|].
  cbn [fold_left]. rewrite Replace_absent by (apply H; left; reflexivity).
  apply IH. intros d Hd. apply H. right. exact Hd.
Qed.

(** X7: A name in which none of the twelve characters occurs is its own search
    name, whatever bytes it holds. *)
Theorem cleanReleaseName_unchanged (name : string) :
  (forall c, In c (removeChars ++ spaceChars)%list -> Index name c = -1) ->
  cleanReleaseName name = name.
Proof.
  intros H. unfold cleanReleaseName.
  rewrite (Replace_loop_absent "" removeChars name)
    by (intros c Hc; apply H, in_app_iff; left; exact Hc).
  apply Replace_loop_absent. intros c Hc. apply H, in_app_iff. right. exact Hc.
Qed.

Lemma cleanReleaseName_unchanged_witness :
  cleanReleaseName "My Movie (2020) [1080p]" = "My Movie (2020) [1080p]".
Proof.
  apply cleanReleaseName_unchanged.
  apply List.Forall_forall. repeat constructor.
Defined.

(** * Name cleaning on texts *)

Lemma clean_loops (chars : list string) :
  spec.characters chars ->
  cleanReleaseName (spec.text chars) = spec.text (spec.cleaned chars).
Proof.
  intros Hchars. unfold cleanReleaseName, spec.cleaned.
  destruct characters_tables as [Hremove Hspace].
  rewrite remove_loop by assumption.
  rewrite space_loop by (try apply characters_filter; assumption).
  reflexivity.
Qed.

Lemma cleaned_characters (chars : list string) :
  spec.characters chars -> spec.characters (spec.cleaned chars).
Proof.
  intros H. unfold spec.cleaned.
  apply (characters_filter (fun c => negb (bool_decide (c ∈ removeChars)))) in H.
  induction H as [|c l Hc _ IH]; cbn [List.map]; constructor; [|exact IH].
  destruct (bool_decide _); [reflexivity|exact Hc].
Qed.

(** The characters of a cleaned name: none is in one of the two tables. *)
Lemma cleaned_clean (chars : list string) (c : string) :
  In c (spec.cleaned chars) -> (c ∉ removeChars) /\ (c ∉ spaceChars).
Proof.
  unfold spec.cleaned. intros (d & Hd & [_ Hf]%filter_In)%in_map_iff.
  apply negb_true_iff, bool_decide_eq_false in Hf.
  destruct (decide (d ∈ spaceChars)) as [Hs|Hs].
  - rewrite bool_decide_eq_true_2 in Hd by exact Hs. subst c.
    split; intros H; vm_compute in H; repeat (apply elem_of_cons in H as [H|H]; [discriminate|]);
      apply elem_of_nil in H; exact H.
  - rewrite bool_decide_eq_false_2 in Hd by exact Hs. subst c. split; assumption.
Qed.

Lemma cleaned_cleaned (chars : list string) :
  spec.cleaned (spec.cleaned chars) = spec.cleaned chars.
Proof.
  pose proof (cleaned_clean chars) as H.
  induction (spec.cleaned chars) as [|c l IH]; [reflexivity|].
  destruct (H c (or_introl eq_refl)) as [Hr Hs].
  unfold spec.cleaned in *. cbn [List.filter].
  rewrite (bool_decide_eq_false_2 _ Hr). cbn [negb List.map].
  rewrite (bool_decide_eq_false_2 _ Hs). f_equal.
  apply IH. intros d Hd. apply H. right. exact Hd.
Qed.

(** No occurrence of a character starts at a continuation byte. *)
Lemma indexFrom_continuations (a : ascii) (ps cs rest : string) (i : Z) :
  spec.isContinuation a = false -> spec.continuations cs = true ->
  indexFrom (String a ps) i (cs +:+ rest)
  = indexFrom (String a ps) (i + Z.of_nat (String.length cs)) rest.
Proof.
  intros Ha. revert i. induction cs as [|k cs IH]; intros i Hcs.
  - cbn. rewrite Z.add_0_r. reflexivity.
  - cbn in Hcs. apply andb_true_iff in Hcs as [Hk Hcs].
    rewrite append_cons. cbn [indexFrom]. unfold HasPrefix. rewrite prefix_cons.
    destruct (Ascii.eqb_spec a k) as [->|_]; [congruence|].
    rewrite IH by exact Hcs. f_equal. cbn [String.length]. lia.
Qed.

(** A character that is not among the characters of a text does not occur
    in the text. *)
Lemma indexFrom_text (pat : string) (chars : list string) (i : Z) :
  spec.isCharacter pat = true -> spec.characters chars -> ~ In pat chars ->
  indexFrom pat i (spec.text chars) = -1.
Proof.
  intros Hpat Hchars. revert i. induction Hchars as [|c chars Hc _ IH]; intros i Hin.
  - destruct pat as [|a ps]; [discriminate|]. reflexivity.
  - rewrite text_cons.
    destruct pat as [|a ps]; [discriminate|]. destruct c as [|b cs]; [discriminate|].
    rewrite append_cons. cbn [indexFrom]. unfold HasPrefix.
    destruct (String.prefix (String a ps) (String b (cs +:+ spec.text chars))) eqn:Hp.
    + exfalso. apply Hin. left. symmetry.
      rewrite prefix_cons in Hp. destruct (Ascii.eqb_spec a b) as [->|]; [|discriminate].
      f_equal. apply prefix_same_length with (r := spec.text chars); [|exact Hp].
      apply isCharacter_inv in Hpat as (_ & Hl1 & _).
      apply isCharacter_inv in Hc as (_ & Hl2 & _). lia.
    + pose proof Hpat as Hpat'. apply isCharacter_inv in Hpat' as (Ha & _ & _).
      apply isCharacter_inv in Hc as (_ & _ & Hcs).
      rewrite indexFrom_continuations by assumption.
      apply IH. intros H. apply Hin. right. exact H.
Qed.

(** X8: On a name that is a text, [cleanReleaseName] does its work in one go:
    none of the twelve characters occurs in the search name, and cleaning
    the search name again changes nothing. *)
Theorem cleanReleaseName_idempotent (chars : list string) :
  spec.characters chars ->
  (forall c, In c (removeChars ++ spaceChars)%list ->
             Index (cleanReleaseName (spec.text chars)) c = -1)
  /\ cleanReleaseName (cleanReleaseName (spec.text chars))
     = cleanReleaseName (spec.text chars).
Proof.
  intros Hchars. rewrite clean_loops by exact Hchars. split.
  - intros c Hc. apply indexFrom_text.
    + destruct characters_tables as [Hr Hs]. unfold spec.characters in Hr, Hs.
      apply in_app_iff in Hc as [Hc|Hc];
        [rewrite List.Forall_forall in Hr; apply Hr, Hc
        |rewrite List.Forall_forall in Hs; apply Hs, Hc].
    + apply cleaned_characters, Hchars.
    + intros Hin. apply cleaned_clean in Hin as [Hr Hs].
      apply in_app_iff in Hc as [Hc|Hc]; [apply Hr|apply Hs]; apply list_elem_of_In, Hc.
  - rewrite clean_loops by (apply cleaned_characters, Hchars).
    rewrite cleaned_cleaned. reflexivity.
Qed.

Lemma cleanReleaseName_idempotent_witness :
  spec.characters sampleName
  /\ cleanReleaseName (cleanReleaseName (spec.text sampleName))
     = cleanReleaseName (spec.text sampleName).
Proof.
  assert (H : spec.characters sampleName) by (repeat constructor).
  split; [exact H|]. apply (cleanReleaseName_idempotent sampleName H).
Defined.

Lemma FindStringSubmatchMap_rc (subject : string) :
  FindStringSubmatchMap rc subject
  = match regexp.FindStringSubmatch rc subject with
    | Some texts =>
        <["name" := default "" (texts !! 2%nat)]>
          (<["parts" := default "" (texts !! 1%nat)]> ∅)
    | None => ∅
    end.
Proof.
  unfold FindStringSubmatchMap, regexp.FindStringSubmatch.
  destruct (regexp.run _ _) as [c|]; [|reflexivity].
  cbn [regexp.SubexpNames rc List.length seq List.map List.combine fold_left fst snd String.eqb Ascii.eqb Bool.eqb lookup list_lookup default from_option id].
  reflexivity.
Qed.

Lemma fmap_two (f : string -> string) (a b : string) :
  f <$> (<["name" := a]> (<["parts" := b]> (∅ : gmap string string)))
  = <["name" := f a]> (<["parts" := f b]> ∅).
Proof.
  rewrite (fmap_insert f (<["parts" := b]> (∅ : gmap string string)) "name" a).
  rewrite (fmap_insert f (∅ : gmap string string) "parts" b).
  rewrite fmap_empty. reflexivity.
Qed.

(** X5: What lines 201 to 229 make of a subject.  The pattern [r] has no group
    named [reqid], so line 210 never runs; when [r] matches, its two named
    groups are there, trimmed, and nothing is filled in; when it does not,
    the map is empty, the generated name is the empty string, and
    [PartRegex] is the only source of a part count. *)
Theorem subject_fields_cases (subject : string) (w : World) :
  FindStringSubmatchMap rc subject !! "reqid" = None
  /\ exists m,
       subjectFields subject w = (Ok m, w)
       /\ m = match regexp.FindStringSubmatch rc subject with
              | Some texts =>
                  <["name" := TrimSpace (default "" (texts !! 2%nat))]>
                    (<["parts" := TrimSpace (default "" (texts !! 1%nat))]> ∅)
              | None =>
                  match regexp.FindStringSubmatch PartRegex subject with
                  | Some partmatch =>
                      <["parts" := default "" (partmatch !! 1%nat)]> (<["name" := ""]> ∅)
                  | None => <["name" := ""]> ∅
                  end
              end.
Proof.
  split.
  { rewrite FindStringSubmatchMap_rc. destruct (regexp.FindStringSubmatch rc subject).
    - rewrite !lookup_insert_ne by discriminate. apply lookup_empty.
    - apply lookup_empty. }
  unfold subjectFields. rewrite FindStringSubmatchMap_rc.
  destruct (regexp.FindStringSubmatch rc subject) as [texts|].
  - set (a := default "" (texts !! 2%nat)). set (b := default "" (texts !! 1%nat)).
    assert (Hsize : (0 <? size (<["name" := a]> (<["parts" := b]> (∅ : gmap string string))))%nat
                    = true).
    { apply Nat.ltb_lt. rewrite map_size_insert_None; [lia|].
      rewrite lookup_insert_ne by discriminate. apply lookup_empty. }
    rewrite Hsize. rewrite fmap_two.
    rewrite (lookup_insert_ne _ "name" "reqid") by discriminate.
    rewrite (lookup_insert_ne _ "parts" "reqid") by discriminate.
    rewrite lookup_empty.
    rewrite (lookup_insert_eq _ "name").
    rewrite (lookup_insert_ne _ "name" "parts") by discriminate.
    rewrite (lookup_insert_eq _ "parts").
    eexists. (split; reflexivity).
  - rewrite map_size_empty. cbn [Nat.ltb Nat.leb]. rewrite !lookup_empty.
    rewrite (lookup_insert_ne _ "name" "parts") by discriminate. rewrite lookup_empty.
    rewrite map_to_list_empty. cbn [List.map Join String.concat].
    destruct (regexp.FindStringSubmatch PartRegex subject) as [partmatch|] eqn:E.
    + destruct (FindStringSubmatch_PartRegex _ _ E) as [text Ht]. rewrite Ht.
      eexists. (split; reflexivity).
    + eexists. (split; reflexivity).
Qed.

(** * Opening the database *)

Import opening.

Example EncodeToString_foobar :
  List.map (fun s => base64.EncodeToString (list_ascii_of_string s))
    [""; "f"; "fo"; "foo"; "foob"; "fooba"; "foobar"]
  = [""; "Zg=="; "Zm8="; "Zm9v"; "Zm9vYg=="; "Zm9vYmE="; "Zm9vYmFy"].
Proof. vm_compute. reflexivity. Qed.

Example EncodeToString_url :
  base64.EncodeToString (List.map ascii_of_nat [251; 255; 190]%nat) = "-_--".
Proof. vm_compute. reflexivity. Qed.

(** * The path of a database *)

Lemma list_ascii_of_append (a b : string) :
  list_ascii_of_string (a +:+ b) = (list_ascii_of_string a ++ list_ascii_of_string b)%list.
Proof. induction a as [|c a IH]; [reflexivity|]. rewrite append_cons. cbn. rewrite IH. reflexivity. Qed.

Lemma list_ascii_inj (a b : string) :
  list_ascii_of_string a = list_ascii_of_string b -> a = b.
Proof.
  intros H. rewrite <- (string_of_list_ascii_of_string a), <- (string_of_list_ascii_of_string b).
  rewrite H. reflexivity.
Qed.

Lemma constructDBPath_inj (p1 p2 : string) (m1 m2 : bool) :
  constructDBPath p1 m1 = constructDBPath p2 m2 -> p1 = p2 /\ m1 = m2.
Proof.
  unfold constructDBPath. rewrite !append_cons, !append_nil. intros [= H].
  apply (f_equal list_ascii_of_string) in H. rewrite !list_ascii_of_append in H.
  assert (Hm : m1 = m2).
  { apply (f_equal (@List.rev ascii)) in H. rewrite !rev_app_distr in H.
    destruct m1, m2; try reflexivity; cbn in H; discriminate. }
  subst m2. split; [|reflexivity].
  apply app_inj_2 in H as [H _]; [|reflexivity].
  apply list_ascii_inj, H.
Qed.

(** X15: A path and a mode give a data source name of their own: two calls of
    [constructDBPath] give the same name only for the same path and the
    same mode. *)
Theorem constructDBPath_injective (p1 p2 : string) (m1 m2 : bool) :
  constructDBPath p1 m1 = constructDBPath p2 m2 <-> p1 = p2 /\ m1 = m2.
Proof.
  split; [apply constructDBPath_inj|intros [-> ->]; reflexivity].
Qed.

(** * The random name of a database *)

(** Induction on a list of bytes, block by block. *)
Lemma blocks_ind (P : list ascii -> Prop) :
  P [] -> (forall a, P [a]) -> (forall a b, P [a; b]) ->
  (forall a b c l, P l -> P (a :: b :: c :: l)) ->
  forall l, P l.
Proof.
  intros H0 H1 H2 H3.
  assert (H : forall l, P l /\ (forall a, P (a :: l)) /\ (forall a b, P (a :: b :: l))).
  { induction l as [|c l (IH0 & IH1 & IH2)]; [auto|].
    split; [apply IH1|]. split; [intros a; apply IH2|]. intros a b. apply H3, IH0. }
  intros l. apply H.
Qed.

Lemma EncodeToString_length (src : list ascii) :
  String.length (base64.EncodeToString src) = (4 * ((List.length src + 2) / 3))%nat.
Proof.
  induction src as [| | |a b c l IH] using blocks_ind; try reflexivity.
  cbn [base64.EncodeToString String.length List.length]. rewrite IH.
  replace (S (S (S (List.length l))) + 2)%nat with (1 * 3 + (List.length l + 2))%nat by lia.
  rewrite Nat.div_add_l by lia. lia.
Qed.

Lemma sextet_range (x : Z) : 0 <= Z.land x 63 < 64.
Proof.
  change 63 with (Z.ones 6). rewrite Z.land_ones by lia. apply Z.mod_pos_bound. lia.
Qed.

Lemma encode_alphabet (i : Z) :
  0 <= i < 64 -> In (base64.encode i) (list_ascii_of_string base64.encodeURL).
Proof.
  intros Hi. unfold base64.encode. apply nth_In.
  change (List.length (list_ascii_of_string base64.encodeURL)) with 64%nat. lia.
Qed.

(** The characters of an encoding: of the alphabet, or the padding. *)
Lemma EncodeToString_alphabet (src : list ascii) :
  Forall (fun a => In a (list_ascii_of_string base64.encodeURL) \/ a = base64.StdPadding)
    (list_ascii_of_string (base64.EncodeToString src)).
Proof.
  induction src as [| | |a b c l IH] using blocks_ind;
    cbn [base64.EncodeToString list_ascii_of_string];
    repeat (constructor; [first [right; reflexivity|left; apply encode_alphabet, sextet_range]|]);
    [constructor|constructor|constructor|exact IH].
Qed.

Lemma Read_length (source rb : list ascii) :
  List.length (fst (Read source rb)) = List.length rb.
Proof. unfold Read. cbn [fst]. rewrite length_app, length_firstn, length_skipn. lia. Qed.

(** What [randString] is made of: the bytes of the buffer after the read. *)
Lemma randString_encodes (env : Env) (t : list call) :
  exists rb t',
    randString env t = (Ok (base64.EncodeToString rb), t')
    /\ List.length rb = 32%nat
    /\ rb = fst (Read (entropy env) (List.repeat zero 32)).
Proof.
  unfold randString.
  pose proof (Read_length (entropy env) (List.repeat zero 32)) as Hlen.
  destruct (Read (entropy env) (List.repeat zero 32)) as [rb err]. cbn [fst] in Hlen.
  rewrite repeat_length in Hlen.
  destruct err as [e|]; eexists rb, _; (split; [reflexivity|]); auto.
Qed.

Lemma alphabet_Index (s : string) (c : ascii) :
  Forall (fun a => In a (list_ascii_of_string base64.encodeURL) \/ a = base64.StdPadding)
    (list_ascii_of_string s) ->
  forallb (fun a => negb (Ascii.eqb a c))
    (base64.StdPadding :: list_ascii_of_string base64.encodeURL) = true ->
  Index s (String c "") = -1.
Proof.
  intros Ha Hc. apply Index_cut.
  rewrite forallb_forall in Hc.
  induction s as [|a s IH]; [reflexivity|].
  cbn [list_ascii_of_string] in Ha. inversion Ha as [|? ? Hhead Htail]; subst.
  cbn [cut]. rewrite HasPrefix_byte.
  destruct (Ascii.eqb_spec c a) as [->|_].
  - exfalso.
    assert (Hin : In a (base64.StdPadding :: list_ascii_of_string base64.encodeURL))
      by (destruct Hhead as [Hin| ->]; [right; exact Hin|left; reflexivity]).
    specialize (Hc a Hin). rewrite Ascii.eqb_refl in Hc. discriminate.
  - rewrite (IH Htail). reflexivity.
Qed.

(** X16: [randString] always gives a name of 44 characters of the URL-safe
    alphabet and the padding, also when the random source fails; so the
    name has none of the characters that end the path in a data source
    name. *)
Theorem randString_url_safe (env : Env) (t : list call) :
  exists name t',
    randString env t = (Ok name, t')
    /\ String.length name = 44%nat
    /\ Forall (fun a => In a (list_ascii_of_string base64.encodeURL) \/ a = "="%char)
         (list_ascii_of_string name)
    /\ Index name "?" = -1 /\ Index name "/" = -1 /\ Index name "&" = -1.
Proof.
  destruct (randString_encodes env t) as (rb & t' & Hr & Hlen & _).
  exists (base64.EncodeToString rb), t'. split; [exact Hr|].
  split; [rewrite EncodeToString_length, Hlen; reflexivity|].
  pose proof (EncodeToString_alphabet rb) as Ha. split; [exact Ha|].
  repeat split; apply alphabet_Index; try exact Ha; reflexivity.
Qed.

(** ** Different bytes, different names *)

Lemma uint_range (b : ascii) : 0 <= base64.uint b < 256.
Proof. unfold base64.uint. pose proof (nat_ascii_bounded b). lia. Qed.

Lemma uint_inj (a b : ascii) : base64.uint a = base64.uint b -> a = b.
Proof.
  unfold base64.uint. intros H. apply Nat2Z.inj in H.
  rewrite <- (ascii_nat_embedding a), <- (ascii_nat_embedding b), H. reflexivity.
Qed.

Lemma lor_shiftl (a b n : Z) :
  0 <= n -> 0 <= b < 2 ^ n -> Z.lor (Z.shiftl a n) b = a * 2 ^ n + b.
Proof.
  intros Hn Hb. rewrite <- Z.shiftl_mul_pow2 by exact Hn.
  pose proof (Z.add_lor_land (Z.shiftl a n) b) as Hadd.
  assert (Hz : Z.land (Z.shiftl a n) b = 0); [|rewrite Hz in Hadd; lia].
  apply Z.bits_inj'. intros i Hi. rewrite Z.land_spec, Z.bits_0.
  destruct (Z.lt_ge_cases i n) as [Hlt|Hge].
  - rewrite Z.shiftl_spec_low by exact Hlt. reflexivity.
  - destruct (Z.eq_dec b 0) as [->|Hb0]; [rewrite Z.bits_0; apply andb_false_r|].
    rewrite (Z.bits_above_log2 b i); [apply andb_false_r|lia|].
    apply Z.log2_lt_pow2; [lia|].
    apply Z.lt_le_trans with (2 ^ n); [lia|]. apply Z.pow_le_mono_r; lia.
Qed.

(** The value of a block of three bytes. *)
Lemma block_value (a b c : ascii) :
  Z.lor (Z.lor (Z.shiftl (base64.uint a) 16) (Z.shiftl (base64.uint b) 8)) (base64.uint c)
  = base64.uint a * 65536 + base64.uint b * 256 + base64.uint c.
Proof.
  pose proof (uint_range a). pose proof (uint_range b). pose proof (uint_range c).
  assert (H16 : Z.lor (Z.shiftl (base64.uint a) 16) (Z.shiftl (base64.uint b) 8)
                = Z.shiftl (base64.uint a * 256 + base64.uint b) 8).
  { replace (base64.uint a * 256 + base64.uint b)
      with (Z.lor (Z.shiftl (base64.uint a) 8) (base64.uint b))
      by (rewrite lor_shiftl by lia; change (2 ^ 8) with 256; reflexivity).
    rewrite Z.shiftl_lor, Z.shiftl_shiftl by lia. reflexivity. }
  rewrite H16, lor_shiftl by lia. change (2 ^ 8) with 256. lia.
Qed.

Lemma sextet (x k : Z) : 0 <= k -> Z.land (Z.shiftr x k) 63 = (x / 2 ^ k) mod 64.
Proof.
  intros Hk. change 63 with (Z.ones 6). rewrite Z.land_ones by lia.
  rewrite Z.shiftr_div_pow2 by exact Hk. reflexivity.
Qed.

Lemma encode_inj (i j : Z) :
  0 <= i < 64 -> 0 <= j < 64 -> base64.encode i = base64.encode j -> i = j.
Proof.
  intros Hi Hj H. unfold base64.encode in H.
  assert (Hnd : List.NoDup (list_ascii_of_string base64.encodeURL)).
  { apply NoDup_ListNoDup. apply (bool_decide_unpack _). vm_compute. exact I. }
  pose proof (proj1 (List.NoDup_nth _ base64.StdPadding) Hnd (Z.to_nat i) (Z.to_nat j)) as Hn.
  change (List.length (list_ascii_of_string base64.encodeURL)) with 64%nat in Hn.
  specialize (Hn ltac:(lia) ltac:(lia) H). lia.
Qed.

Lemma encode_not_padding (i : Z) : 0 <= i < 64 -> base64.encode i <> base64.StdPadding.
Proof.
  intros Hi He. pose proof (encode_alphabet i Hi) as Hin. rewrite He in Hin.
  vm_compute in Hin. intuition discriminate.
Qed.

Lemma pair_value (a b : ascii) :
  Z.lor (Z.shiftl (base64.uint a) 16) (Z.shiftl (base64.uint b) 8)
  = base64.uint a * 65536 + base64.uint b * 256.
Proof.
  pose proof (block_value a b zero) as H. change (base64.uint zero) with 0 in H.
  rewrite Z.lor_0_r, Z.add_0_r in H. exact H.
Qed.

Lemma encode_sextet_inj (x y : Z) :
  base64.encode (Z.land x 63) = base64.encode (Z.land y 63) -> Z.land x 63 = Z.land y 63.
Proof. apply encode_inj; apply sextet_range. Qed.

Ltac padding_clash :=
  match goal with
  | H : base64.StdPadding = base64.encode (Z.land _ 63) |- _ =>
      symmetry in H; apply encode_not_padding in H; [destruct H|apply sextet_range]
  | H : base64.encode (Z.land _ 63) = base64.StdPadding |- _ =>
      apply encode_not_padding in H; [destruct H|apply sextet_range]
  end.

Ltac sextets :=
  repeat match goal with
         | H : base64.encode (Z.land _ 63) = base64.encode (Z.land _ 63) |- _ =>
             apply encode_sextet_inj in H
         end.

Ltac to_equations :=
  repeat match goal with
         | H : Z.land _ 63 = Z.land _ 63 |- _ =>
             rewrite ?(Z.shiftr_0_r) in H;
             first [rewrite !sextet in H by lia
                   |change 63 with (Z.ones 6) in H; rewrite !Z.land_ones in H by lia];
             revert H
         end;
  change (2 ^ 18) with 262144; change (2 ^ 12) with 4096; change (2 ^ 6) with 64;
  intros.

Lemma EncodeToString_inj (l1 l2 : list ascii) :
  base64.EncodeToString l1 = base64.EncodeToString l2 -> l1 = l2.
Proof.
  revert l2. induction l1 as [|a|a b|a b c l IH] using blocks_ind;
    intros [|a' [|b' [|c' l2]]]; cbn [base64.EncodeToString];
    try discriminate; try (intros _; reflexivity); intros H; injection H as ?; intros;
    try padding_clash; sextets.
  - pose proof (uint_range a). pose proof (uint_range a').
    rewrite !Z.shiftl_mul_pow2 in * by lia. change (2 ^ 16) with 65536 in *.
    to_equations.
    assert (base64.uint a = base64.uint a') as Ea by (Z.div_mod_to_equations; lia).
    apply uint_inj in Ea. subst. reflexivity.
  - rewrite !pair_value in *.
    pose proof (uint_range a). pose proof (uint_range a').
    pose proof (uint_range b). pose proof (uint_range b').
    to_equations.
    assert (base64.uint a = base64.uint a' /\ base64.uint b = base64.uint b') as [Ea Eb]
      by (Z.div_mod_to_equations; lia).
    apply uint_inj in Ea, Eb. subst. reflexivity.
  - rewrite !block_value in *.
    pose proof (uint_range a). pose proof (uint_range a').
    pose proof (uint_range b). pose proof (uint_range b').
    pose proof (uint_range c). pose proof (uint_range c').
    to_equations.
    assert (base64.uint a = base64.uint a' /\ base64.uint b = base64.uint b'
            /\ base64.uint c = base64.uint c') as (Ea & Eb & Ec)
      by (Z.div_mod_to_equations; lia).
    apply uint_inj in Ea, Eb, Ec. subst. f_equal. f_equal. f_equal. apply IH. assumption.
Qed.

(** The data source that a call opened. *)
Lemma randString_inj (env1 env2 : Env) (t1 t2 : list call) :
  fst (randString env1 t1) = fst (randString env2 t2) ->
  fst (Read (entropy env1) (List.repeat zero 32))
  = fst (Read (entropy env2) (List.repeat zero 32)).
Proof.
  destruct (randString_encodes env1 t1) as (rb1 & t1' & -> & _ & ->).
  destruct (randString_encodes env2 t2) as (rb2 & t2' & -> & _ & ->).
  cbn [fst]. intros [= H]. apply EncodeToString_inj, H.
Qed.

(** X17: Random sources that differ in their first 32 bytes give names that
    differ, and so data source names that differ: two in-memory databases
    made from such sources are apart. *)
Theorem randString_apart (env1 env2 : Env) (t1 t2 : list call) (name1 name2 : string) :
  (32 <= List.length (entropy env1))%nat ->
  (32 <= List.length (entropy env2))%nat ->
  List.firstn 32 (entropy env1) <> List.firstn 32 (entropy env2) ->
  fst (randString env1 t1) = Ok name1 ->
  fst (randString env2 t2) = Ok name2 ->
  name1 <> name2 /\ constructDBPath name1 true <> constructDBPath name2 true.
Proof.
  intros H1 H2 Hne Hn1 Hn2.
  assert (Hnames : name1 <> name2).
  { intros ->. apply Hne.
    assert (He : fst (randString env1 t1) = fst (randString env2 t2)) by congruence.
    apply randString_inj in He. unfold Read in He. cbn [fst] in He.
    rewrite repeat_length in He.
    rewrite !skipn_all2 in He by (rewrite repeat_length; lia).
    rewrite !app_nil_r in He. exact He. }
  split; [exact Hnames|].
  intros He. apply constructDBPath_inj in He as [He _]. exact (Hnames He).
Qed.

Lemma randString_apart_witness :
  constructDBPath "AAECAwQFBgcICQoLDA0ODxAREhMUFRYXGBkaGxwdHh8=" true
  <> constructDBPath "AQIDBAUGBwgJCgsMDQ4PEBESExQVFhcYGRobHB0eHyA=" true.
Proof.
  apply (randString_apart (countingSource 0) (countingSource 1) [] []).
  - vm_compute. lia.
  - vm_compute. lia.
  - vm_compute. discriminate.
  - vm_compute. reflexivity.
  - vm_compute. reflexivity.
Defined.

